(** * Task Bench core: graph model, execute-point, configuration, reporting

    A shallow embedding of [src/core/core.cc] and properties of it.

    Conventions of the embedding.
    - [long], [int], [long long] values are integers in [Z].  Signed overflow
      is undefined in C++ and lies outside the model; where the source
      converts to [size_t] or to [int] the wrap-around is written out
      ([to_size_t], [to_int]).
    - C++ [/] and [%] truncate towards zero: they are [Z.quot] and [Z.rem].
      A zero divisor is an error of the model ([DivByZero]).
    - [assert] is enabled (no [NDEBUG]) and [DEBUG_CORE] is not defined; a
      failed assertion, [abort()] and [exit(0)] end the computation with the
      corresponding [result]; an access outside a buffer is [Undefined].
    - [double] and [float] values are rationals in [Q]: finite values,
      compared and combined without rounding.
    - [random_uniform] (core_random.h), the iteration selectors of
      core_kernel.h, [atof] (libc) and the samplers of <random> are not part
      of core.cc; they are parameters of the model. *)

From Stdlib Require Import ZArith QArith Lia Ascii String.
From stdpp Require Import base list gmap strings.

Local Close Scope Q_scope.
Local Open Scope Z_scope.
Set Default Proof Using "Type".

(** ** Results of fallible code *)

Inductive result (A : Type) : Type :=
  | Ok (a : A)
  | AssertFail (what : string)
  | DivByZero
  | Abort (msg : string)
  | Exit (code : Z)
  | Undefined (what : string).
Arguments Ok {A} a.
Arguments AssertFail {A} what.
Arguments DivByZero {A}.
Arguments Abort {A} msg.
Arguments Exit {A} code.
Arguments Undefined {A} what.

Definition bind {A B : Type} (m : result A) (f : A -> result B) : result B :=
  match m with
  | Ok a => f a
  | AssertFail w => AssertFail w
  | DivByZero => DivByZero
  | Abort s => Abort s
  | Exit c => Exit c
  | Undefined w => Undefined w
  end.

Notation "'do' x <- m ; k" := (bind m (fun x => k))
  (at level 10, x name, m at level 100, k at level 200).

Definition assert (b : bool) (what : string) : result unit :=
  if b then Ok tt else AssertFail what.

Definition is_ok {A : Type} (m : result A) : bool :=
  match m with Ok _ => true | _ => false end.

(** [for (x : xs) body] with an accumulator, stopping at the first error. *)
Fixpoint foldM {A S : Type} (body : S -> A -> result S) (xs : list A) (s : S)
  : result S :=
  match xs with
  | [] => Ok s
  | x :: xs' => do s' <- body s x; foldM body xs' s'
  end.

(** ** Machine arithmetic *)

Definition cpp_div (a b : Z) : result Z :=
  if b =? 0 then DivByZero else Ok (a `quot` b).

Definition cpp_mod (a b : Z) : result Z :=
  if b =? 0 then DivByZero else Ok (a `rem` b).

(** Conversion of a [long] to [size_t] (64 bits). *)
Definition to_size_t (v : Z) : Z := v `mod` 2 ^ 64.

(** Conversion to [int] (32 bits, two's complement). *)
Definition to_int (v : Z) : Z := (v + 2 ^ 31) `mod` 2 ^ 32 - 2 ^ 31.

(** The expression [1 << dset] of the FFT pattern: the literal [1] is an
    [int], so the shift is a 32-bit one.  It is exact for [0 <= dset < 31];
    beyond that the C++ expression is undefined and the value given here is
    only a placeholder. *)
Definition int_shl1 (dset : Z) : Z := to_int (Z.shiftl 1 dset).

(** [sizeof(std::pair<long, long>)] *)
Definition sizeof_pair : Z := 16.

(** The points [first, first+1, ..., last] visited by
    [for (long x = first; x <= last; ++x)]. *)
Definition range_incl (first last : Z) : list Z :=
  seqZ first (last - first + 1).

(** The points visited by [for (long x = first; x < bound; ++x)]. *)
Definition range_excl (first bound : Z) : list Z :=
  seqZ first (bound - first).

(** ** Data model (core_c.h) *)

Inductive DependenceType : Type :=
  | TRIVIAL | NO_COMM | STENCIL_1D | STENCIL_1D_PERIODIC | DOM | TREE | FFT
  | ALL_TO_ALL | NEAREST | SPREAD | RANDOM_NEAREST | RANDOM_SPREAD.

Inductive KernelType : Type :=
  | EMPTY | BUSY_WAIT | MEMORY_BOUND | COMPUTE_DGEMM | MEMORY_DAXPY
  | COMPUTE_BOUND | COMPUTE_BOUND2 | IO_BOUND | LOAD_IMBALANCE
  | COMPUTE_MEMORY | DIST_IMBALANCE.

Inductive DistType : Type := UNIFORM | NORMAL | GAMMA | CAUCHY.

Global Instance DependenceType_eq_dec : EqDecision DependenceType.
Proof. solve_decision. Defined.
Global Instance KernelType_eq_dec : EqDecision KernelType.
Proof. solve_decision. Defined.
Global Instance DistType_eq_dec : EqDecision DistType.
Proof. solve_decision. Defined.

Record Dist : Type := mkDist {
  dist_type : DistType;
  dist_max : Z;
  dist_std : Z;
  dist_a : Z;
  dist_b : Q
}.

Record Kernel : Type := mkKernel {
  kernel_type : KernelType;
  iterations : Z;
  samples : Z;
  imbalance : Q;
  fraction_mem : Q;
  dist : Dist
}.

(** An inclusive interval [(first, second)], a [std::pair<long, long>]. *)
Definition interval : Type := Z * Z.

(** The [size_t**] table: [None] is a pointer that was never assigned, a
    [None] cell is allocated but never written. *)
Definition size_table : Type := option (list (list (option Z))).

Record TaskGraph : Type := mkTaskGraph {
  graph_index : Z;
  timesteps : Z;
  max_width : Z;
  dependence : DependenceType;
  radix : Z;
  period : Z;
  fraction_connected : Q;
  kernel : Kernel;
  output_bytes_per_task : Z;
  scratch_bytes_per_task : Z;
  nb_fields : Z;
  output_bytes_size : size_table;
  output_case : Z;
  onormal_mu : Q;
  onormal_std : Q;
  ogamma_alpha : Q;
  ogamma_beta : Q
}.

Definition set_timesteps (v : Z) (g : TaskGraph) : TaskGraph :=
  mkTaskGraph (graph_index g) v (max_width g) (dependence g) (radix g)
    (period g) (fraction_connected g) (kernel g) (output_bytes_per_task g)
    (scratch_bytes_per_task g) (nb_fields g) (output_bytes_size g)
    (output_case g) (onormal_mu g) (onormal_std g) (ogamma_alpha g)
    (ogamma_beta g).

Definition set_max_width (v : Z) (g : TaskGraph) : TaskGraph :=
  mkTaskGraph (graph_index g) (timesteps g) v (dependence g) (radix g)
    (period g) (fraction_connected g) (kernel g) (output_bytes_per_task g)
    (scratch_bytes_per_task g) (nb_fields g) (output_bytes_size g)
    (output_case g) (onormal_mu g) (onormal_std g) (ogamma_alpha g)
    (ogamma_beta g).

Definition set_dependence (v : DependenceType) (g : TaskGraph) : TaskGraph :=
  mkTaskGraph (graph_index g) (timesteps g) (max_width g) v (radix g)
    (period g) (fraction_connected g) (kernel g) (output_bytes_per_task g)
    (scratch_bytes_per_task g) (nb_fields g) (output_bytes_size g)
    (output_case g) (onormal_mu g) (onormal_std g) (ogamma_alpha g)
    (ogamma_beta g).

Definition set_radix (v : Z) (g : TaskGraph) : TaskGraph :=
  mkTaskGraph (graph_index g) (timesteps g) (max_width g) (dependence g) v
    (period g) (fraction_connected g) (kernel g) (output_bytes_per_task g)
    (scratch_bytes_per_task g) (nb_fields g) (output_bytes_size g)
    (output_case g) (onormal_mu g) (onormal_std g) (ogamma_alpha g)
    (ogamma_beta g).

Definition set_period (v : Z) (g : TaskGraph) : TaskGraph :=
  mkTaskGraph (graph_index g) (timesteps g) (max_width g) (dependence g)
    (radix g) v (fraction_connected g) (kernel g) (output_bytes_per_task g)
    (scratch_bytes_per_task g) (nb_fields g) (output_bytes_size g)
    (output_case g) (onormal_mu g) (onormal_std g) (ogamma_alpha g)
    (ogamma_beta g).

Definition set_fraction_connected (v : Q) (g : TaskGraph) : TaskGraph :=
  mkTaskGraph (graph_index g) (timesteps g) (max_width g) (dependence g)
    (radix g) (period g) v (kernel g) (output_bytes_per_task g)
    (scratch_bytes_per_task g) (nb_fields g) (output_bytes_size g)
    (output_case g) (onormal_mu g) (onormal_std g) (ogamma_alpha g)
    (ogamma_beta g).

Definition set_kernel (v : Kernel) (g : TaskGraph) : TaskGraph :=
  mkTaskGraph (graph_index g) (timesteps g) (max_width g) (dependence g)
    (radix g) (period g) (fraction_connected g) v (output_bytes_per_task g)
    (scratch_bytes_per_task g) (nb_fields g) (output_bytes_size g)
    (output_case g) (onormal_mu g) (onormal_std g) (ogamma_alpha g)
    (ogamma_beta g).

Definition set_output_bytes_per_task (v : Z) (g : TaskGraph) : TaskGraph :=
  mkTaskGraph (graph_index g) (timesteps g) (max_width g) (dependence g)
    (radix g) (period g) (fraction_connected g) (kernel g) v
    (scratch_bytes_per_task g) (nb_fields g) (output_bytes_size g)
    (output_case g) (onormal_mu g) (onormal_std g) (ogamma_alpha g)
    (ogamma_beta g).

Definition set_scratch_bytes_per_task (v : Z) (g : TaskGraph) : TaskGraph :=
  mkTaskGraph (graph_index g) (timesteps g) (max_width g) (dependence g)
    (radix g) (period g) (fraction_connected g) (kernel g)
    (output_bytes_per_task g) v (nb_fields g) (output_bytes_size g)
    (output_case g) (onormal_mu g) (onormal_std g) (ogamma_alpha g)
    (ogamma_beta g).

Definition set_nb_fields (v : Z) (g : TaskGraph) : TaskGraph :=
  mkTaskGraph (graph_index g) (timesteps g) (max_width g) (dependence g)
    (radix g) (period g) (fraction_connected g) (kernel g)
    (output_bytes_per_task g) (scratch_bytes_per_task g) v
    (output_bytes_size g) (output_case g) (onormal_mu g) (onormal_std g)
    (ogamma_alpha g) (ogamma_beta g).

Definition set_output_bytes_size (v : size_table) (g : TaskGraph) : TaskGraph :=
  mkTaskGraph (graph_index g) (timesteps g) (max_width g) (dependence g)
    (radix g) (period g) (fraction_connected g) (kernel g)
    (output_bytes_per_task g) (scratch_bytes_per_task g) (nb_fields g) v
    (output_case g) (onormal_mu g) (onormal_std g) (ogamma_alpha g)
    (ogamma_beta g).

Definition set_output_case (v : Z) (g : TaskGraph) : TaskGraph :=
  mkTaskGraph (graph_index g) (timesteps g) (max_width g) (dependence g)
    (radix g) (period g) (fraction_connected g) (kernel g)
    (output_bytes_per_task g) (scratch_bytes_per_task g) (nb_fields g)
    (output_bytes_size g) v (onormal_mu g) (onormal_std g) (ogamma_alpha g)
    (ogamma_beta g).

Definition set_onormal_mu (v : Q) (g : TaskGraph) : TaskGraph :=
  mkTaskGraph (graph_index g) (timesteps g) (max_width g) (dependence g)
    (radix g) (period g) (fraction_connected g) (kernel g)
    (output_bytes_per_task g) (scratch_bytes_per_task g) (nb_fields g)
    (output_bytes_size g) (output_case g) v (onormal_std g) (ogamma_alpha g)
    (ogamma_beta g).

Definition set_onormal_std (v : Q) (g : TaskGraph) : TaskGraph :=
  mkTaskGraph (graph_index g) (timesteps g) (max_width g) (dependence g)
    (radix g) (period g) (fraction_connected g) (kernel g)
    (output_bytes_per_task g) (scratch_bytes_per_task g) (nb_fields g)
    (output_bytes_size g) (output_case g) (onormal_mu g) v (ogamma_alpha g)
    (ogamma_beta g).

Definition set_ogamma_alpha (v : Q) (g : TaskGraph) : TaskGraph :=
  mkTaskGraph (graph_index g) (timesteps g) (max_width g) (dependence g)
    (radix g) (period g) (fraction_connected g) (kernel g)
    (output_bytes_per_task g) (scratch_bytes_per_task g) (nb_fields g)
    (output_bytes_size g) (output_case g) (onormal_mu g) (onormal_std g) v
    (ogamma_beta g).

Definition set_ogamma_beta (v : Q) (g : TaskGraph) : TaskGraph :=
  mkTaskGraph (graph_index g) (timesteps g) (max_width g) (dependence g)
    (radix g) (period g) (fraction_connected g) (kernel g)
    (output_bytes_per_task g) (scratch_bytes_per_task g) (nb_fields g)
    (output_bytes_size g) (output_case g) (onormal_mu g) (onormal_std g)
    (ogamma_alpha g) v.

(** ** Graph model *)

Definition needs_period (dtype : DependenceType) : bool :=
  bool_decide (dtype = SPREAD) || bool_decide (dtype = RANDOM_NEAREST).

Definition offset_at_timestep (g : TaskGraph) (timestep : Z) : Z :=
  if timestep <? 0 then 0 else
  match dependence g with
  | TRIVIAL | NO_COMM | STENCIL_1D | STENCIL_1D_PERIODIC => 0
  | DOM => Z.max 0 (timestep + max_width g - timesteps g)
  | TREE | FFT | ALL_TO_ALL | NEAREST | SPREAD | RANDOM_NEAREST
  | RANDOM_SPREAD => 0
  end.

Definition width_at_timestep (g : TaskGraph) (timestep : Z) : Z :=
  if timestep <? 0 then 0 else
  match dependence g with
  | TRIVIAL | NO_COMM | STENCIL_1D | STENCIL_1D_PERIODIC => max_width g
  | DOM => Z.min (max_width g) (Z.min (timestep + 1) (timesteps g - timestep))
  | TREE => Z.min (max_width g) (Z.shiftl 1 (Z.min timestep 62))
  | FFT | ALL_TO_ALL | NEAREST | SPREAD | RANDOM_NEAREST | RANDOM_SPREAD =>
      max_width g
  end.

(** [(long)ceil(log2(max_width))] is the integer [Z.log2_up], the least [n]
    with [max_width <= 2^n]: for [1 <= max_width <= 2^32] the rounding of
    [log2] cannot turn a width above a power of two into that power.  It
    is [0] for width [1].  For much wider graphs the two differ: at
    [max_width = 2^k + 1] with [k >= 49] the conversion to [double] and
    [log2] round to [k], one less than [Z.log2_up]. *)
Definition max_dependence_sets (g : TaskGraph) : Z :=
  match dependence g with
  | TRIVIAL | NO_COMM | STENCIL_1D | STENCIL_1D_PERIODIC | DOM | TREE => 1
  | FFT => Z.log2_up (max_width g)
  | ALL_TO_ALL | NEAREST => 1
  | SPREAD | RANDOM_NEAREST | RANDOM_SPREAD => period g
  end.

Definition timestep_period (g : TaskGraph) : Z := max_dependence_sets g.

Definition dependence_set_at_timestep (g : TaskGraph) (timestep : Z)
  : result Z :=
  match dependence g with
  | TRIVIAL | NO_COMM | STENCIL_1D | STENCIL_1D_PERIODIC | DOM | TREE => Ok 0
  | FFT =>
      cpp_mod (timestep + max_dependence_sets g - 1) (max_dependence_sets g)
  | ALL_TO_ALL | NEAREST => Ok 0
  | SPREAD | RANDOM_NEAREST | RANDOM_SPREAD =>
      cpp_mod timestep (max_dependence_sets g)
  end.

(** Comparison [x < y] of two finite floating-point values. *)
Definition lt_double (x y : Q) : bool := negb (Qle_bool y x).

(** The run-coalescing loop shared by the two RANDOM_NEAREST arms.  The
    state is the list of intervals written so far ([deps[0..idx)]) and
    [run_start]. *)
Definition rn_step (include : Z -> bool) (st : list interval * Z) (i : Z)
  : list interval * Z :=
  let '(deps, run_start) := st in
  if include i then
    (deps, if run_start <? 0 then i else run_start)
  else
    (if run_start >=? 0 then deps ++ [(run_start, i - 1)] else deps, -1).

Definition rn_scan (include : Z -> bool) (first last_i : Z) : list interval :=
  let '(deps, run_start) :=
    fold_left (rn_step include) (range_incl first last_i) ([], -1) in
  (* the value of [i] when the loop is left *)
  let i := Z.max first (last_i + 1) in
  if run_start >=? 0 then deps ++ [(run_start, i - 1)] else deps.

Section Model.

(** [random_uniform(key, sizeof key)] of core_random.h on a key of [long]s. *)
Variable random_uniform : list Z -> Q.

(** The key [hash_value] and the test [include] of the RANDOM_NEAREST arm of
    [dependencies], for candidate [i] of [point]. *)
Definition forward_key (g : TaskGraph) (dset point i : Z) : list Z :=
  [graph_index g; radix g; dset; i; point].

Definition include_forward (g : TaskGraph) (dset point i : Z) : bool :=
  lt_double (random_uniform (forward_key g dset point i))
    (fraction_connected g)
  || ((radix g >? 0) && (i =? point)).

(** The same for the RANDOM_NEAREST arm of [reverse_dependencies]. *)
Definition reverse_key (g : TaskGraph) (dset point i : Z) : list Z :=
  [graph_index g; radix g; dset; point; i].

Definition include_reverse (g : TaskGraph) (dset point i : Z) : bool :=
  lt_double (random_uniform (reverse_key g dset point i))
    (fraction_connected g)
  || ((radix g >? 0) && (i =? point)).

(** [size_t reverse_dependencies(long dset, long point, pair *deps)]: the
    result is the content [deps[0..n)] that the call writes, [n] being the
    returned count (SPREAD returns [radix], which is that count for the
    non-negative radix that the parser lets through). *)
Definition reverse_dependencies (g : TaskGraph) (dset point : Z)
  : result (list interval) :=
  match dependence g with
  | TRIVIAL => Ok []
  | NO_COMM => Ok [(point, point)]
  | STENCIL_1D =>
      Ok [(Z.max 0 (point - 1), Z.min (point + 1) (max_width g - 1))]
  | STENCIL_1D_PERIODIC =>
      Ok ([(Z.max 0 (point - 1), Z.min (point + 1) (max_width g - 1))]
          ++ (if point - 1 <? 0 then [(max_width g - 1, max_width g - 1)]
              else [])
          ++ (if point + 1 >=? max_width g then [(0, 0)] else []))
  | DOM => Ok [(point, Z.min (max_width g - 1) (point + 1))]
  | TREE =>
      let child1 := point * 2 in
      let child2 := point * 2 + 1 in
      if (child1 <? max_width g) && (child2 <? max_width g) then
        Ok [(child1, child2)]
      else if child1 <? max_width g then Ok [(child1, child1)]
      else Ok []
  | FFT =>
      let d1 := point - int_shl1 dset in
      let d2 := point + int_shl1 dset in
      Ok ((if d1 >=? 0 then [(d1, d1)] else [])
          ++ [(point, point)]
          ++ (if d2 <? max_width g then [(d2, d2)] else []))
  | ALL_TO_ALL => Ok [(0, max_width g - 1)]
  | NEAREST =>
      if radix g >? 0 then
        Ok [(Z.max 0 (point - (radix g - 1) `quot` 2),
             Z.min (point + radix g `quot` 2) (max_width g - 1))]
      else Ok []
  | SPREAD =>
      (* [% max_width] is evaluated when the loop runs at all *)
      if (radix g >? 0) && (max_width g =? 0) then DivByZero else
      Ok (map (fun i =>
                 let dep := (point - (i * max_width g) `quot` radix g
                             - (if i >? 0 then dset else 0))
                            `rem` max_width g in
                 let dep := if dep <? 0 then dep + max_width g else dep in
                 (dep, dep))
              (range_excl 0 (radix g)))
  | RANDOM_NEAREST =>
      Ok (rn_scan (include_reverse g dset point)
            (Z.max 0 (point - (radix g - 1) `quot` 2))
            (Z.min (point + radix g `quot` 2) (max_width g - 1)))
  | RANDOM_SPREAD => AssertFail "unexpected dependence type"
  end.

Definition num_reverse_dependencies (g : TaskGraph) (dset point : Z)
  : result Z :=
  match dependence g with
  | TRIVIAL => Ok 0
  | NO_COMM | STENCIL_1D => Ok 1
  | STENCIL_1D_PERIODIC => Ok (if max_width g >? 1 then 2 else 3)
  | DOM | TREE => Ok 1
  | FFT => Ok 3
  | ALL_TO_ALL => Ok 1
  | NEAREST => Ok (if radix g >? 0 then 1 else 0)
  | SPREAD | RANDOM_NEAREST => Ok (to_size_t (radix g))
  | RANDOM_SPREAD => AssertFail "unexpected dependence type"
  end.

(** [size_t dependencies(long dset, long point, pair *deps)], as
    [reverse_dependencies]. *)
Definition dependencies (g : TaskGraph) (dset point : Z)
  : result (list interval) :=
  match dependence g with
  | TRIVIAL => Ok []
  | NO_COMM => Ok [(point, point)]
  | STENCIL_1D =>
      Ok [(Z.max 0 (point - 1), Z.min (point + 1) (max_width g - 1))]
  | STENCIL_1D_PERIODIC =>
      Ok ([(Z.max 0 (point - 1), Z.min (point + 1) (max_width g - 1))]
          ++ (if point - 1 <? 0 then [(max_width g - 1, max_width g - 1)]
              else [])
          ++ (if point + 1 >=? max_width g then [(0, 0)] else []))
  | DOM => Ok [(Z.max 0 (point - 1), point)]
  | TREE =>
      let parent := point `quot` 2 in
      Ok [(parent, parent)]
  | FFT =>
      let d1 := point - int_shl1 dset in
      let d2 := point + int_shl1 dset in
      Ok ((if d1 >=? 0 then [(d1, d1)] else [])
          ++ [(point, point)]
          ++ (if d2 <? max_width g then [(d2, d2)] else []))
  | ALL_TO_ALL => Ok [(0, max_width g - 1)]
  | NEAREST =>
      if radix g >? 0 then
        Ok [(Z.max 0 (point - radix g `quot` 2),
             Z.min (point + (radix g - 1) `quot` 2) (max_width g - 1))]
      else Ok []
  | SPREAD =>
      if (radix g >? 0) && (max_width g =? 0) then DivByZero else
      Ok (map (fun i =>
                 let dep := (point + (i * max_width g) `quot` radix g
                             + (if i >? 0 then dset else 0))
                            `rem` max_width g in
                 (dep, dep))
              (range_excl 0 (radix g)))
  | RANDOM_NEAREST =>
      Ok (rn_scan (include_forward g dset point)
            (Z.max 0 (point - radix g `quot` 2))
            (Z.min (point + (radix g - 1) `quot` 2) (max_width g - 1)))
  | RANDOM_SPREAD => AssertFail "unexpected dependence type"
  end.

Definition num_dependencies (g : TaskGraph) (dset point : Z) : result Z :=
  match dependence g with
  | TRIVIAL => Ok 0
  | NO_COMM | STENCIL_1D => Ok 1
  | STENCIL_1D_PERIODIC => Ok (if max_width g >? 1 then 2 else 3)
  | DOM | TREE => Ok 1
  | FFT => Ok 3
  | ALL_TO_ALL => Ok 1
  | NEAREST => Ok (if radix g >? 0 then 1 else 0)
  | SPREAD | RANDOM_NEAREST => Ok (to_size_t (radix g))
  | RANDOM_SPREAD => AssertFail "unexpected dependence type"
  end.

(** The intervals [deps] were written into a buffer of [capacity]
    entries. *)
Definition written_into (deps : list interval) (capacity : Z) : result unit :=
  if Z.of_nat (length deps) <=? capacity then Ok tt
  else Undefined "intervals written past the end of the buffer".

(** The overloads returning a [std::vector]: a buffer of [count] intervals
    is filled by the overloads above and truncated to what was written. *)
Definition reverse_dependencies_vector (g : TaskGraph) (dset point : Z)
  : result (list interval) :=
  do count <- num_reverse_dependencies g dset point;
  do deps <- reverse_dependencies g dset point;
  do _ <- written_into deps count;
  do _ <- assert (Z.of_nat (length deps) <=? count) "actual_count <= count";
  Ok deps.

Definition dependencies_vector (g : TaskGraph) (dset point : Z)
  : result (list interval) :=
  do count <- num_dependencies g dset point;
  do deps <- dependencies g dset point;
  do _ <- written_into deps count;
  do _ <- assert (Z.of_nat (length deps) <=? count) "actual_count <= count";
  Ok deps.

(** ** Execute-point *)

(** A buffer of [bytes] bytes seen through a [std::pair<long, long>*]:
    [slots] are the records it holds. *)
Record buffer : Type := mkBuffer {
  bytes : Z;
  slots : list (Z * Z)
}.

(** One line printed by the corrupted-value branch of [execute_point]:
    graph, task, input index, position, expected and actual record. *)
Record corruption : Type := mkCorruption {
  c_graph : Z;
  c_timestep : Z;
  c_point : Z;
  c_input : Z;
  c_position : Z;
  c_expected : Z * Z;
  c_actual : Z * Z
}.

(** Computations that print corruption reports before they end. *)
Definition logged (A : Type) : Type := list corruption * result A.

Definition lret {A : Type} (a : A) : logged A := ([], Ok a).

Definition lbind {A B : Type} (m : logged A) (f : A -> logged B) : logged B :=
  match m with
  | (out, Ok a) => let '(out', r) := f a in (out ++ out', r)
  | (out, AssertFail w) => (out, AssertFail w)
  | (out, DivByZero) => (out, DivByZero)
  | (out, Abort w) => (out, Abort w)
  | (out, Exit c) => (out, Exit c)
  | (out, Undefined w) => (out, Undefined w)
  end.

Definition lift {A : Type} (m : result A) : logged A := ([], m).

Definition tell (c : corruption) : logged unit := ([c], Ok tt).

Notation "'ldo' x <- m ; k" := (lbind m (fun x => k))
  (at level 10, x name, m at level 100, k at level 200).

Fixpoint lfold {A S : Type} (body : S -> A -> logged S) (xs : list A) (s : S)
  : logged S :=
  match xs with
  | [] => lret s
  | x :: xs' => ldo s' <- body s x; lfold body xs' s'
  end.

Definition MAGIC_VALUE : Z := 0x5C4A7C8B.

(** The asserts of [Kernel::execute]; the kernels themselves
    (core_kernel.h) leave the output buffer alone and are not modelled.
    [scratch_ptr] is [None] for a null pointer. *)
Definition Kernel_execute (k : Kernel) (graph_index timestep point : Z)
    (scratch_ptr : option (list Z)) (scratch_bytes : Z) : result unit :=
  match kernel_type k with
  | EMPTY | BUSY_WAIT | COMPUTE_BOUND | COMPUTE_BOUND2 | IO_BOUND => Ok tt
  | MEMORY_BOUND | COMPUTE_DGEMM | MEMORY_DAXPY | COMPUTE_MEMORY =>
      do _ <- assert (bool_decide (scratch_ptr <> None)) "scratch_ptr != NULL";
      assert (scratch_bytes >? 0) "scratch_bytes > 0"
  | LOAD_IMBALANCE | DIST_IMBALANCE =>
      assert ((timestep >=? 0) && (point >=? 0)) "timestep >= 0 && point >= 0"
  end.

(** The inner loop over the records of one input buffer. *)
Definition validate_records (g : TaskGraph) (timestep point dep idx : Z)
    (input : buffer) : logged unit :=
  lfold (fun _ i =>
           match slots input !! Z.to_nat i with
           | None => lift (Undefined "read outside the input buffer")
           | Some (first, second) =>
               ldo _ <- (if negb (first =? timestep - 1) || negb (second =? dep)
                         then tell (mkCorruption (graph_index g) timestep
                                      point idx i (timestep - 1, dep)
                                      (first, second))
                         else lret tt);
               ldo _ <- lift (assert (first =? timestep - 1)
                                "input[i].first == timestep - 1");
               lift (assert (second =? dep) "input[i].second == dep")
           end)
        (range_excl 0 (bytes input `quot` sizeof_pair)) tt.

(** The body of the loop over the points [dep] of a span; the state of the
    loops is [idx]. *)
Definition validate_dep (g : TaskGraph) (timestep point : Z)
    (inputs : list buffer) (idx dep : Z) : logged Z :=
  let n_inputs := Z.of_nat (length inputs) in
  let last_offset := offset_at_timestep g (timestep - 1) in
  let last_width := width_at_timestep g (timestep - 1) in
  if (last_offset <=? dep) && (dep <? last_offset + last_width) then
    ldo _ <- lift (assert (idx <? n_inputs) "idx < n_inputs");
    match inputs !! Z.to_nat idx with
    | None => lift (Undefined "read outside input_ptr")
    | Some input =>
        ldo _ <- lift (assert (bytes input >=? sizeof_pair)
                         "input_bytes[idx] >= sizeof(pair)");
        ldo _ <- validate_records g timestep point dep idx input;
        lret (idx + 1)
    end
  else lret idx.

(** The block "Validate input" of [execute_point]; [inputs] are the
    [n_inputs] buffers of [input_ptr] with their [input_bytes].  The
    intervals are written to an [alloca] buffer of [max_deps] entries. *)
Definition validate_input (g : TaskGraph) (timestep point : Z)
    (inputs : list buffer) : logged unit :=
  ldo dset <- lift (dependence_set_at_timestep g timestep);
  ldo max_deps <- lift (num_dependencies g dset point);
  ldo deps <- lift (dependencies g dset point);
  ldo _ <- lift (written_into deps max_deps);
  ldo _ <-
    lfold (fun idx (span : interval) =>
             lfold (validate_dep g timestep point inputs)
                   (range_incl (fst span) (snd span)) idx)
          deps 0;
  lret tt.

(** The head of [execute_point]: "Validate timestep and point" and
    "Validate input". *)
Definition execute_point_validation (g : TaskGraph) (timestep point : Z)
    (inputs : list buffer) : logged unit :=
  ldo _ <- lift (assert ((0 <=? timestep) && (timestep <? timesteps g))
                   "0 <= timestep && timestep < timesteps");
  let offset := offset_at_timestep g timestep in
  let width := width_at_timestep g timestep in
  ldo _ <- lift (assert ((offset <=? point) && (point <? offset + width))
                   "offset <= point && point < offset+width");
  validate_input g timestep point inputs.

(** "Generate output": every record of the output buffer becomes
    [(timestep, point)]. *)
Definition generate_output (timestep point output_bytes : Z) (output : buffer)
  : result buffer :=
  do out <-
    foldM (fun (out : list (Z * Z)) i =>
             if (Z.to_nat i <? length out)%nat then
               Ok (<[Z.to_nat i := (timestep, point)]> out)
             else Undefined "write outside the output buffer")
          (range_excl 0 (output_bytes `quot` sizeof_pair)) (slots output);
  Ok (mkBuffer (bytes output) out).

(** [execute_point]: the result is the output buffer after the call. *)
Definition execute_point (g : TaskGraph) (timestep point : Z)
    (output : buffer) (output_bytes : Z) (inputs : list buffer)
    (scratch_ptr : option (list Z)) (scratch_bytes : Z) : logged buffer :=
  ldo _ <- execute_point_validation g timestep point inputs;
  ldo _ <- lift (assert (output_bytes >=? sizeof_pair)
                   "output_bytes >= sizeof(pair)");
  ldo out <- lift (generate_output timestep point output_bytes output);
  ldo _ <- lift (assert (scratch_bytes =? scratch_bytes_per_task g)
                   "scratch_bytes == scratch_bytes_per_task");
  ldo _ <- lift (if scratch_bytes >? 0 then
                   match scratch_ptr with
                   | Some (w :: _) => assert (w =? MAGIC_VALUE)
                                        "*scratch == MAGIC_VALUE"
                   | _ => Undefined "read outside the scratch buffer"
                   end
                 else Ok tt);
  ldo _ <- lift (Kernel_execute (kernel g) (graph_index g) timestep point
                   scratch_ptr scratch_bytes);
  lret out.

Definition prepare_scratch (scratch_bytes : Z) : result (list Z) :=
  do _ <- assert (scratch_bytes `rem` 8 =? 0)
            "scratch_bytes % sizeof(uint64_t) == 0";
  Ok (map (fun _ => MAGIC_VALUE) (range_excl 0 (scratch_bytes `quot` 8))).

(** ** Output-size planner *)

Definition read_cell (tab : list (list (option Z))) (t idx : Z) : result Z :=
  if (t <? 0) || (idx <? 0) then Undefined "index outside output_bytes_size"
  else
    match tab !! Z.to_nat t with
    | None => Undefined "index outside output_bytes_size"
    | Some row =>
        match row !! Z.to_nat idx with
        | None => Undefined "index outside output_bytes_size"
        | Some None => Undefined "read of an unwritten cell"
        | Some (Some v) => Ok v
        end
    end.

Definition write_cell (tab : list (list (option Z))) (t idx v : Z)
  : result (list (list (option Z))) :=
  if (t <? 0) || (idx <? 0) then Undefined "index outside output_bytes_size"
  else
    match tab !! Z.to_nat t with
    | None => Undefined "index outside output_bytes_size"
    | Some row =>
        if (Z.to_nat idx <? length row)%nat then
          Ok (<[Z.to_nat t := <[Z.to_nat idx := Some v]> row]> tab)
        else Undefined "index outside output_bytes_size"
    end.

(** The histogram [p[0..width_t)] that the [nrolls] draws of row [t] leave
    behind, for [output_case] 1, 2 and 3 (std::normal_distribution,
    std::gamma_distribution, rand). *)
Variable sample_histogram : TaskGraph -> Z -> list Z.

Definition nrolls : Z := 10000.

(** The rows of [allocate_bytes] when [output_bytes_per_task != 16]. *)
Definition allocate_row (g : TaskGraph) (tab : list (list (option Z))) (t : Z)
  : result (list (list (option Z))) :=
  let width_t := width_at_timestep g t in
  let offset_t := offset_at_timestep g t in
  let nstars :=
    to_int (to_size_t ((output_bytes_per_task g - 16) * width_t) `quot` 16) in
  let p : list Z :=
    if (1 <=? output_case g) && (output_case g <=? 3)
    then sample_histogram g t
    else map (fun _ => 0) (range_excl 0 width_t) in
  do tab <-
    (if output_case g =? 0 then
       foldM (fun tab i => write_cell tab t (i + offset_t)
                             (output_bytes_per_task g))
             (range_excl 0 width_t) tab
     else Ok tab);
  if output_case g >? 0 then
    do st <-
      foldM (fun (st : list (list (option Z)) * Z) i =>
               let '(tab, iroll) := st in
               let p_i := default 0 (p !! Z.to_nat i) in
               let v := to_size_t (((p_i * nstars) `quot` nrolls + 1) * 16) in
               do tab <- write_cell tab t (i + offset_t) v;
               Ok (tab, to_int (to_size_t iroll + to_size_t (v - 16) `quot` 16)))
            (range_excl 0 width_t) (tab, 0);
    do st <-
      foldM (fun (st : list (list (option Z)) * Z) i =>
               let '(tab, iroll) := st in
               let p_i := default 0 (p !! Z.to_nat i) in
               do old_output <- read_cell tab t (i + offset_t);
               let v := to_size_t (old_output
                                   + (p_i * (nstars - iroll)) `quot` nrolls * 16) in
               do tab <- write_cell tab t (i + offset_t) v;
               Ok (tab, to_int (to_size_t iroll
                                + to_size_t (v - old_output) `quot` 16)))
            (range_excl 0 width_t) st;
    let '(tab, iroll) := st in
    do last <- read_cell tab t (width_t - 1 + offset_t);
    write_cell tab t (width_t - 1 + offset_t)
      (to_size_t (last + (nstars - iroll) * 16))
  else Ok tab.

(** [allocate_bytes(g)]: fills the table that [g.output_bytes_size] points
    to. *)
Definition allocate_bytes (g : TaskGraph) : result TaskGraph :=
  match output_bytes_size g with
  | None => Undefined "output_bytes_size was never allocated"
  | Some tab =>
      do tab <-
        (if output_bytes_per_task g =? 16 then
           foldM (fun tab t =>
                    let width_t := width_at_timestep g t in
                    let offset_t := offset_at_timestep g t in
                    foldM (fun tab i => write_cell tab t (i + offset_t) 16)
                          (range_excl 0 width_t) tab)
                 (range_excl 0 (timesteps g)) tab
         else
           foldM (allocate_row g) (range_excl 0 (timesteps g)) tab);
      Ok (set_output_bytes_size (Some tab) g)
  end.

(** ** Configuration: [App::App] *)

Record App : Type := mkApp {
  graphs : list TaskGraph;
  nodes : Z;
  verbose : Z;
  enable_graph_validation : bool
}.

Definition default_graph (graph_index : Z) : TaskGraph :=
  {| graph_index := graph_index;
     timesteps := 4;
     max_width := 4;
     dependence := TRIVIAL;
     radix := 3;
     period := -1;
     output_case := 0;
     fraction_connected := 1 # 4;
     kernel := mkKernel EMPTY 0 16 0 0 (mkDist UNIFORM 0 0 0 0);
     output_bytes_per_task := sizeof_pair;
     scratch_bytes_per_task := 0;
     nb_fields := 0;
     onormal_mu := 2;
     onormal_std := 2;
     ogamma_alpha := 2;
     ogamma_beta := 2;
     output_bytes_size := None |}.

Definition ktype_by_name : list (string * KernelType) :=
  [("empty", EMPTY); ("busy_wait", BUSY_WAIT); ("memory_bound", MEMORY_BOUND);
   ("compute_dgemm", COMPUTE_DGEMM); ("memory_daxpy", MEMORY_DAXPY);
   ("compute_bound", COMPUTE_BOUND); ("compute_bound2", COMPUTE_BOUND2);
   ("io_bound", IO_BOUND); ("load_imbalance", LOAD_IMBALANCE);
   ("dist_imbalance", DIST_IMBALANCE); ("compute_and_mem", COMPUTE_MEMORY)].

Definition disttype_by_name : list (string * DistType) :=
  [("uniform", UNIFORM); ("normal", NORMAL); ("gamma", GAMMA);
   ("cauchy", CAUCHY)].

Definition dtype_by_name : list (string * DependenceType) :=
  [("trivial", TRIVIAL); ("no_comm", NO_COMM); ("stencil_1d", STENCIL_1D);
   ("stencil_1d_periodic", STENCIL_1D_PERIODIC); ("dom", DOM); ("tree", TREE);
   ("fft", FFT); ("all_to_all", ALL_TO_ALL); ("nearest", NEAREST);
   ("spread", SPREAD); ("random_nearest", RANDOM_NEAREST);
   ("random_spread", RANDOM_SPREAD)].

(** [map.find(name)] *)
Fixpoint find_name {A : Type} (m : list (string * A)) (name : string)
  : option A :=
  match m with
  | [] => None
  | (k, v) :: m' => if String.eqb k name then Some v else find_name m' name
  end.

(** libc: [atol] is [strtol(s, NULL, 10)]: white space, a sign, decimal
    digits, saturating at the ends of [long]; [atoi] converts that to
    [int]. *)
Definition is_space (c : ascii) : bool :=
  let n := Z.of_nat (nat_of_ascii c) in (n =? 32) || ((9 <=? n) && (n <=? 13)).

Fixpoint skip_spaces (s : string) : string :=
  match s with
  | String c s' => if is_space c then skip_spaces s' else s
  | EmptyString => s
  end.

Fixpoint digits_value (s : string) (acc : Z) : Z :=
  match s with
  | String c s' =>
      let n := Z.of_nat (nat_of_ascii c) in
      if (48 <=? n) && (n <=? 57) then digits_value s' (10 * acc + (n - 48))
      else acc
  | EmptyString => acc
  end.

Definition saturate_long (v : Z) : Z := Z.max (- 2 ^ 63) (Z.min v (2 ^ 63 - 1)).

Definition atol (s : string) : Z :=
  match skip_spaces s with
  | String "-"%char s' => saturate_long (- digits_value s' 0)
  | String "+"%char s' => saturate_long (digits_value s' 0)
  | s' => saturate_long (digits_value s' 0)
  end.

Definition atoi (s : string) : Z := to_int (atol s).

(** libc [atof]. *)
Variable atof : string -> Q.

Record pstate : Type := mkPstate {
  p_i : Z;
  p_graph : TaskGraph;
  p_app : App
}.

Definition with_graph (f : TaskGraph -> TaskGraph) (st : pstate) : pstate :=
  mkPstate (p_i st) (f (p_graph st)) (p_app st).

Definition with_kernel (f : Kernel -> Kernel) (st : pstate) : pstate :=
  with_graph (fun g => set_kernel (f (kernel g)) g) st.

Definition with_dist (f : Dist -> Dist) (st : pstate) : pstate :=
  with_kernel (fun k => mkKernel (kernel_type k) (iterations k) (samples k)
                          (imbalance k) (fraction_mem k) (f (dist k))) st.

Definition with_app (f : App -> App) (st : pstate) : pstate :=
  mkPstate (p_i st) (p_graph st) (f (p_app st)).

Definition needs_argument (i argc : Z) (flag : string) : result unit :=
  if i + 1 >=? argc then Abort ("error: Flag requires an argument: " +:+ flag)
  else Ok tt.

Section Parse.

Variable argv : list string.

Definition argc : Z := Z.of_nat (length argv).

Definition argv_at (i : Z) : string := default EmptyString (argv !! Z.to_nat i).

(** [if (!strcmp(argv[i], flag)) { ... }] *)
Definition on_flag (flag : string) (body : pstate -> result pstate)
    (st : pstate) : result pstate :=
  if String.eqb (argv_at (p_i st)) flag then body st else Ok st.

(** [needs_argument(i, argc, flag); ... argv[++i]] *)
Definition next_argument (flag : string) (st : pstate)
  : result (string * pstate) :=
  do _ <- needs_argument (p_i st) argc flag;
  let st' := mkPstate (p_i st + 1) (p_graph st) (p_app st) in
  Ok (argv_at (p_i st'), st').

Definition invalid_flag (flag requirement : string) : string :=
  "error: Invalid flag " +:+ flag +:+ " " +:+ requirement.

(** A flag whose argument is read by [read] and rejected when [invalid]. *)
Definition value_flag {V : Type} (flag : string) (read : string -> V)
    (invalid : V -> bool) (requirement : string)
    (store : V -> pstate -> pstate) : pstate -> result pstate :=
  on_flag flag (fun st =>
    do a <- next_argument flag st;
    let value := read (fst a) in
    if invalid value then Abort (invalid_flag flag requirement)
    else Ok (store value (snd a))).

(** A flag whose argument is looked up in a table of names. *)
Definition name_flag {V : Type} (flag : string) (table : list (string * V))
    (store : V -> pstate -> pstate) : pstate -> result pstate :=
  on_flag flag (fun st =>
    do a <- next_argument flag st;
    match find_name table (fst a) with
    | None => Abort (invalid_flag flag (fst a))
    | Some type => Ok (store type (snd a))
    end).

Definition default_period (graph : TaskGraph) : TaskGraph :=
  if period graph <? 0 then
    set_period (if needs_period (dependence graph) then 3 else 0) graph
  else graph.

(** The body of the loop over [argv], one step per [if].  The values of
    [-output-mean], [-output-std], [-output-gamma-a] and [-output-gamma-b]
    are kept exactly; the code stores the [int] in a [float], which rounds
    above [2^24]. *)
Definition parse_steps : list (pstate -> result pstate) :=
  [ on_flag "-h" (fun _ => Exit 0);
    value_flag "-nodes" atol (fun v => v <=? 0) "must be > 0"
      (fun v => with_app (fun a => mkApp (graphs a) v (verbose a)
                                     (enable_graph_validation a)));
    on_flag "-v" (fun st =>
      Ok (with_app (fun a => mkApp (graphs a) (nodes a) (verbose a + 1)
                               (enable_graph_validation a)) st));
    on_flag "-vv" (fun st =>
      Ok (with_app (fun a => mkApp (graphs a) (nodes a) (verbose a + 2)
                               (enable_graph_validation a)) st));
    on_flag "-skip-graph-validation" (fun st =>
      Ok (with_app (fun a => mkApp (graphs a) (nodes a) (verbose a) false) st));
    value_flag "-steps" atol (fun v => v <=? 0) "must be > 0"
      (fun v => with_graph (set_timesteps v));
    value_flag "-width" atol (fun v => v <=? 0) "must be > 0"
      (fun v => with_graph (set_max_width v));
    name_flag "-type" dtype_by_name (fun v => with_graph (set_dependence v));
    name_flag "-dist" disttype_by_name
      (fun v => with_dist (fun d => mkDist v (dist_max d) (dist_std d)
                                      (dist_a d) (dist_b d)));
    value_flag "-radix" atol (fun v => v <? 0) "must be >= 0"
      (fun v => with_graph (set_radix v));
    value_flag "-period" atol (fun v => v <? 0) "must be >= 0"
      (fun v => with_graph (set_period v));
    value_flag "-fraction" atof
      (fun v => lt_double v 0 || lt_double 1 v) "must be >= 0 and <= 1"
      (fun v => with_graph (set_fraction_connected v));
    name_flag "-kernel" ktype_by_name
      (fun v => with_kernel (fun k => mkKernel v (iterations k) (samples k)
                                        (imbalance k) (fraction_mem k) (dist k)));
    value_flag "-iter" atol (fun v => v <? 0) "must be >= 0"
      (fun v => with_kernel (fun k => mkKernel (kernel_type k) v (samples k)
                                        (imbalance k) (fraction_mem k) (dist k)));
    (* [value < sizeof(pair)] compares as unsigned *)
    value_flag "-output" atol (fun v => to_size_t v <? sizeof_pair)
      "must be >= 16"
      (fun v => with_graph (set_output_bytes_per_task (to_size_t v)));
    value_flag "-scratch" atol (fun v => v <? 0) "must be >= 0"
      (fun v => with_graph (set_scratch_bytes_per_task (to_size_t v)));
    value_flag "-sample" atoi (fun v => v <? 0) "must be >= 0"
      (fun v => with_kernel (fun k => mkKernel (kernel_type k) (iterations k) v
                                        (imbalance k) (fraction_mem k) (dist k)));
    value_flag "-imbalance" atof
      (fun v => lt_double v 0 || lt_double 2 v) "must be >= 0 and <= 2"
      (fun v => with_kernel (fun k => mkKernel (kernel_type k) (iterations k)
                                        (samples k) v (fraction_mem k) (dist k)));
    value_flag "-mem-fraction" atof
      (fun v => lt_double v 0 || lt_double 1 v) "must be >= 0 and <= 1"
      (fun v => with_kernel (fun k => mkKernel (kernel_type k) (iterations k)
                                        (samples k) (imbalance k) v (dist k)));
    value_flag "-field" atoi (fun v => v <=? 0) "must be > 1"
      (fun v => with_graph (set_nb_fields v));
    value_flag "-output-case" atoi (fun v => v <? 0) "must be >= 0"
      (fun v => with_graph (set_output_case v));
    value_flag "-output-mean" atoi (fun v => v <? 0) "must be > 0"
      (fun v => with_graph (set_onormal_mu (inject_Z v)));
    value_flag "-output-std" atoi (fun v => v <? 0) "must be > 0"
      (fun v => with_graph (set_onormal_std (inject_Z v)));
    value_flag "-output-gamma-a" atoi (fun v => v <? 0) "must be > 0"
      (fun v => with_graph (set_ogamma_alpha (inject_Z v)));
    value_flag "-output-gamma-b" atoi (fun v => v <? 0) "must be > 0"
      (fun v => with_graph (set_ogamma_beta (inject_Z v)));
    on_flag "-and" (fun st =>
      (* Hack: set default value of period for random graph *)
      let graph := default_period (p_graph st) in
      let graphs' := graphs (p_app st) ++ [graph] in
      Ok (mkPstate (p_i st) (default_graph (Z.of_nat (length graphs')))
            (mkApp graphs' (nodes (p_app st)) (verbose (p_app st))
               (enable_graph_validation (p_app st)))));
    value_flag "-dist-max" atol (fun v => v <=? 0) "must be > 0"
      (fun v => with_dist (fun d => mkDist (dist_type d) v (dist_std d)
                                      (dist_a d) (dist_b d)));
    value_flag "-dist-std" atol (fun v => v <=? 0) "must be > 0"
      (fun v => with_dist (fun d => mkDist (dist_type d) (dist_max d) v
                                      (dist_a d) (dist_b d)));
    value_flag "-dist-beta" atof (fun v => Qle_bool v 0) "must be > 0"
      (fun v => with_dist (fun d => mkDist (dist_type d) (dist_max d)
                                      (dist_std d) (dist_a d) v));
    value_flag "-dist-alpha" atol (fun v => v <=? 0) "must be > 0"
      (fun v => with_dist (fun d => mkDist (dist_type d) (dist_max d)
                                      (dist_std d) v (dist_b d))) ].

Definition parse_argument (st : pstate) : result pstate :=
  foldM (fun st step => step st) parse_steps st.

(** [for (int i = 1; i < argc; i++) { ... }]; every turn advances [i], so
    [argc] turns of fuel are enough. *)
Fixpoint parse_loop (fuel : nat) (st : pstate) : result pstate :=
  if p_i st <? argc then
    match fuel with
    | O => Undefined "parse_loop: out of fuel"
    | S fuel' =>
        do st <- parse_argument st;
        parse_loop fuel' (mkPstate (p_i st + 1) (p_graph st) (p_app st))
    end
  else Ok st.

End Parse.

(** ** Validation: [App::check] *)

(** The tests on [period] at the head of the loop of [App::check]. *)
Definition check_period (g : TaskGraph) : result unit :=
  do _ <-
    (if needs_period (dependence g) && (period g =? 0) then
       Abort "error: Graph type requires a non-zero period (specify with -period)"
     else if negb (needs_period (dependence g)) && negb (period g =? 0) then
       Abort "error: Graph type does not support user-configurable period"
     else Ok tt);
  (* This is required to avoid wrapping around with later dependence sets. *)
  do spread <- cpp_div (max_width g + radix g - 1) (radix g);
  if bool_decide (dependence g = SPREAD) && (period g >? spread) then
    Abort "error: Graph type requires a period that is at most spread"
  else Ok tt.

Definition check_timesteps (g : TaskGraph) : result unit :=
  foldM (fun _ t =>
           let offset := offset_at_timestep g t in
           let width := width_at_timestep g t in
           do _ <- assert (offset >=? 0) "offset >= 0";
           do _ <- assert (width >=? 0) "width >= 0";
           do _ <- assert (offset + width <=? max_width g)
                     "offset + width <= g.max_width";
           do dset <- dependence_set_at_timestep g t;
           assert ((dset >=? 0) && (dset <=? max_dependence_sets g))
             "dset >= 0 && dset <= g.max_dependence_sets()")
        (range_excl 0 (timesteps g)) tt.

(** [materialized_deps] is a [std::map<long, std::set<long>>]; a key that
    is absent reads as the empty set. *)
Definition materialize_deps (g : TaskGraph) (dset : Z)
  : result (gmap Z (gset Z)) :=
  foldM (fun (m : gmap Z (gset Z)) point =>
           do deps <- dependencies_vector g dset point;
           foldM (fun m (dep : interval) =>
                    foldM (fun (m : gmap Z (gset Z)) dp =>
                             let here := default ∅ (m !! point) in
                             do _ <- assert (bool_decide (dp ∉ here))
                                       "materialized_deps[point].count(dp) == 0";
                             Ok (<[point := {[dp]} ∪ here]> m))
                          (range_incl (fst dep) (snd dep)) m)
                 deps m)
        (range_excl 0 (max_width g)) ∅.

Definition check_mirror (g : TaskGraph) (dset : Z) (m : gmap Z (gset Z))
  : result unit :=
  foldM (fun _ point =>
           do rdeps <- reverse_dependencies_vector g dset point;
           foldM (fun _ (rdep : interval) =>
                    foldM (fun _ rdp =>
                             assert (bool_decide
                                       (point ∈ default ∅ (m !! rdp)))
                               "materialized_deps[rdp].count(point) == 1")
                          (range_incl (fst rdep) (snd rdep)) tt)
                 rdeps tt)
        (range_excl 0 (max_width g)) tt.

(** The body of [for (auto g : graphs)] in [App::check]. *)
Definition check_graph (g : TaskGraph) : result unit :=
  do _ <- check_period g;
  do _ <- check_timesteps g;
  foldM (fun _ dset =>
           do m <- materialize_deps g dset;
           check_mirror g dset m)
        (range_excl 0 (max_dependence_sets g)) tt.

Definition App_check (app : App) : result unit :=
  foldM (fun _ g => check_graph g) (graphs app) tt.

(** [App::App(int argc, char **argv)] *)
Definition App_ctor (argv : list string) : result App :=
  do st <- parse_loop argv (length argv)
             (mkPstate 1 (default_graph 0) (mkApp [] 0 0 true));
  let graph := p_graph st in
  let k := kernel graph in
  do _ <-
    (if bool_decide (kernel_type k = DIST_IMBALANCE) then
       if bool_decide (dist_type (dist k) = UNIFORM)
          && (dist_max (dist k) <? iterations k) then
         Abort "error: Uniform distribution requires a maximum that is greater than the minimum given to -iter."
       else if bool_decide (dist_type (dist k) = GAMMA)
               && (dist_a (dist k) <=? 0) then
         Abort "error: Gamma distribution requires a value of a that is greater than 0."
       else if bool_decide (dist_type (dist k) = NORMAL)
               && (dist_std (dist k) <=? 0) then
         Abort "error: Normal distribution requires a standard deviation that is greater than 0."
       else if bool_decide (dist_type (dist k) = CAUCHY)
               && Qle_bool (dist_b (dist k)) 0 then
         Abort "error: Cauchy distribution requires a value of b that is greater than 0."
       else Ok tt
     else Ok tt);
  let graph := default_period graph in
  (* Dynamic array for output_bytes *)
  let graph :=
    set_output_bytes_size
      (Some (replicate (Z.to_nat (timesteps graph))
               (replicate (Z.to_nat (max_width graph)) None))) graph in
  do graph <- allocate_bytes graph;
  let graphs' := graphs (p_app st) ++ [graph] in
  (* check nb_fields, if not set by user, set it to timesteps *)
  let graphs' :=
    map (fun g => if nb_fields g =? 0 then set_nb_fields (to_int (timesteps g)) g
                  else g) graphs' in
  let app := mkApp graphs' (nodes (p_app st)) (verbose (p_app st))
               (enable_graph_validation (p_app st)) in
  do _ <- App_check app;
  Ok app.

(** ** Reporting: [App::report_timing] *)

Definition clamp (start end_ min_value max_value : Z) : Z * Z :=
  if end_ <? min_value then (min_value, min_value - 1)
  else if start >? max_value then (max_value, max_value - 1)
  else (Z.max start min_value, Z.min end_ max_value).

(** The dependency counters of one graph: [num_tasks], [num_deps],
    [local_deps], [nonlocal_deps]. *)
Record counters : Type := mkCounters {
  num_tasks : Z;
  num_deps : Z;
  local_deps : Z;
  nonlocal_deps : Z
}.

(** The totals that [report_timing] prints (the rates also need the
    elapsed time). *)
Record totals : Type := mkTotals {
  total_num_tasks : Z;
  total_num_deps : Z;
  total_local_deps : Z;
  total_nonlocal_deps : Z;
  flops : Z;
  bytes_moved : Z;
  local_transfer : Z;
  nonlocal_transfer : Z
}.

(** [select_imbalance_iterations] and [select_dist_iterations] of
    core_kernel.h: (kernel, graph_index, timestep, point) to iterations. *)
Variable select_imbalance_iterations : Kernel -> Z -> Z -> Z -> Z.
Variable select_dist_iterations : Kernel -> Z -> Z -> Z -> Z.

(** Conversion of a finite [double] to [long long]. *)
Definition truncate (x : Q) : Z := Qnum x `quot` Zpos (Qden x).

Definition count_flops_per_task (g : TaskGraph) (timestep point : Z) : Z :=
  match kernel_type (kernel g) with
  | EMPTY | BUSY_WAIT | MEMORY_BOUND => 0
  | COMPUTE_DGEMM =>
      let N := Z.sqrt (scratch_bytes_per_task g `quot` (3 * 8)) in
      2 * N * N * N * iterations (kernel g)
  | MEMORY_DAXPY => 0
  | COMPUTE_BOUND => 2 * 64 * iterations (kernel g) + 64
  | COMPUTE_BOUND2 => 2 * 32 * iterations (kernel g)
  | IO_BOUND => 0
  | LOAD_IMBALANCE =>
      let iterations :=
        select_imbalance_iterations (kernel g) (graph_index g) timestep point in
      2 * 64 * iterations + 64
  | DIST_IMBALANCE =>
      let iterations :=
        select_dist_iterations (kernel g) (graph_index g) timestep point in
      2 * 64 * iterations + 64
  | COMPUTE_MEMORY =>
      truncate (inject_Z (2 * 64 * iterations (kernel g))
                * (1 - fraction_mem (kernel g)) + 64)%Q
  end.

(** The products are exact here; the code multiplies in [size_t], which
    wraps modulo [2^64], and rounds the product of COMPUTE_MEMORY in
    [double]. *)
Definition count_bytes_per_task (g : TaskGraph) (timestep point : Z)
  : result Z :=
  match kernel_type (kernel g) with
  | EMPTY | BUSY_WAIT => Ok 0
  | MEMORY_BOUND | MEMORY_DAXPY =>
      cpp_div (scratch_bytes_per_task g * iterations (kernel g))
        (samples (kernel g))
  | COMPUTE_DGEMM | COMPUTE_BOUND | COMPUTE_BOUND2 | IO_BOUND
  | LOAD_IMBALANCE | DIST_IMBALANCE => Ok 0
  | COMPUTE_MEMORY =>
      (* a division by 0.0 leaves no finite value to convert *)
      if samples (kernel g) =? 0 then
        Undefined "conversion of a non-finite double"
      else
        Ok (truncate (inject_Z (scratch_bytes_per_task g * iterations (kernel g))
                      * fraction_mem (kernel g)
                      / inject_Z (samples (kernel g)))%Q)
  end.

Definition count_flops (g : TaskGraph) : Z :=
  fold_left (fun flops t =>
               let offset := offset_at_timestep g t in
               let width := width_at_timestep g t in
               fold_left (fun flops point =>
                            flops + count_flops_per_task g t point)
                 (range_excl offset (offset + width)) flops)
    (range_excl 0 (timesteps g)) 0.

Definition count_bytes (g : TaskGraph) : result Z :=
  foldM (fun bytes t =>
           let offset := offset_at_timestep g t in
           let width := width_at_timestep g t in
           foldM (fun bytes point =>
                    do b <- count_bytes_per_task g t point;
                    Ok (bytes + b))
             (range_excl offset (offset + width)) bytes)
    (range_excl 0 (timesteps g)) 0.

(** The body of [for (auto dep : deps)]. *)
Definition count_dep (g : TaskGraph) (nodes : Z)
    (last_offset last_width node_first node_last : Z) (c : counters)
    (dep : interval) : counters :=
  let '(dep_first, dep_last) :=
    clamp (fst dep) (snd dep) last_offset (last_offset + last_width - 1) in
  let c := mkCounters (num_tasks c) (num_deps c + (dep_last - dep_first + 1))
             (local_deps c) (nonlocal_deps c) in
  if nodes >? 0 then
    let '(initial_first, initial_last) :=
      clamp dep_first dep_last 0 (node_first - 1) in
    let '(local_first, local_last) :=
      clamp dep_first dep_last node_first node_last in
    let '(final_first, final_last) :=
      clamp dep_first dep_last (node_last + 1) (max_width g - 1) in
    mkCounters (num_tasks c) (num_deps c)
      (local_deps c + (local_last - local_first + 1))
      (nonlocal_deps c + (initial_last - initial_first + 1)
       + (final_last - final_first + 1))
  else c.

(** The body of [for (long p = offset; p < offset + width; ++p)]. *)
Definition count_point (g : TaskGraph) (nodes : Z)
    (last_offset last_width dset : Z) (c : counters) (p : Z)
  : result counters :=
  do node_range <-
    (if nodes >? 0 then
       do point_node <- cpp_div (p * nodes) (max_width g);
       Ok ((point_node * max_width g) `quot` nodes,
           ((point_node + 1) * max_width g) `quot` nodes - 1)
     else Ok (0, -1));
  do deps <- dependencies_vector g dset p;
  Ok (fold_left (count_dep g nodes last_offset last_width
                   (fst node_range) (snd node_range)) deps c).

(** The body of [for (long t = 0; t < g.timesteps; ++t)]. *)
Definition count_timestep (g : TaskGraph) (nodes : Z) (c : counters) (t : Z)
  : result counters :=
  let offset := offset_at_timestep g t in
  let width := width_at_timestep g t in
  let last_offset := offset_at_timestep g (t - 1) in
  let last_width := width_at_timestep g (t - 1) in
  do dset <- dependence_set_at_timestep g t;
  let c := mkCounters (num_tasks c + width) (num_deps c) (local_deps c)
             (nonlocal_deps c) in
  foldM (count_point g nodes last_offset last_width dset)
        (range_excl offset (offset + width)) c.

(** The body of [for (auto g : graphs)] in [report_timing]. *)
Definition report_graph (nodes : Z) (tot : totals) (g : TaskGraph)
  : result totals :=
  do c <- foldM (count_timestep g nodes) (range_excl 0 (timesteps g))
            (mkCounters 0 0 0 0);
  do b <- count_bytes g;
  Ok (mkTotals (total_num_tasks tot + num_tasks c)
        (total_num_deps tot + num_deps c)
        (total_local_deps tot + local_deps c)
        (total_nonlocal_deps tot + nonlocal_deps c)
        (flops tot + count_flops g)
        (bytes_moved tot + b)
        (local_transfer tot + local_deps c * output_bytes_per_task g)
        (nonlocal_transfer tot + nonlocal_deps c * output_bytes_per_task g)).

Definition report_timing (app : App) : result totals :=
  foldM (report_graph (nodes app)) (graphs app) (mkTotals 0 0 0 0 0 0 0 0).

End Model.

(** ** The OmpSs driver (src/ompss/main.cc) *)

(** The driver walks the rows of a graph and inserts one task per point;
    the task calls [execute_point] on tiles of a matrix of [nb_fields] rows
    and [max_width] columns.  Points and timesteps are taken to fit the
    [int]s that the driver stores them in. *)

(** [g.output_bytes_size[t][x]] *)
Definition table_cell (g : TaskGraph) (t x : Z) : result Z :=
  match output_bytes_size g with
  | None => Undefined "output_bytes_size was never allocated"
  | Some tab => read_cell tab t x
  end.

(** [payload.output_bytes_size[index] = v] on the array that
    [new size_t [10]] returned. *)
Definition payload_store (sizes : list (option Z)) (index v : Z)
  : result (list (option Z)) :=
  if (index <? 0) || (Z.of_nat (length sizes) <=? index) then
    Undefined "write outside payload.output_bytes_size"
  else Ok (<[Z.to_nat index := Some v]> sizes).

(** What [execute_timestep] builds for one point: the tiles [args] as
    pairs [(x, y)], [payload.output_bytes_size], [output_index] and
    [num_args]. *)
Record task_list : Type := mkTaskList {
  tl_args : list (Z * Z);
  tl_sizes : list (option Z);
  tl_output_index : Z;
  tl_num_args : Z
}.

(** [args.push_back(task_args);
     payload.output_bytes_size[output_index++] = g.output_bytes_size[row][x];]
    with [task_args = (tx, ty)]. *)
Definition push_arg (g : TaskGraph) (row x tx ty : Z) (st : task_list)
  : result task_list :=
  do v <- table_cell g row x;
  do sizes <- payload_store (tl_sizes st) (tl_output_index st) v;
  Ok (mkTaskList (tl_args st ++ [(tx, ty)]) sizes (tl_output_index st + 1)
        (tl_num_args st)).

Definition add_num_args (n : Z) (st : task_list) : task_list :=
  mkTaskList (tl_args st) (tl_sizes st) (tl_output_index st)
    (tl_num_args st + n).

(** [mat[y * N + x].output_buff], seen as the records it holds. *)
Definition tile_at (mat : list (list (Z * Z))) (N y x : Z)
  : result (list (Z * Z)) :=
  let k := y * N + x in
  if k <? 0 then Undefined "tile outside the matrix"
  else
    match mat !! Z.to_nat k with
    | Some tile => Ok tile
    | None => Undefined "tile outside the matrix"
    end.

(** [f] on every element, stopping at the first error. *)
Fixpoint map_result {A B : Type} (f : A -> result B) (xs : list A)
  : result (list B) :=
  match xs with
  | [] => Ok []
  | x :: xs' => do y <- f x; do ys <- map_result f xs'; Ok (y :: ys)
  end.

Section Tiles.

(** The records behind a pointer that [malloc] returns for a size. *)
Variable malloc : Z -> list (Z * Z).

(** [matrix[i].data[N*t+w].output_buff = malloc(graph.output_bytes_size[t][w])]
    in the constructor [OmpSsApp::OmpSsApp]. *)
Definition allocate_tile (g : TaskGraph) (t : Z) (data : list (list (Z * Z)))
    (w : Z) : result (list (list (Z * Z))) :=
  do size <- table_cell g t w;
  let k := max_width g * t + w in
  if (k <? 0) || (Z.of_nat (length data) <=? k) then
    Undefined "write outside matrix.data"
  else Ok (<[Z.to_nat k := malloc size]> data).

(** The loops of the constructor that allocate the tiles of one graph:
    [matrix[i].data] starts as [M * N] tiles without a buffer. *)
Definition allocate_tiles (g : TaskGraph) : result (list (list (Z * Z))) :=
  let M := nb_fields g in
  let N := max_width g in
  foldM (fun data t => foldM (allocate_tile g t) (range_excl 0 N) data)
        (range_excl 0 M) (replicate (Z.to_nat (M * N)) []).

End Tiles.

Section Drivers.

Variable random_uniform : list Z -> Q.

(** The body of [for (int x = offset; x <= offset+width-1; x++)] in
    [OmpSsApp::execute_timestep], up to the call of [insert_task]. *)
Definition task_arguments (g : TaskGraph) (t dset x : Z) : result task_list :=
  let fresh := mkTaskList [] (replicate 10 None) 1 1 in
  do deps <- dependencies_vector random_uniform g dset x;
  if Z.of_nat (length deps) =? 0 then
    do y <- cpp_mod t (nb_fields g);
    push_arg g y x x y fresh
  else if t =? 0 then
    do y <- cpp_mod t (nb_fields g);
    push_arg g y x x y fresh
  else
    do y <- cpp_mod t (nb_fields g);
    do st <- push_arg g t x x y fresh;
    let last_offset := offset_at_timestep g (t - 1) in
    let last_width := width_at_timestep g (t - 1) in
    foldM (fun st (dep : interval) =>
             foldM (fun st i =>
                      if (i >=? last_offset) && (i <? last_offset + last_width)
                      then
                        do y1 <- cpp_mod (t - 1) (nb_fields g);
                        push_arg g t x i y1 st
                      else Ok (add_num_args (-1) st))
                   (range_incl (fst dep) (snd dep))
                   (add_num_args (snd dep - fst dep + 1) st))
          deps st.

(** [OmpSsApp::insert_task]: the [switch] on [args.size()]; the result is
    the number [n] of the function [task<n>] that is called. *)
Definition insert_task (args : list (Z * Z)) : result Z :=
  let num_args := Z.of_nat (length args) in
  match args with
  | [] => Undefined "read of args[0]"
  | _ :: _ =>
      if (1 <=? num_args) && (num_args <=? 10) then Ok num_args
      else AssertFail "unexpected num_args"
  end.

(** The tasks of the driver report corrupted inputs as [execute_point]
    does. *)
Notation "'ldo' x <- m ; k" := (lbind m (fun x => k))
  (at level 10, x name, m at level 100, k at level 200).

(** What [insert_task] passes on for [args[k]]: the tile and
    [payload.graph.output_bytes_size[yk][xk]]. *)
Definition arg_buffer (g : TaskGraph) (mat : list (list (Z * Z)))
    (a : Z * Z) : result buffer :=
  let '(xk, yk) := a in
  do task_bytes <- table_cell g yk xk;
  do tile <- tile_at mat (max_width g) yk xk;
  Ok (mkBuffer task_bytes tile).

(** [insert_task] and the function [task<n>] that it calls, run at once:
    the inputs of [execute_point] are the tiles behind the first, and for
    [task1] the output tile itself; [scratch_ptr] is
    [extra_local_memory[tid]].  The result is the matrix after the task. *)
Definition run_task (g : TaskGraph) (scratch_ptr : option (list Z))
    (mat : list (list (Z * Z))) (payload_x payload_y : Z)
    (args : list (Z * Z)) : logged (list (list (Z * Z))) :=
  ldo _ <- lift (insert_task args);
  ldo tiles <- lift (map_result (arg_buffer g mat) args);
  match args, tiles with
  | (x0, y0) :: _, tile_out :: tiles_in =>
      let inputs := match tiles_in with [] => [tile_out] | _ => tiles_in end in
      ldo out <- execute_point random_uniform g payload_y payload_x tile_out
                   (bytes tile_out) inputs scratch_ptr
                   (scratch_bytes_per_task g);
      lret (<[Z.to_nat (y0 * max_width g + x0) := slots out]> mat)
  | _, _ => lift (Undefined "read of args[0]")
  end.

(** [OmpSsApp::execute_timestep], its tasks run in the order of their
    insertion: the [depend] clauses of a task name every tile it reads or
    writes. *)
Definition execute_timestep (g : TaskGraph) (scratch_ptr : option (list Z))
    (mat : list (list (Z * Z))) (t : Z) : logged (list (list (Z * Z))) :=
  let offset := offset_at_timestep g t in
  let width := width_at_timestep g t in
  ldo dset <- lift (dependence_set_at_timestep g t);
  lfold (fun mat x =>
           ldo tl <- lift (task_arguments g t dset x);
           run_task g scratch_ptr mat x t (tl_args tl))
        (range_incl offset (offset + width - 1)) mat.

(** The loop over [y] in [OmpSsApp::execute_main_loop] for one graph. *)
Definition execute_graph (g : TaskGraph) (scratch_ptr : option (list Z))
    (mat : list (list (Z * Z))) : logged (list (list (Z * Z))) :=
  lfold (execute_timestep g scratch_ptr) (range_excl 0 (timesteps g)) mat.

(** ** The PaRSEC driver (src/parsec/main_buffer.cc) *)

Section Parsec.

(** [mat.__dcC->super.super.rank_of(&mat.__dcC->super.super, row, col)]:
    the rank that holds a tile, as the data distribution of the PaRSEC
    library gives it. *)
Variable rank_of : Z -> Z -> Z.

(** The loops of the block compiled in by [ENABLE_PRUNE_MPI_TASK_INSERT]
    that look for a tile of this rank among the points of a list of
    intervals, in the row of timestep [row]. *)
Definition owned_among (nb_fields rank row : Z) (spans : list interval)
    (has_task : bool) : result bool :=
  foldM (fun has_task (span : interval) =>
           foldM (fun has_task i =>
                    do y <- cpp_mod row nb_fields;
                    Ok (if rank =? rank_of y i then true else has_task))
                 (range_incl (fst span) (snd span)) has_task)
        spans has_task.

(** The block compiled in by [ENABLE_PRUNE_MPI_TASK_INSERT], up to the
    test of [has_task]: a rank keeps a task whose tile it holds, or one
    with a tile of this rank among its reverse dependencies in the next
    row or among its dependencies in the previous row.  The [task_id] that
    the block stores in the task pool is not modelled. *)
Definition parsec_has_task (g : TaskGraph) (nb_fields rank t x : Z)
    (deps : list interval) : result bool :=
  do y <- cpp_mod t nb_fields;
  let has_task := rank =? rank_of y x in
  do has_task <-
    (if (t <? timesteps g - 1) && negb has_task then
       do dset_r <- dependence_set_at_timestep g (t + 1);
       do rdeps <- reverse_dependencies_vector random_uniform g dset_r x;
       owned_among nb_fields rank (t + 1) rdeps has_task
     else Ok has_task);
  if negb (Z.of_nat (length deps) =? 0) && negb (t =? 0) && negb has_task
  then owned_among nb_fields rank (t - 1) deps has_task
  else Ok has_task.

(** The body of the loop over [x] in [ParsecApp::execute_timestep] behind
    the block that skips the tasks of other ranks, up to the call of
    [insert_task]; [nb_fields] is the member of [ParsecApp], and a tile
    [TILE_OF_MAT(C, y, x)] is the pair [(x, y)]. *)
Definition parsec_build_arguments (g : TaskGraph) (nb_fields t x : Z)
    (deps : list interval) : result task_list :=
  let fresh := mkTaskList [] (replicate 10 None) 0 1 in
  if Z.of_nat (length deps) =? 0 then
    do y <- cpp_mod t nb_fields;
    push_arg g y x x y fresh
  else if t =? 0 then
    do y <- cpp_mod t nb_fields;
    push_arg g y x x y fresh
  else
    do y <- cpp_mod t nb_fields;
    do st <- push_arg g y x x y fresh;
    let last_offset := offset_at_timestep g (t - 1) in
    let last_width := width_at_timestep g (t - 1) in
    foldM (fun st (dep : interval) =>
             foldM (fun st i =>
                      if (i >=? last_offset) && (i <? last_offset + last_width)
                      then
                        do y1 <- cpp_mod (t - 1) nb_fields;
                        push_arg g y x i y1 st
                      else Ok (add_num_args (-1) st))
                   (range_incl (fst dep) (snd dep))
                   (add_num_args (snd dep - fst dep + 1) st))
          deps st.

(** The body of the loop over [x] in [ParsecApp::execute_timestep], up to
    the call of [insert_task]: [None] when the task is skipped by
    [continue], before any tile is pushed. *)
Definition parsec_task_arguments (g : TaskGraph) (nb_fields rank t dset x : Z)
  : result (option task_list) :=
  do deps <- dependencies_vector random_uniform g dset x;
  do has_task <- parsec_has_task g nb_fields rank t x deps;
  if negb has_task then Ok None
  else
    do st <- parsec_build_arguments g nb_fields t x deps;
    Ok (Some st).

(** [ParsecApp::insert_task]: the [switch] on [num_args], whose case [n]
    reads [args[0]], ..., [args[n-1]]. *)
Definition parsec_insert_task (num_args : Z) (args : list (Z * Z))
  : result Z :=
  if (1 <=? num_args) && (num_args <=? 10) then
    if num_args <=? Z.of_nat (length args) then Ok num_args
    else Undefined "read outside args"
  else AssertFail "unexpected num_args".

End Parsec.

End Drivers.

(** ** The MPI driver (src/mpi/bulk_synchronous.cc) *)

(** [rank * graph.max_width / n_ranks] and
    [(rank + 1) * graph.max_width / n_ranks - 1]. *)
Definition first_point (rank max_width n_ranks : Z) : result Z :=
  cpp_div (rank * max_width) n_ranks.

Definition last_point (rank max_width n_ranks : Z) : result Z :=
  do q <- cpp_div ((rank + 1) * max_width) n_ranks;
  Ok (q - 1).

(** The body of the loop over [p] that fills [rank_by_point] and
    [tag_bits_by_point], two vectors of [max_width] [int]s. *)
Definition assign_point (r r_first_point : Z) (tables : list Z * list Z)
    (p : Z) : result (list Z * list Z) :=
  let '(rank_by_point, tag_bits_by_point) := tables in
  if (p <? 0) || (Z.of_nat (length rank_by_point) <=? p) then
    Undefined "write outside rank_by_point"
  else
    let tag := to_int (p - r_first_point) in
    (* Has to fit in 7 bits *)
    do _ <- assert (Z.land tag (Z.lnot 127) =? 0)
              "(tag_bits_by_point[p] & ~0x7F) == 0";
    Ok (<[Z.to_nat p := r]> rank_by_point,
        <[Z.to_nat p := tag]> tag_bits_by_point).

Definition assign_ranks (max_width n_ranks : Z) : result (list Z * list Z) :=
  foldM (fun tables r =>
           do r_first_point <- first_point r max_width n_ranks;
           do r_last_point <- last_point r max_width n_ranks;
           foldM (assign_point r r_first_point)
                 (range_incl r_first_point r_last_point) tables)
        (range_excl 0 n_ranks)
        (replicate (Z.to_nat max_width) 0, replicate (Z.to_nat max_width) 0).

Section Mpi.

Variable random_uniform : list Z -> Q.

(** The loops that compute [max_deps] for the points of a rank. *)
Definition max_deps (g : TaskGraph) (first_point last_point : Z) : result Z :=
  foldM (fun max_deps dset =>
           foldM (fun max_deps point =>
                    do intervals <- dependencies_vector random_uniform g dset
                                      point;
                    let deps :=
                      fold_left (fun deps (iv : interval) =>
                                   deps + (snd iv - fst iv + 1)) intervals 0 in
                    Ok (Z.max max_deps deps))
                 (range_incl first_point last_point) max_deps)
        (range_excl 0 (max_dependence_sets g)) 0.

(** The block "Receive" for one point: the result is [point_n_inputs];
    [point_inputs] has [max_deps] entries. *)
Definition receive_inputs (g : TaskGraph) (max_deps timestep point : Z)
    (point_deps : list interval) : result Z :=
  let offset := offset_at_timestep g timestep in
  let width := width_at_timestep g timestep in
  let last_offset := offset_at_timestep g (timestep - 1) in
  let last_width := width_at_timestep g (timestep - 1) in
  if (point >=? offset) && (point <? offset + width) then
    foldM (fun point_n_inputs (iv : interval) =>
             foldM (fun point_n_inputs dep =>
                      if (dep <? last_offset)
                         || (dep >=? last_offset + last_width)
                      then Ok point_n_inputs
                      else if (point_n_inputs <? 0)
                              || (max_deps <=? point_n_inputs)
                      then Undefined "index outside point_inputs"
                      else Ok (point_n_inputs + 1))
                   (range_incl (fst iv) (snd iv)) point_n_inputs)
          point_deps 0
  else Ok 0.

End Mpi.

(** ** Notions used by the statements *)

(** [q] lies in one of the inclusive intervals of [l]. *)
Definition covered (l : list interval) (q : Z) : Prop :=
  Exists (fun iv : interval => fst iv <= q <= snd iv) l.

(** A configuration as the parser leaves it and the period tests of
    [App::check] accept it. *)
Definition valid_config (g : TaskGraph) : Prop :=
  1 <= timesteps g /\ 1 <= max_width g /\ 0 <= radix g
  /\ check_period g = Ok tt.

(** A graph that [App::check] lets through; [radix] is a [long]. *)
Definition valid_graph (random_uniform : list Z -> Q) (g : TaskGraph) : Prop :=
  1 <= timesteps g /\ 1 <= max_width g /\ 0 <= radix g < 2 ^ 63
  /\ check_graph random_uniform g = Ok tt.

(** The buffer holds at least one record and each of its records is
    [(t, p)]: what [execute_point] at [(t, p)] leaves in its output. *)
Definition payload_ok (t p : Z) (b : buffer) : bool :=
  (sizeof_pair <=? bytes b)
  && forallb (fun i => bool_decide (slots b !! Z.to_nat i = Some (t, p)))
       (range_excl 0 (bytes b `quot` sizeof_pair)).

(** The dependencies of [point] under the dependence set of [timestep]
    that lie in the previous row, in the order in which [execute_point]
    meets them. *)
Definition required_inputs (random_uniform : list Z -> Q) (g : TaskGraph)
    (timestep point : Z) : result (list Z) :=
  let last_offset := offset_at_timestep g (timestep - 1) in
  let last_width := width_at_timestep g (timestep - 1) in
  do dset <- dependence_set_at_timestep g timestep;
  do deps <- dependencies random_uniform g dset point;
  Ok (filter (fun dep => last_offset <= dep < last_offset + last_width)
        (flat_map (fun span : interval => range_incl (fst span) (snd span))
           deps)).

(** Every required dependency [d] of [(timestep, point)] has its input
    buffer, filled with the records [(timestep - 1, d)]. *)
Definition inputs_ready (random_uniform : list Z -> Q) (g : TaskGraph)
    (timestep point : Z) (inputs : list buffer) : bool :=
  match required_inputs random_uniform g timestep point with
  | Ok ds =>
      (length ds <=? length inputs)%nat
      && forallb (fun db : Z * buffer => payload_ok (timestep - 1) (fst db) (snd db))
           (zip ds inputs)
  | _ => false
  end.

(** The kernels whose byte count divides by [samples]. *)
Definition divides_by_samples (k : KernelType) : bool :=
  match k with
  | MEMORY_BOUND | MEMORY_DAXPY | COMPUTE_MEMORY => true
  | _ => false
  end.

(** A graph whose tasks, dependencies, FLOPs and bytes can be counted: it
    passes [App::check], and [samples] is not zero where the count divides
    by it. *)
Definition countable (random_uniform : list Z -> Q) (g : TaskGraph) : Prop :=
  valid_graph random_uniform g
  /\ (divides_by_samples (kernel_type (kernel g)) = true ->
      samples (kernel g) <> 0).

(** Sum of a list of integers. *)
Definition sumZ (l : list Z) : Z := foldr Z.add 0 l.

(** The number of points of the interval [iv] that lie in [[lo, hi]]. *)
Definition points_within (lo hi : Z) (iv : interval) : Z :=
  Z.of_nat (length (filter (fun d => lo <= d <= hi)
                      (range_incl (fst iv) (snd iv)))).

(** The dependence set of a timestep and the dependency intervals of a
    point, where the queries return. *)
Definition dset_of (g : TaskGraph) (t : Z) : Z :=
  match dependence_set_at_timestep g t with Ok dset => dset | _ => 0 end.

Definition deps_of (random_uniform : list Z -> Q) (g : TaskGraph)
    (dset p : Z) : list interval :=
  match dependencies random_uniform g dset p with Ok l => l | _ => [] end.

(** The totals as the specification words them: the tasks are the widths
    of all rows of all graphs ... *)
Definition spec_total_tasks (app : App) : Z :=
  sumZ (map (fun g =>
               sumZ (map (width_at_timestep g) (range_excl 0 (timesteps g))))
          (graphs app)).

(** ... and the dependencies of a point [p] of row [t] are the points of
    its intervals that lie in the previous row, counted per interval. *)
Definition spec_point_deps (random_uniform : list Z -> Q) (g : TaskGraph)
    (t p : Z) : Z :=
  let last_offset := offset_at_timestep g (t - 1) in
  let last_width := width_at_timestep g (t - 1) in
  sumZ (map (points_within last_offset (last_offset + last_width - 1))
          (deps_of random_uniform g (dset_of g t) p)).

Definition spec_row_deps (random_uniform : list Z -> Q) (g : TaskGraph)
    (t : Z) : Z :=
  sumZ (map (spec_point_deps random_uniform g t)
          (range_excl (offset_at_timestep g t)
             (offset_at_timestep g t + width_at_timestep g t))).

Definition spec_total_deps (random_uniform : list Z -> Q) (app : App) : Z :=
  sumZ (map (fun g =>
               sumZ (map (spec_row_deps random_uniform g)
                       (range_excl 0 (timesteps g))))
          (graphs app)).

(** The graph configured by
    [-steps T -width W -type d -radix R -period P]. *)
Definition configured (d : DependenceType) (T W R P : Z) : TaskGraph :=
  set_period P (set_radix R (set_dependence d
    (set_max_width W (set_timesteps T (default_graph 0))))).

(** A fixed hash into [0, 1), used to run the model on concrete inputs. *)
Definition sample_uniform (key : list Z) : Q :=
  (foldr (fun k acc => (31 * acc + k) `mod` 1009) 7 key) # 1009.

(** The SPREAD dependencies with the quotient [W / R] taken before the
    multiplication by [i]. *)
Definition spread_floor_first (W R dset p : Z) : list interval :=
  map (fun i =>
         let d := (p + i * (W `div` R) + (if 0 <? i then dset else 0))
                  `mod` W in (d, d))
      (seqZ 0 R).

(** The SPREAD dependencies with the quotient taken of the product
    [i * W]. *)
Definition spread_product_first (W R dset p : Z) : list interval :=
  map (fun i =>
         let d := (p + (i * W) `div` R + (if 0 <? i then dset else 0))
                  `mod` W in (d, d))
      (seqZ 0 R).

(** The loop invariant when the candidates [first .. i-1] have been seen:
    the intervals written and the open run cover exactly the included
    candidates, every interval is non-empty, and there are no more
    intervals than candidates. *)
Definition rn_inv (include : Z -> bool) (first i : Z)
    (st : list interval * Z) : Prop :=
  (forall q, covered (fst st) q \/ (0 <= snd st /\ snd st <= q < i)
             <-> first <= q < i /\ include q = true)
  /\ (snd st < 0 \/ first <= snd st < i)
  /\ Forall (fun iv : interval => fst iv <= snd iv) (fst st)
  /\ Z.of_nat (length (fst st)) + (if snd st >=? 0 then 1 else 0) <= i - first.

(** A step of the loop body never moves [i] backwards and never leaves
    the model. *)
Definition advances (step : pstate -> result pstate) : Prop :=
  forall st, match step st with
             | Ok st' => p_i st <= p_i st'
             | Undefined _ => False
             | _ => True
             end.

(** Every cell of the table is unwritten or holds [v]. *)
Definition uniform_table (v : Z) (tab : list (list (option Z))) : Prop :=
  Forall (Forall (fun c => c = None \/ c = Some v)) tab.

(** Iteration counts used to run [report_timing] on concrete inputs. *)
Definition sample_iterations (k : Kernel) (graph_index timestep point : Z)
  : Z := iterations k.

(** ** Notions used by the further properties *)

(** The interval is non-empty and lies in the graph of width [W]. *)
Definition inside_graph (W : Z) (iv : interval) : Prop :=
  0 <= fst iv /\ fst iv <= snd iv /\ snd iv <= W - 1.

(** The intervals are in increasing order and no two of them touch: at
    least one point lies strictly between an interval and the next. *)
Definition separated (l : list interval) : Prop :=
  forall (i j : nat) (a b : interval),
    (i < j)%nat -> l !! i = Some a -> l !! j = Some b -> snd a + 1 < fst b.

(** The loop invariant for [separated]: the intervals written end at least
    two points before the open run, or before the next candidate [i]. *)
Definition rn_gap (i : Z) (st : list interval * Z) : Prop :=
  separated (fst st)
  /\ Forall (fun iv : interval =>
               snd iv + 1 < (if snd st >=? 0 then snd st else i)) (fst st)
  /\ snd st < i.

(** The kernels whose asserts ask for a scratch buffer. *)
Definition needs_scratch (k : KernelType) : bool :=
  match k with
  | MEMORY_BOUND | COMPUTE_DGEMM | MEMORY_DAXPY | COMPUTE_MEMORY => true
  | _ => false
  end.

(** The table has [T] rows of [W] cells. *)
Definition table_dims (T W : Z) (tab : list (list (option Z))) : Prop :=
  Z.of_nat (length tab) = T
  /\ Forall (fun row => Z.of_nat (length row) = W) tab.

(** Point [i] lies in the row of timestep [t]. *)
Definition in_row (g : TaskGraph) (t i : Z) : bool :=
  (offset_at_timestep g t <=? i)
  && (i <? offset_at_timestep g t + width_at_timestep g t).

(** Every dependency counted is counted as local or as non-local. *)
Definition deps_split (c : counters) : Prop :=
  local_deps c + nonlocal_deps c = num_deps c.

(** The kernels whose FLOPs per task depend on the task. *)
Definition imbalanced (k : KernelType) : bool :=
  match k with
  | LOAD_IMBALANCE | DIST_IMBALANCE => true
  | _ => false
  end.

(** A step of the loop body leads from [P] to [Q]. *)
Definition leads (P Q : pstate -> Prop) (step : pstate -> result pstate)
  : Prop :=
  forall st st', P st -> step st = Ok st' -> Q st'.

(** Every graph carries its position in the list as [graph_index]. *)
Definition numbered (gs : list TaskGraph) : Prop :=
  forall (k : nat) (g : TaskGraph),
    gs !! k = Some g -> graph_index g = Z.of_nat k.

(** The sizes that the flags [-steps], [-width] and [-radix] let through. *)
Definition in_range (g : TaskGraph) : Prop :=
  1 <= timesteps g /\ 1 <= max_width g /\ 0 <= radix g < 2 ^ 63.

(** The invariant of the argument loop. *)
Definition parsed_ok (st : pstate) : Prop :=
  graph_index (p_graph st) = Z.of_nat (length (graphs (p_app st)))
  /\ numbered (graphs (p_app st))
  /\ in_range (p_graph st)
  /\ Forall in_range (graphs (p_app st)).

(** The number of arguments [argv[1]], ..., [argv[n-1]] that are [-and]. *)
Definition ands_before (argv : list string) (n : Z) : Z :=
  Z.of_nat (length (filter (fun s => s = "-and")
                      (take (Z.to_nat n - 1) (drop 1 argv)))).

(** The graphs closed so far are as many as the [-and] before the
    argument at hand ... *)
Definition ands_closed (argv : list string) (st : pstate) : Prop :=
  1 <= p_i st
  /\ Z.of_nat (length (graphs (p_app st))) = ands_before argv (p_i st).

(** ... or up to and including it, once the test for [-and] is passed. *)
Definition ands_closed_here (argv : list string) (st : pstate) : Prop :=
  1 <= p_i st
  /\ Z.of_nat (length (graphs (p_app st))) = ands_before argv (p_i st + 1).

(** The flags that take an argument, in the order of their tests. *)
Definition valued_flags : list string :=
  ["-nodes"; "-steps"; "-width"; "-type"; "-dist"; "-radix"; "-period";
   "-fraction"; "-kernel"; "-iter"; "-output"; "-scratch"; "-sample";
   "-imbalance"; "-mem-fraction"; "-field"; "-output-case"; "-output-mean";
   "-output-std"; "-output-gamma-a"; "-output-gamma-b"; "-dist-max";
   "-dist-std"; "-dist-beta"; "-dist-alpha"].

(** From state [st] the steps are passed over without effect until one of
    them aborts with [msg]. *)
Fixpoint aborts_at (st : pstate) (msg : string)
    (steps : list (pstate -> result pstate)) : Prop :=
  match steps with
  | [] => False
  | step :: steps' =>
      step st = Abort msg \/ (step st = Ok st /\ aborts_at st msg steps')
  end.

(** The tiles that a task of point [x] at timestep [t] works on: its own,
    then those of the required inputs. *)
Definition task_tiles (nbf t x : Z) (ds : list Z) : list (Z * Z) :=
  (x, t `rem` nbf) :: map (fun d => (d, (t - 1) `rem` nbf)) ds.

(** The points of a list of intervals, as [max_deps] counts them. *)
Definition interval_points (deps : list interval) : Z :=
  fold_left (fun deps (iv : interval) => deps + (snd iv - fst iv + 1)) deps 0.

(** The first point of rank [r]: [floor(r * W / n)]. *)
Definition rank_start (W n r : Z) : Z := (r * W) `quot` n.

(** The points of the row of timestep [t]. *)
Definition row_points (g : TaskGraph) (t : Z) : list Z :=
  range_incl (offset_at_timestep g t)
    (offset_at_timestep g t + width_at_timestep g t - 1).

(** The tile of point [x] at timestep [t] is there, its size can be read
    and is at least one record, and the tile holds that many bytes; the size
    at [[t][x]], which [execute_timestep] copies, can be read as well. *)
Definition tile_fits (g : TaskGraph) (mat : list (list (Z * Z))) (t x : Z)
  : bool :=
  is_ok (table_cell g t x)
  && match table_cell g (t `rem` nb_fields g) x,
           tile_at mat (max_width g) (t `rem` nb_fields g) x with
     | Ok c, Ok tile =>
         (sizeof_pair <=? c)
         && (c `quot` sizeof_pair <=? Z.of_nat (length tile))
     | _, _ => false
     end.

Definition tiles_fit (g : TaskGraph) (mat : list (list (Z * Z))) : bool :=
  forallb (fun t => forallb (tile_fits g mat t) (row_points g t))
    (range_excl 0 (timesteps g)).

(** No point of the graph has more than [limit] required inputs. *)
Definition few_inputs (random_uniform : list Z -> Q) (g : TaskGraph)
    (limit : Z) : bool :=
  forallb (fun t =>
             forallb (fun x =>
                        match required_inputs random_uniform g t x with
                        | Ok ds => Z.of_nat (length ds) <=? limit
                        | _ => false
                        end) (row_points g t))
    (range_excl 0 (timesteps g)).

(** The tile of point [x] at timestep [t] holds the records [(t, x)]. *)
Definition tile_done (g : TaskGraph) (mat : list (list (Z * Z))) (t x : Z)
  : Prop :=
  exists c tile,
    table_cell g (t `rem` nb_fields g) x = Ok c
    /\ tile_at mat (max_width g) (t `rem` nb_fields g) x = Ok tile
    /\ payload_ok t x (mkBuffer c tile) = true.

(** Every row that the matrix has a row of tiles for spans the whole
    width. *)
Definition full_rows (g : TaskGraph) : bool :=
  forallb (fun t => forallb (in_row g t) (range_excl 0 (max_width g)))
    (range_excl 0 (nb_fields g)).

(** The matrix when its first [k] tiles have their buffer. *)
Definition tiles_filled (size k : Z) (tile : list (Z * Z))
  : list (list (Z * Z)) :=
  replicate (Z.to_nat k) tile ++ replicate (Z.to_nat (size - k)) [].

(** Graphs used to run the model on concrete inputs: a DOM graph with the
    table that the constructor allocates, and a graph whose kernel was
    given [-sample 0]. *)
Definition fresh_dom_graph : TaskGraph :=
  set_output_bytes_size (Some (replicate 4 (replicate 4 None)))
    (configured DOM 4 4 3 0).

Definition unsampled_graph : TaskGraph :=
  set_kernel (mkKernel MEMORY_BOUND 1 0 0 0 (mkDist UNIFORM 0 0 0 0))
    (configured STENCIL_1D 4 4 3 0).

(** A stencil graph with its table of sizes and a matrix of 4 rows. *)
Definition sized_graph : TaskGraph :=
  set_nb_fields 4
    (set_output_bytes_size (Some (replicate 4 (replicate 4 (Some 16))))
       (configured STENCIL_1D 4 4 3 0)).

(** ** Offsets and widths *)

Section Properties.

Variable random_uniform : list Z -> Q.

Lemma shiftl_1_pow (n : Z) : 0 <= n -> Z.shiftl 1 n = 2 ^ n.
Proof. intros Hn. rewrite Z.shiftl_mul_pow2 by done. lia. Qed.

Lemma tree_row (g : TaskGraph) (t : Z) :
  dependence g = TREE -> 0 <= t ->
  offset_at_timestep g t = 0
  /\ width_at_timestep g t = Z.min (max_width g) (2 ^ Z.min t 62).
Proof.
  intros Hd Ht.
  unfold offset_at_timestep, width_at_timestep. rewrite Hd.
  destruct (t <? 0) eqn:E; [lia|].
  rewrite shiftl_1_pow by lia. done.
Qed.

(** C3 (as the code has it): a TREE graph starts at offset 0 at every
    timestep, and its width doubles from 1 until it reaches [max_width]:
    [width(t) = min(max_width, 2^min(t, 62))]. *)
Theorem tree_offset_width (g : TaskGraph) (t : Z) :
  dependence g = TREE -> 0 <= t < timesteps g ->
  offset_at_timestep g t = 0
  /\ width_at_timestep g t = Z.min (max_width g) (2 ^ Z.min t 62).
Proof. intros Hd [Ht _]. by apply tree_row. Qed.

(** A TREE row is as wide as the graph exactly when [2^min(t, 62)] has
    reached [max_width]. *)
Lemma tree_full_width (g : TaskGraph) (t : Z) :
  dependence g = TREE -> 0 <= t < timesteps g ->
  width_at_timestep g t = max_width g <-> max_width g <= 2 ^ Z.min t 62.
Proof.
  intros Hd [Ht _]. destruct (tree_row g t Hd Ht) as [_ ->]. lia.
Qed.

(** C3 (as the specification has it) fails: the first row of a TREE graph
    of width 8 has width 1. *)
Lemma tree_width_counterexample :
  ~ (forall (g : TaskGraph) (t : Z),
       dependence g = TREE -> 0 <= t < timesteps g ->
       offset_at_timestep g t = 0 /\ width_at_timestep g t = max_width g).
Proof.
  intros H.
  destruct (H (configured TREE 5 8 3 0) 0) as [_ Hw]; [done | done |].
  vm_compute in Hw. discriminate.
Qed.

(** C4 (as the code has it): with 4 timesteps and width 6 the last row of a
    DOM graph is the single point 5. *)
Theorem dom_scenario :
  offset_at_timestep (configured DOM 4 6 3 0) 3 = 5
  /\ width_at_timestep (configured DOM 4 6 3 0) 3 = 1.
Proof. split; reflexivity. Qed.

(** C4 (as the specification has it) fails. *)
Lemma dom_scenario_counterexample :
  ~ (offset_at_timestep (configured DOM 4 6 3 0) 3 = 1
     /\ width_at_timestep (configured DOM 4 6 3 0) 3 = 3).
Proof. intros [H _]. vm_compute in H. discriminate. Qed.

(** The rows of any graph stay inside [0, max_width). *)
Lemma row_in_bounds (g : TaskGraph) (t : Z) :
  0 <= max_width g -> t < timesteps g ->
  0 <= offset_at_timestep g t
  /\ 0 <= width_at_timestep g t
  /\ offset_at_timestep g t + width_at_timestep g t <= max_width g.
Proof.
  intros HW Ht. unfold offset_at_timestep, width_at_timestep.
  destruct (t <? 0) eqn:E; [lia|].
  assert (0 <= Z.shiftl 1 (Z.min t 62)) by (rewrite shiftl_1_pow; lia).
  destruct (dependence g); lia.
Qed.

(** ** Dependence sets *)

(** Wherever there is at least one dependence set, the set chosen at a
    timestep is one of them. *)
Lemma dependence_set_in_range (g : TaskGraph) (t : Z) :
  1 <= max_dependence_sets g -> 0 <= t ->
  exists dset, dependence_set_at_timestep g t = Ok dset
               /\ 0 <= dset < max_dependence_sets g.
Proof.
  intros HM Ht. unfold dependence_set_at_timestep, cpp_mod.
  destruct (max_dependence_sets g =? 0) eqn:E; [lia|].
  assert (Hrem : forall a, 0 <= a ->
            0 <= a `rem` max_dependence_sets g < max_dependence_sets g).
  { intros a Ha. rewrite Z.rem_mod_nonneg by lia. apply Z.mod_pos_bound. lia. }
  destruct (dependence g) eqn:Hd;
    try (exists 0; split; [done | lia]);
    eexists; (split; [done | apply Hrem; lia]).
Qed.

(** C6: an FFT graph of width 1 is a valid configuration, yet it has no
    dependence set and the choice of one divides by zero. *)
Theorem fft_width_one_no_dependence_set :
  valid_config (configured FFT 4 1 3 0)
  /\ max_dependence_sets (configured FFT 4 1 3 0) = 0
  /\ dependence_set_at_timestep (configured FFT 4 1 3 0) 0 = DivByZero.
Proof. repeat split; (done || by vm_compute). Qed.

(** ** The period tests *)

(** What the period tests of [App::check] accept. *)
Lemma check_period_accepts (g : TaskGraph) :
  check_period g = Ok tt <->
  radix g <> 0
  /\ (period g <> 0 <-> dependence g = SPREAD \/ dependence g = RANDOM_NEAREST)
  /\ (dependence g = SPREAD ->
      period g <= (max_width g + radix g - 1) `quot` radix g).
Proof.
  unfold check_period, cpp_div, needs_period.
  destruct (Z.eqb_spec (radix g) 0) as [ER|ER];
    destruct (Z.eqb_spec (period g) 0) as [EP|EP];
    destruct (dependence g); simpl;
    try destruct (Z.gtb_spec (period g)
                    ((max_width g + radix g - 1) `quot` radix g)) as [ES|ES];
    intuition (try discriminate; try lia; try congruence).
Qed.

(** C7: the period tests reject a RANDOM_SPREAD graph that has a period
    and let one without a period through. *)
Theorem random_spread_period_check :
  check_period (configured RANDOM_SPREAD 4 4 3 2)
  = Abort "error: Graph type does not support user-configurable period"
  /\ check_period (configured RANDOM_SPREAD 4 4 3 0) = Ok tt.
Proof. split; reflexivity. Qed.

(** ** SPREAD *)

(** C5 (as the code has it): the [i]-th SPREAD dependency of [p] is the
    point [(p + floor(i * W / R) + (i > 0 ? dset : 0)) mod W]. *)
Theorem spread_dependencies (g : TaskGraph) (dset p : Z) :
  dependence g = SPREAD -> 0 < radix g -> 0 <= dset ->
  0 <= p < max_width g ->
  dependencies random_uniform g dset p
  = Ok (spread_product_first (max_width g) (radix g) dset p).
Proof.
  intros Hd HR Hs Hp. unfold dependencies. rewrite Hd.
  destruct (Z.eqb_spec (max_width g) 0) as [?|_]; [lia|].
  rewrite andb_false_r. f_equal.
  unfold spread_product_first, range_excl. rewrite Z.sub_0_r.
  apply map_ext_in. intros i Hi%list_elem_of_In%elem_of_seqZ.
  rewrite Z.gtb_ltb.
  assert (0 <= i * max_width g) by nia.
  rewrite Z.quot_div_nonneg by lia.
  assert (0 <= (i * max_width g) `div` radix g) by (apply Z.div_pos; lia).
  rewrite Z.rem_mod_nonneg; [done | | lia].
  destruct (0 <? i); lia.
Qed.

(** C5 (as the specification has it) fails: for width 8 and radix 3 the
    third dependency of point 0 is 5, not [2 * floor(8 / 3) = 4]. *)
Lemma spread_floor_first_counterexample :
  ~ (forall (ru : list Z -> Q) (g : TaskGraph) (dset p : Z),
       dependence g = SPREAD -> 0 < radix g -> 0 <= dset ->
       0 <= p < max_width g ->
       dependencies ru g dset p
       = Ok (spread_floor_first (max_width g) (radix g) dset p)).
Proof.
  intros H.
  assert (Hc : dependencies sample_uniform (configured SPREAD 4 8 3 2) 0 0
               = Ok (spread_floor_first 8 3 0 0)).
  { apply H; [reflexivity | reflexivity | discriminate
             | split; [discriminate | reflexivity]]. }
  vm_compute in Hc. discriminate.
Qed.

(** ** The run-coalescing loop of RANDOM_NEAREST *)

Lemma covered_nil (q : Z) : covered [] q <-> False.
Proof. unfold covered. by rewrite Exists_nil. Qed.

Lemma covered_cons (iv : interval) (l : list interval) (q : Z) :
  covered (iv :: l) q <-> fst iv <= q <= snd iv \/ covered l q.
Proof. unfold covered. by rewrite Exists_cons. Qed.

Lemma covered_app (l1 l2 : list interval) (q : Z) :
  covered (l1 ++ l2) q <-> covered l1 q \/ covered l2 q.
Proof. unfold covered. by rewrite Exists_app. Qed.

(** Decide the order of [q] relative to the bounds of the loop, so that
    the propositional structure of a coverage goal can be closed. *)
Ltac rn_cases q i first rs :=
  destruct (Z_lt_dec q i); destruct (Z_le_dec first q);
  destruct (Z_le_dec rs q); destruct (Z_le_dec 0 rs);
  destruct (Z_lt_dec q (i + 1)); try lia;
  destruct (decide (q = i)) as [->|?]; try lia;
  intuition (try lia; try congruence).

Lemma rn_step_inv (include : Z -> bool) (first i : Z)
    (st : list interval * Z) :
  0 <= first <= i -> rn_inv include first i st ->
  rn_inv include first (i + 1) (rn_step include st i).
Proof.
  intros Hi Hinv. destruct st as [deps rs].
  destruct Hinv as (Hcov & Hrs & Hne & Hlen). simpl in *.
  unfold rn_step, rn_inv.
  destruct (include i) eqn:Ei;
    destruct (Z.ltb_spec rs 0) as [Hneg|Hpos];
    destruct (Z.geb_spec rs 0) as [Hpos'|Hneg']; try lia; simpl;
    (split; [|split; [|split]]).
  - intros q. specialize (Hcov q). rn_cases q i first rs.
  - lia.
  - done.
  - destruct (Z.geb_spec i 0); lia.
  - intros q. specialize (Hcov q). rn_cases q i first rs.
  - lia.
  - done.
  - destruct (Z.geb_spec rs 0); lia.
  - intros q. specialize (Hcov q). rn_cases q i first rs.
  - lia.
  - done.
  - lia.
  - intros q. specialize (Hcov q).
    rewrite covered_app, covered_cons, covered_nil. simpl.
    rn_cases q i first rs.
  - lia.
  - apply Forall_app. split; [done|]. constructor; [simpl; lia | done].
  - rewrite length_app. simpl. lia.
Qed.

Lemma rn_fold_inv (include : Z -> bool) (first : Z) (n : nat) :
  forall (i : Z) (st : list interval * Z),
    0 <= first <= i -> rn_inv include first i st ->
    rn_inv include first (i + Z.of_nat n)
      (fold_left (rn_step include) (seqZ i (Z.of_nat n)) st).
Proof.
  induction n as [|n IH]; intros i st Hi Hinv.
  - simpl. by rewrite Z.add_0_r.
  - rewrite seqZ_cons by lia. simpl fold_left.
    replace (Z.pred (Z.of_nat (S n))) with (Z.of_nat n) by lia.
    replace (i + Z.of_nat (S n)) with (Z.succ i + Z.of_nat n) by lia.
    apply IH; [lia|]. replace (Z.succ i) with (i + 1) by lia.
    by apply rn_step_inv.
Qed.

Lemma rn_inv_init (include : Z -> bool) (first : Z) :
  rn_inv include first first ([], -1).
Proof.
  unfold rn_inv. simpl. split; [|split; [|split]]; [|lia|done|lia].
  intros q. rewrite covered_nil. lia.
Qed.

(** What the loop writes: the intervals cover exactly the included
    candidates, each is non-empty, and their number is at most the number
    of candidates. *)
Lemma rn_scan_spec (include : Z -> bool) (first last_i : Z) :
  0 <= first ->
  (forall q, covered (rn_scan include first last_i) q
             <-> first <= q <= last_i /\ include q = true)
  /\ Forall (fun iv : interval => fst iv <= snd iv)
       (rn_scan include first last_i)
  /\ Z.of_nat (length (rn_scan include first last_i))
     <= Z.max 0 (last_i - first + 1).
Proof.
  intros Hf. unfold rn_scan, range_incl.
  destruct (Z.le_gt_cases (last_i - first + 1) 0) as [Hempty|Hsome].
  - rewrite seqZ_nil by done. simpl. split; [|split; [done | simpl; lia]].
    intros q. rewrite covered_nil. lia.
  - pose proof (rn_fold_inv include first (Z.to_nat (last_i - first + 1))
                  first ([], -1) ltac:(lia) (rn_inv_init include first))
      as Hinv.
    rewrite Z2Nat.id in Hinv by lia.
    replace (first + (last_i - first + 1)) with (last_i + 1) in Hinv by lia.
    destruct (fold_left _ _ _) as [deps rs].
    destruct Hinv as (Hcov & Hrs & Hne & Hlen). simpl in *.
    replace (Z.max first (last_i + 1) - 1) with last_i by lia.
    destruct (Z.geb_spec rs 0) as [Hpos|Hneg]; (split; [|split]).
    + intros q. specialize (Hcov q).
      rewrite covered_app, covered_cons, covered_nil. simpl.
      destruct (Z_le_dec q last_i); rn_cases q (last_i + 1) first rs.
    + apply Forall_app. split; [done|]. constructor; [simpl; lia | done].
    + rewrite length_app. simpl. lia.
    + intros q. specialize (Hcov q).
      destruct (Z_le_dec q last_i); rn_cases q (last_i + 1) first rs.
    + done.
    + lia.
Qed.

(** ** Buffer sizes *)

(** Arithmetic with truncating quotients and remainders. *)
Ltac quot_lia := Z.to_euclidean_division_equations; lia.

Lemma to_size_t_small (v : Z) : 0 <= v < 2 ^ 63 -> to_size_t v = v.
Proof. intros Hv. unfold to_size_t. apply Z.mod_small. lia. Qed.

Lemma length_range_excl (first bound : Z) :
  Z.of_nat (length (range_excl first bound)) = Z.max 0 (bound - first).
Proof. unfold range_excl. rewrite length_seqZ. lia. Qed.

(** Outside RANDOM_NEAREST with radix 0, [dependencies] writes at most
    [num_dependencies] intervals. *)
Lemma dependencies_count_bound (g : TaskGraph) (dset p : Z)
    (l : list interval) :
  0 <= radix g < 2 ^ 63 ->
  (dependence g = RANDOM_NEAREST -> 0 < radix g) ->
  dependencies random_uniform g dset p = Ok l ->
  exists n, num_dependencies g dset p = Ok n /\ Z.of_nat (length l) <= n.
Proof.
  intros HR Hrn. unfold dependencies, num_dependencies.
  destruct (dependence g) eqn:Hd; intros Hl;
    try destruct (_ && (max_width g =? 0)); try discriminate;
    try (injection Hl as <-; eexists; split; [reflexivity|]).
  - simpl. lia.
  - simpl. lia.
  - simpl. lia.
  - destruct (Z.ltb_spec (p - 1) 0); destruct (Z.geb_spec (p + 1) (max_width g));
      destruct (Z.gtb_spec (max_width g) 1); simpl; lia.
  - simpl. lia.
  - simpl. lia.
  - destruct (_ >=? 0); destruct (_ <? max_width g); simpl; lia.
  - simpl. lia.
  - eexists. split; [reflexivity|].
    destruct (radix g >? 0); injection Hl as <-; simpl; lia.
  - rewrite length_map, length_range_excl, to_size_t_small by done. lia.
  - rewrite to_size_t_small by done.
    pose proof (rn_scan_spec (include_forward random_uniform g dset p)
                  (Z.max 0 (p - radix g `quot` 2))
                  (Z.min (p + (radix g - 1) `quot` 2) (max_width g - 1))
                  ltac:(lia)) as (_ & _ & Hlen).
    specialize (Hrn eq_refl). revert Hlen. quot_lia.
Qed.

Lemma reverse_dependencies_count_bound (g : TaskGraph) (dset p : Z)
    (l : list interval) :
  0 <= radix g < 2 ^ 63 ->
  (dependence g = RANDOM_NEAREST -> 0 < radix g) ->
  reverse_dependencies random_uniform g dset p = Ok l ->
  exists n, num_reverse_dependencies g dset p = Ok n
            /\ Z.of_nat (length l) <= n.
Proof.
  intros HR Hrn. unfold reverse_dependencies, num_reverse_dependencies.
  destruct (dependence g) eqn:Hd; intros Hl;
    try destruct (_ && (max_width g =? 0)); try discriminate;
    try (injection Hl as <-; eexists; split; [reflexivity|]).
  - simpl. lia.
  - simpl. lia.
  - simpl. lia.
  - destruct (Z.ltb_spec (p - 1) 0); destruct (Z.geb_spec (p + 1) (max_width g));
      destruct (Z.gtb_spec (max_width g) 1); simpl; lia.
  - simpl. lia.
  - eexists. split; [reflexivity|].
    destruct (_ && _); [|destruct (_ <? _)]; injection Hl as <-; simpl; lia.
  - destruct (_ >=? 0); destruct (_ <? max_width g); simpl; lia.
  - simpl. lia.
  - eexists. split; [reflexivity|].
    destruct (radix g >? 0); injection Hl as <-; simpl; lia.
  - rewrite length_map, length_range_excl, to_size_t_small by done. lia.
  - rewrite to_size_t_small by done.
    pose proof (rn_scan_spec (include_reverse random_uniform g dset p)
                  (Z.max 0 (p - (radix g - 1) `quot` 2))
                  (Z.min (p + radix g `quot` 2) (max_width g - 1))
                  ltac:(lia)) as (_ & _ & Hlen).
    specialize (Hrn eq_refl). revert Hlen. quot_lia.
Qed.

Lemma lt_double_true (x y : Q) : (x < y)%Q -> lt_double x y = true.
Proof.
  intros Hxy. unfold lt_double. apply negb_true_iff.
  destruct (Qle_bool y x) eqn:E; [|done].
  apply Qle_bool_iff in E. by apply Qlt_not_le in Hxy.
Qed.

(** C10: a RANDOM_NEAREST graph with radix 0 and every candidate connected
    writes the interval [(p, p)] into a buffer that [num_dependencies]
    sized for 0 intervals: the vector overload writes past its buffer (and
    its assertion [actual_count <= count] cannot hold). *)
Theorem random_nearest_radix_zero_overrun :
  (forall key, (random_uniform key < 1)%Q) ->
  let g := set_fraction_connected 1 (configured RANDOM_NEAREST 4 1 0 3) in
  dependencies random_uniform g 0 0 = Ok [(0, 0)]
  /\ num_dependencies g 0 0 = Ok 0
  /\ dependencies_vector random_uniform g 0 0
     = Undefined "intervals written past the end of the buffer".
Proof.
  intros Hru g.
  assert (Hd : dependencies random_uniform g 0 0 = Ok [(0, 0)]).
  { unfold dependencies, rn_scan, include_forward. simpl.
    by rewrite lt_double_true by apply Hru. }
  split; [done|]. split; [done|].
  unfold dependencies_vector. rewrite Hd. done.
Qed.

(** ** Symmetry of dependencies and reverse dependencies *)

Lemma covered_singletons (d : Z -> Z) (l : list Z) (q : Z) :
  covered (map (fun i => (d i, d i)) l) q <-> exists i, i ∈ l /\ d i = q.
Proof.
  unfold covered. rewrite Exists_exists. split.
  - intros (iv & Hin & Hq). apply list_elem_of_In, in_map_iff in Hin.
    destruct Hin as (i & <- & Hi). exists i. simpl in Hq.
    split; [by apply list_elem_of_In | lia].
  - intros (i & Hi & <-). exists (d i, d i). split; [|simpl; lia].
    apply list_elem_of_In, in_map_iff. exists i.
    split; [done | by apply list_elem_of_In].
Qed.

(** The wrap-around of [reverse_dependencies]: [dep = x % W] followed by
    [if (dep < 0) dep += W] is the mathematical residue. *)
Lemma rem_wrap (x W : Z) :
  0 < W -> (if x `rem` W <? 0 then x `rem` W + W else x `rem` W) = x `mod` W.
Proof.
  intros HW. pose proof (Z.quot_rem' x W) as Hx.
  pose proof (Z.rem_bound_abs x W ltac:(lia)) as Hb.
  destruct (Z.ltb_spec (x `rem` W) 0).
  - apply Z.mod_unique_pos with (q := x `quot` W - 1); lia.
  - apply Z.mod_unique_pos with (q := x `quot` W); lia.
Qed.

Lemma mod_shift_mirror (W p q a : Z) :
  0 < W -> 0 <= p < W -> 0 <= q < W ->
  (p + a) `mod` W = q <-> (q - a) `mod` W = p.
Proof.
  intros HW Hp Hq. split; intros H.
  - symmetry. apply Z.mod_unique_pos with (q := - ((p + a) `div` W)); [done|].
    pose proof (Z.div_mod (p + a) W ltac:(lia)). lia.
  - symmetry. apply Z.mod_unique_pos with (q := - ((q - a) `div` W)); [done|].
    pose proof (Z.div_mod (q - a) W ltac:(lia)). lia.
Qed.

Lemma include_same_tuple (g : TaskGraph) (dset p i : Z) :
  forward_key g dset p i = reverse_key g dset i p
  /\ include_forward random_uniform g dset p i
     = include_reverse random_uniform g dset i p.
Proof.
  split; [done|]. unfold include_forward, include_reverse.
  by rewrite (Z.eqb_sym i p).
Qed.

Ltac cover_simpl :=
  rewrite ?covered_app, ?covered_cons, ?covered_nil; simpl.

(** For every pattern that the two functions implement, on the points of
    the graph: [q] is covered by the dependencies of [p] exactly when [p] is
    covered by the reverse dependencies of [q]. *)
Lemma dependencies_mirror (g : TaskGraph) (dset p q : Z) :
  1 <= max_width g -> 0 <= radix g -> 0 <= dset ->
  0 <= p < max_width g -> 0 <= q < max_width g ->
  dependence g <> RANDOM_SPREAD ->
  exists deps rdeps,
    dependencies random_uniform g dset p = Ok deps
    /\ reverse_dependencies random_uniform g dset q = Ok rdeps
    /\ (covered deps q <-> covered rdeps p).
Proof.
  intros HW HR Hs Hp Hq Hd. unfold dependencies, reverse_dependencies.
  destruct (dependence g) eqn:Ed; try done.
  - (* TRIVIAL *) do 2 eexists. do 2 (split; [done|]). by cover_simpl.
  - (* NO_COMM *) do 2 eexists. do 2 (split; [done|]). cover_simpl. lia.
  - (* STENCIL_1D *) do 2 eexists. do 2 (split; [done|]). cover_simpl. lia.
  - (* STENCIL_1D_PERIODIC *)
    do 2 eexists. do 2 (split; [done|]).
    destruct (Z.ltb_spec (p - 1) 0); destruct (Z.geb_spec (p + 1) (max_width g));
      destruct (Z.ltb_spec (q - 1) 0);
      destruct (Z.geb_spec (q + 1) (max_width g)); cover_simpl; lia.
  - (* DOM *) do 2 eexists. do 2 (split; [done|]). cover_simpl. lia.
  - (* TREE *)
    destruct (Z.ltb_spec (q * 2) (max_width g));
      destruct (Z.ltb_spec (q * 2 + 1) (max_width g)); simpl;
      do 2 eexists; (do 2 (split; [done|])); cover_simpl; quot_lia.
  - (* FFT *)
    do 2 eexists. do 2 (split; [done|]). generalize (int_shl1 dset). intros k.
    destruct (Z.geb_spec (p - k) 0); destruct (Z.ltb_spec (p + k) (max_width g));
      destruct (Z.geb_spec (q - k) 0);
      destruct (Z.ltb_spec (q + k) (max_width g)); cover_simpl; lia.
  - (* ALL_TO_ALL *) do 2 eexists. do 2 (split; [done|]). cover_simpl. lia.
  - (* NEAREST *)
    destruct (Z.gtb_spec (radix g) 0); do 2 eexists;
      (do 2 (split; [done|])); cover_simpl; [quot_lia | done].
  - (* SPREAD *)
    destruct (Z.eqb_spec (max_width g) 0) as [?|_]; [lia|].
    rewrite andb_false_r.
    do 2 eexists. do 2 (split; [done|]). cbv zeta.
    rewrite (covered_singletons
               (fun i => (p + (i * max_width g) `quot` radix g
                          + (if i >? 0 then dset else 0)) `rem` max_width g)).
    rewrite (covered_singletons
               (fun i =>
                  if (q - (i * max_width g) `quot` radix g
                      - (if i >? 0 then dset else 0)) `rem` max_width g <? 0
                  then (q - (i * max_width g) `quot` radix g
                        - (if i >? 0 then dset else 0)) `rem` max_width g
                       + max_width g
                  else (q - (i * max_width g) `quot` radix g
                        - (if i >? 0 then dset else 0)) `rem` max_width g)).
    assert (Hi : forall i, i ∈ range_excl 0 (radix g) ->
              (p + (i * max_width g) `quot` radix g
               + (if i >? 0 then dset else 0)) `rem` max_width g = q
              <-> (if (q - (i * max_width g) `quot` radix g
                       - (if i >? 0 then dset else 0)) `rem` max_width g <? 0
                   then (q - (i * max_width g) `quot` radix g
                         - (if i >? 0 then dset else 0)) `rem` max_width g
                        + max_width g
                   else (q - (i * max_width g) `quot` radix g
                         - (if i >? 0 then dset else 0)) `rem` max_width g)
                  = p).
    { intros i Hi%elem_of_seqZ. rewrite rem_wrap by lia.
      assert (0 <= i * max_width g) by nia.
      assert (0 <= (i * max_width g) `quot` radix g)
        by (rewrite Z.quot_div_nonneg by lia; apply Z.div_pos; lia).
      assert (0 <= (if i >? 0 then dset else 0)) by (destruct (i >? 0); lia).
      rewrite Z.rem_mod_nonneg by lia.
      set (a := (i * max_width g) `quot` radix g) in *.
      set (b := if i >? 0 then dset else 0) in *.
      replace (p + a + b) with (p + (a + b)) by lia.
      replace (q - a - b) with (q - (a + b)) by lia.
      apply mod_shift_mirror; lia. }
    split; intros (i & Hin & Hv); exists i; (split; [done|]);
      by apply (Hi i Hin).
  - (* RANDOM_NEAREST *)
    do 2 eexists. do 2 (split; [done|]).
    destruct (rn_scan_spec (include_forward random_uniform g dset p)
                (Z.max 0 (p - radix g `quot` 2))
                (Z.min (p + (radix g - 1) `quot` 2) (max_width g - 1))
                ltac:(lia)) as (-> & _).
    destruct (rn_scan_spec (include_reverse random_uniform g dset q)
                (Z.max 0 (q - (radix g - 1) `quot` 2))
                (Z.min (q + radix g `quot` 2) (max_width g - 1))
                ltac:(lia)) as (-> & _).
    destruct (include_same_tuple g dset p q) as [_ ->].
    assert (Z.max 0 (p - radix g `quot` 2) <= q
            <= Z.min (p + (radix g - 1) `quot` 2) (max_width g - 1)
            <-> Z.max 0 (q - (radix g - 1) `quot` 2) <= p
                <= Z.min (q + radix g `quot` 2) (max_width g - 1)) by lia.
    tauto.
Qed.

(** A valid configuration has no RANDOM_SPREAD dependence set. *)
Lemma valid_config_dependence (g : TaskGraph) (dset : Z) :
  valid_config g -> 0 <= dset < max_dependence_sets g ->
  dependence g <> RANDOM_SPREAD.
Proof.
  intros (_ & _ & _ & Hc) Hs Hd. apply check_period_accepts in Hc.
  destruct Hc as (_ & Hp & _). unfold max_dependence_sets in Hs.
  rewrite Hd in *. destruct (decide (period g = 0)) as [?|Hne]; [lia|].
  apply Hp in Hne as [?|?]; discriminate.
Qed.

(** C1: in a valid configuration, for every dependence set and all points
    [p], [q] of the graph, both queries return, and [q] is covered by an
    interval of [dependencies(dset, p)] if and only if [p] is covered by an
    interval of [reverse_dependencies(dset, q)]; the RANDOM_NEAREST test for
    candidate [q] of [p] and the reverse test for candidate [p] of [q] read
    the same hash key and agree. *)
Theorem dependencies_symmetric (g : TaskGraph) (dset p q : Z) :
  valid_config g -> 0 <= dset < max_dependence_sets g ->
  0 <= p < max_width g -> 0 <= q < max_width g ->
  (exists deps rdeps,
     dependencies random_uniform g dset p = Ok deps
     /\ reverse_dependencies random_uniform g dset q = Ok rdeps
     /\ (covered deps q <-> covered rdeps p))
  /\ forward_key g dset p q = reverse_key g dset q p
  /\ include_forward random_uniform g dset p q
     = include_reverse random_uniform g dset q p.
Proof.
  intros Hv Hs Hp Hq. split; [|apply include_same_tuple].
  pose proof (valid_config_dependence g dset Hv Hs) as Hd.
  destruct Hv as (_ & HW & HR & _).
  apply dependencies_mirror; (done || lia).
Qed.

(** ** What [App::check] establishes *)

Lemma bind_ok {A B : Type} (m : result A) (k : A -> result B) (b : B) :
  (do x <- m; k x) = Ok b -> exists a, m = Ok a /\ k a = Ok b.
Proof. destruct m; simpl; try discriminate. intros H. by eexists. Qed.

Lemma assert_ok (b : bool) (what : string) : assert b what = Ok tt -> b = true.
Proof. by destruct b. Qed.

Lemma foldM_cons_ok {A S : Type} (body : S -> A -> result S) (x : A)
    (xs : list A) (s s' : S) :
  foldM body (x :: xs) s = Ok s' ->
  exists s1, body s x = Ok s1 /\ foldM body xs s1 = Ok s'.
Proof. simpl. apply bind_ok. Qed.

(** A graph that passes [App::check] implements its pattern, has a first
    dependence set and a positive radix. *)
Lemma valid_graph_facts (g : TaskGraph) :
  valid_graph random_uniform g ->
  dependence g <> RANDOM_SPREAD
  /\ 1 <= max_dependence_sets g
  /\ 0 < radix g < 2 ^ 63.
Proof.
  intros (HT & HW & HR & Hc). unfold check_graph in Hc.
  apply bind_ok in Hc as ([] & Hp & Hc). apply bind_ok in Hc as ([] & Ht & _).
  apply check_period_accepts in Hp as (HR0 & Hp & _).
  unfold check_timesteps, range_excl in Ht.
  rewrite seqZ_cons in Ht by lia.
  apply foldM_cons_ok in Ht as ([] & Ht & _).
  apply bind_ok in Ht as ([] & _ & Ht). apply bind_ok in Ht as ([] & _ & Ht).
  apply bind_ok in Ht as ([] & _ & Ht). apply bind_ok in Ht as (d & Hd & Ha).
  apply assert_ok, andb_true_iff in Ha as [Hd0 Hd1].
  apply Z.geb_le in Hd0. apply Z.leb_le in Hd1.
  unfold dependence_set_at_timestep, cpp_mod, max_dependence_sets in *.
  pose proof (Z.log2_up_nonneg (max_width g)).
  destruct (dependence g) eqn:Ed;
    repeat match goal with
      | H : context [if ?x =? 0 then _ else _] |- _ =>
          destruct (Z.eqb_spec x 0); [discriminate|]
      end;
    try (split; [done | lia]).
  exfalso. match goal with Hne : period g <> 0 |- _ =>
    apply Hp in Hne as [?|?]; discriminate end.
Qed.

(** ** Round trip through [execute_point] *)

Lemma lfold_cons {A S : Type} (body : S -> A -> logged S) (x : A)
    (xs : list A) (s : S) :
  lfold body (x :: xs) s = lbind (body s x) (fun s' => lfold body xs s').
Proof. reflexivity. Qed.

Lemma lbind_pure {A B : Type} (a : A) (f : A -> logged B) :
  lbind ([], Ok a) f = f a.
Proof. unfold lbind. by destruct (f a). Qed.

Lemma validate_records_ok (g : TaskGraph) (timestep point dep idx : Z)
    (input : buffer) :
  payload_ok (timestep - 1) dep input = true ->
  validate_records g timestep point dep idx input = ([], Ok tt).
Proof.
  unfold payload_ok, validate_records. intros [_ Hall]%andb_true_iff.
  rewrite forallb_forall in Hall.
  induction (range_excl 0 (bytes input `quot` sizeof_pair)) as [|i xs IH];
    [done|].
  rewrite lfold_cons.
  assert (Hi : slots input !! Z.to_nat i = Some (timestep - 1, dep))
    by (eapply bool_decide_eq_true_1, Hall; by left).
  rewrite Hi, !Z.eqb_refl. cbn [negb orb assert]. unfold lift, lret.
  rewrite !lbind_pure. apply IH. intros x Hx. apply Hall. by right.
Qed.

Section Validation.

Variables (g : TaskGraph) (timestep point : Z) (inputs : list buffer).

Let in_last_row (dep : Z) : Prop :=
  offset_at_timestep g (timestep - 1) <= dep
  < offset_at_timestep g (timestep - 1) + width_at_timestep g (timestep - 1).

(** The buffers from position [idx] on serve the dependencies [ds]. *)
Let served (idx : Z) (ds : list Z) : Prop :=
  forall (k : nat) (d : Z), ds !! k = Some d ->
    exists b, inputs !! (Z.to_nat idx + k)%nat = Some b
              /\ payload_ok (timestep - 1) d b = true.

Lemma validate_dep_fold (xs : list Z) :
  forall idx, 0 <= idx -> served idx (filter in_last_row xs) ->
    lfold (validate_dep g timestep point inputs) xs idx
    = ([], Ok (idx + Z.of_nat (length (filter in_last_row xs)))).
Proof.
  induction xs as [|x xs IH]; intros idx Hidx Hs.
  - simpl. unfold lret. do 2 f_equal. lia.
  - rewrite lfold_cons. unfold validate_dep at 1.
    destruct (decide (in_last_row x)) as [Hx|Hx].
    + rewrite filter_cons_True in Hs |- * by done.
      destruct (Hs 0%nat x eq_refl) as (b & Hb & Hpay).
      rewrite Nat.add_0_r in Hb.
      assert (Hlen : idx < Z.of_nat (length inputs)).
      { apply lookup_lt_Some in Hb. lia. }
      unfold in_last_row in Hx.
      replace (_ <=? x) with true by (symmetry; apply Z.leb_le; lia).
      replace (x <? _) with true by (symmetry; apply Z.ltb_lt; lia).
      replace (idx <? _) with true by (symmetry; apply Z.ltb_lt; lia).
      rewrite Hb.
      pose proof Hpay as [Hbytes _]%andb_true_iff. apply Z.leb_le in Hbytes.
      replace (bytes b >=? sizeof_pair) with true
        by (symmetry; apply Z.geb_le; lia).
      rewrite validate_records_ok by done.
      cbn [andb assert]. unfold lift, lret. rewrite !lbind_pure.
      rewrite IH; [| lia |].
      * do 2 f_equal. simpl length. lia.
      * intros k d Hk. destruct (Hs (S k) d Hk) as (b' & Hb' & Hpay').
        exists b'. split; [|done]. rewrite <- Hb'. f_equal. lia.
    + rewrite filter_cons_False in Hs |- * by done.
      unfold in_last_row in Hx.
      destruct (Z.leb_spec (offset_at_timestep g (timestep - 1)) x);
        destruct (Z.ltb_spec x (offset_at_timestep g (timestep - 1)
                                + width_at_timestep g (timestep - 1)));
        try lia; cbn [andb]; unfold lret; rewrite lbind_pure; by apply IH.
Qed.

Lemma validate_span_fold (deps : list interval) :
  forall idx, 0 <= idx ->
    served idx
      (filter in_last_row
         (flat_map (fun span : interval => range_incl (fst span) (snd span))
            deps)) ->
    exists idx',
      lfold (fun idx (span : interval) =>
               lfold (validate_dep g timestep point inputs)
                 (range_incl (fst span) (snd span)) idx) deps idx
      = ([], Ok idx').
Proof.
  induction deps as [|span deps IH]; intros idx Hidx Hs.
  - by eexists.
  - rewrite lfold_cons. simpl flat_map in Hs. rewrite filter_app in Hs.
    rewrite validate_dep_fold; [| done |].
    + rewrite lbind_pure. apply IH; [lia|].
      intros k d Hk.
      destruct (Hs (length (filter in_last_row
                      (range_incl (fst span) (snd span))) + k)%nat d)
        as (b & Hb & Hpay).
      { rewrite lookup_app_r by lia. rewrite <- Hk. f_equal. lia. }
      exists b. split; [|done]. rewrite <- Hb. f_equal. lia.
    + intros k d Hk. apply Hs. rewrite lookup_app_l; [done|].
      by apply lookup_lt_Some in Hk.
Qed.

End Validation.

Lemma inputs_ready_served (g : TaskGraph) (timestep point : Z)
    (inputs : list buffer) (ds : list Z) :
  required_inputs random_uniform g timestep point = Ok ds ->
  inputs_ready random_uniform g timestep point inputs = true ->
  forall (k : nat) (d : Z), ds !! k = Some d ->
    exists b, inputs !! k = Some b /\ payload_ok (timestep - 1) d b = true.
Proof.
  intros Hds. unfold inputs_ready. rewrite Hds.
  intros [Hlen Hall]%andb_true_iff k d Hk.
  apply Nat.leb_le in Hlen. rewrite forallb_forall in Hall.
  destruct (lookup_lt_is_Some_2 inputs k) as [b Hb].
  { apply lookup_lt_Some in Hk. lia. }
  exists b. split; [done|]. apply (Hall (d, b)).
  apply list_elem_of_In, (list_elem_of_lookup_2 _ k).
  apply lookup_zip_with_Some. by exists d, b.
Qed.

(** The consumer's side of the round trip: in a valid graph, at a point
    [q] of row [t+1], when every dependency [p] of [q] in row [t] has its
    input buffer, of at least 16 bytes and holding only records [(t, p)],
    the head of [execute_point(t+1, q, ...)] runs through: nothing is
    reported as corrupted and no assertion fails. *)
Lemma ready_inputs_pass_validation (g : TaskGraph) (t q : Z)
    (inputs : list buffer) :
  valid_graph random_uniform g ->
  0 <= t < timesteps g - 1 ->
  offset_at_timestep g (t + 1) <= q
  < offset_at_timestep g (t + 1) + width_at_timestep g (t + 1) ->
  inputs_ready random_uniform g (t + 1) q inputs = true ->
  execute_point_validation random_uniform g (t + 1) q inputs = ([], Ok tt).
Proof.
  intros Hv Ht Hq Hready.
  destruct (valid_graph_facts g Hv) as (Hd & HM & HR).
  unfold execute_point_validation.
  replace (0 <=? t + 1) with true by (symmetry; apply Z.leb_le; lia).
  replace (t + 1 <? timesteps g) with true by (symmetry; apply Z.ltb_lt; lia).
  replace (_ <=? q) with true by (symmetry; apply Z.leb_le; lia).
  replace (q <? _) with true by (symmetry; apply Z.ltb_lt; lia).
  cbn [andb assert]. unfold lift. rewrite !lbind_pure.
  destruct (required_inputs random_uniform g (t + 1) q) as [ds| | | | |] eqn:Hds;
    try (unfold inputs_ready in Hready; rewrite Hds in Hready; discriminate).
  pose proof (inputs_ready_served g (t + 1) q inputs ds Hds Hready) as Hs.
  unfold required_inputs in Hds.
  apply bind_ok in Hds as (dset & Hdset & Hds).
  apply bind_ok in Hds as (deps & Hdeps & Hds). injection Hds as <-.
  destruct (dependencies_count_bound g dset q deps) as (n & Hn & Hle);
    [lia | intros _; lia | done |].
  unfold validate_input, lift, written_into.
  rewrite Hdset, lbind_pure, Hn, lbind_pure, Hdeps, lbind_pure.
  replace (_ <=? n) with true by (symmetry; apply Z.leb_le; lia).
  rewrite lbind_pure.
  destruct (validate_span_fold g (t + 1) q inputs deps 0 ltac:(lia))
    as (idx' & ->); [|by rewrite lbind_pure].
  intros k d Hk. apply Hs, Hk.
Qed.

(** The buffers asked for in C2 are those of a computable list of
    dependencies. *)
Lemma required_inputs_total (g : TaskGraph) (t q : Z) :
  valid_graph random_uniform g -> 0 <= t ->
  is_ok (required_inputs random_uniform g t q) = true.
Proof.
  intros Hv Ht. destruct (valid_graph_facts g Hv) as (Hd & HM & HR).
  destruct (dependence_set_in_range g t HM Ht) as (dset & Hdset & _).
  unfold required_inputs. rewrite Hdset. simpl.
  destruct Hv as (_ & HW & _).
  unfold dependencies. destruct (Z.eqb_spec (max_width g) 0) as [?|_]; [lia|].
  rewrite andb_false_r. destruct (dependence g); try done.
  by destruct (_ >? 0).
Qed.

(** What [execute_point] leaves in the output buffer is such a payload. *)
Lemma generate_output_payload (timestep point output_bytes : Z)
    (output out : buffer) :
  sizeof_pair <= output_bytes ->
  generate_output timestep point output_bytes output = Ok out ->
  payload_ok timestep point (mkBuffer output_bytes (slots out)) = true.
Proof.
  intros Hb. unfold generate_output, payload_ok. simpl.
  intros (sl & Hfold & Hout)%bind_ok. injection Hout as <-. simpl.
  apply andb_true_iff. split; [by apply Z.leb_le|].
  assert (Hgen : forall xs (l l' : list (Z * Z)),
            foldM (fun (out : list (Z * Z)) i =>
                     if (Z.to_nat i <? length out)%nat then
                       Ok (<[Z.to_nat i := (timestep, point)]> out)
                     else Undefined "write outside the output buffer") xs l
            = Ok l' ->
            Forall (fun i => 0 <= i) xs ->
            length l' = length l
            /\ forall i, (i ∈ xs \/ l !! Z.to_nat i = Some (timestep, point))
                         -> 0 <= i -> l' !! Z.to_nat i = Some (timestep, point)).
  { induction xs as [|x xs IH]; intros l l' Hf Hpos.
    - injection Hf as <-. split; [done|]. intros i [Hi|Hi] _; [|done].
      by apply elem_of_nil in Hi.
    - apply foldM_cons_ok in Hf as (l1 & Hx & Hf).
      destruct (Nat.ltb_spec (Z.to_nat x) (length l)) as [Hlt|]; [|done].
      injection Hx as <-. apply Forall_cons in Hpos as [Hx0 Hpos].
      destruct (IH _ _ Hf Hpos) as [Hlen Hl']. rewrite length_insert in Hlen.
      split; [done|]. intros i Hi Hi0. apply Hl'; [|done].
      destruct (decide (i = x)) as [->|Hne].
      + right. by apply list_lookup_insert_eq.
      + destruct Hi as [Hi|Hi].
        * apply elem_of_cons in Hi as [?|?]; [done | by left].
        * right. rewrite list_lookup_insert_ne by lia. done. }
  apply forallb_forall. intros i Hi%list_elem_of_In.
  apply bool_decide_eq_true_2.
  destruct (Hgen _ _ _ Hfold) as [_ Hl'].
  { apply Forall_forall. intros x Hx%elem_of_seqZ. lia. }
  apply Hl'; [by left|]. apply elem_of_seqZ in Hi. lia.
Qed.

(** ** Reporting totals *)

Lemma count_in_range (lo hi : Z) (n : nat) :
  forall a,
    Z.of_nat (length (filter (fun d => lo <= d <= hi) (seqZ a (Z.of_nat n))))
    = Z.max 0 (Z.min (a + Z.of_nat n - 1) hi - Z.max a lo + 1).
Proof.
  induction n as [|n IH]; intros a.
  - simpl. lia.
  - rewrite seqZ_cons by lia.
    replace (Z.pred (Z.of_nat (S n))) with (Z.of_nat n) by lia.
    destruct (decide (lo <= a <= hi)).
    + rewrite filter_cons_True by done. simpl length. rewrite Nat2Z.inj_succ, IH.
      lia.
    + rewrite filter_cons_False by done. rewrite IH. lia.
Qed.

(** On a non-empty interval and a clamp range that is at worst empty, the
    length that [report_timing] adds is the number of points of the
    interval inside the range; an interval outside contributes 0. *)
Lemma clamp_length (iv : interval) (lo hi : Z) :
  fst iv <= snd iv -> lo <= hi + 1 ->
  snd (clamp (fst iv) (snd iv) lo hi) - fst (clamp (fst iv) (snd iv) lo hi) + 1
  = points_within lo hi iv.
Proof.
  intros Hiv Hr. unfold points_within, range_incl.
  replace (snd iv - fst iv + 1)
    with (Z.of_nat (Z.to_nat (snd iv - fst iv + 1))) by lia.
  rewrite count_in_range. rewrite Z2Nat.id by lia. unfold clamp.
  destruct (Z.ltb_spec (snd iv) lo); [simpl; lia|].
  destruct (Z.gtb_spec (fst iv) hi); simpl; lia.
Qed.

(** The intervals of a point of the graph are non-empty. *)
Lemma dependencies_nonempty (g : TaskGraph) (dset p : Z) (l : list interval) :
  1 <= max_width g -> 0 <= radix g -> 0 <= p < max_width g ->
  dependencies random_uniform g dset p = Ok l ->
  Forall (fun iv : interval => fst iv <= snd iv) l.
Proof.
  intros HW HR Hp. unfold dependencies.
  destruct (dependence g); intros Hl;
    try destruct (_ && (max_width g =? 0)); try discriminate;
    try (injection Hl as <-).
  - done.
  - repeat constructor; simpl; lia.
  - repeat constructor; simpl; lia.
  - destruct (_ <? 0); destruct (_ >=? _); repeat constructor; simpl; lia.
  - repeat constructor; simpl; lia.
  - repeat constructor; simpl; lia.
  - destruct (_ >=? 0); destruct (_ <? _); repeat constructor; simpl; lia.
  - repeat constructor; simpl; lia.
  - destruct (radix g >? 0); injection Hl as <-; repeat constructor; simpl.
    quot_lia.
  - apply Forall_forall. intros iv Hiv%list_elem_of_In%in_map_iff.
    destruct Hiv as (i & <- & _). simpl. lia.
  - apply rn_scan_spec. lia.
Qed.

Lemma sumZ_cons (x : Z) (l : list Z) : sumZ (x :: l) = x + sumZ l.
Proof. reflexivity. Qed.

(** A loop whose body adds [f_tasks x] and [f_deps x] to the two counters
    adds their sums. *)
Lemma foldM_counters {A : Type} (body : counters -> A -> result counters)
    (f_tasks f_deps : A -> Z) (xs : list A) :
  (forall c x, x ∈ xs ->
     exists c', body c x = Ok c'
                /\ num_tasks c' = num_tasks c + f_tasks x
                /\ num_deps c' = num_deps c + f_deps x) ->
  forall c,
    exists c', foldM body xs c = Ok c'
               /\ num_tasks c' = num_tasks c + sumZ (map f_tasks xs)
               /\ num_deps c' = num_deps c + sumZ (map f_deps xs).
Proof.
  induction xs as [|x xs IH]; intros Hbody c.
  - exists c. simpl. repeat split; lia.
  - destruct (Hbody c x) as (c1 & Hc1 & Ht1 & Hd1); [by left|].
    destruct (IH (fun c x Hx => Hbody c x (list_elem_of_further _ _ _ Hx)) c1)
      as (c' & Hc' & Ht' & Hd').
    exists c'. simpl foldM. rewrite Hc1. simpl bind.
    split; [done|]. simpl map. rewrite !sumZ_cons. lia.
Qed.

Lemma count_dep_fold (g : TaskGraph) (nodes lo w nf nl : Z)
    (deps : list interval) :
  0 <= w -> Forall (fun iv : interval => fst iv <= snd iv) deps ->
  forall c,
    num_tasks (fold_left (count_dep g nodes lo w nf nl) deps c) = num_tasks c
    /\ num_deps (fold_left (count_dep g nodes lo w nf nl) deps c)
       = num_deps c + sumZ (map (points_within lo (lo + w - 1)) deps).
Proof.
  intros Hw. induction 1 as [|iv deps Hiv _ IH]; intros c.
  - simpl. lia.
  - simpl fold_left. destruct (IH (count_dep g nodes lo w nf nl c iv))
      as [-> ->].
    simpl map. rewrite sumZ_cons.
    rewrite <- (clamp_length iv lo (lo + w - 1)) by lia.
    unfold count_dep.
    destruct (clamp (fst iv) (snd iv) lo (lo + w - 1)) as [dep_first dep_last].
    destruct (nodes >? 0); simpl.
    + destruct (clamp dep_first dep_last 0 (nf - 1)).
      destruct (clamp dep_first dep_last nf nl).
      destruct (clamp dep_first dep_last (nl + 1) (max_width g - 1)).
      simpl. lia.
    + lia.
Qed.

Lemma sumZ_zero {A : Type} (xs : list A) : sumZ (map (fun _ => 0) xs) = 0.
Proof. induction xs as [|x xs IH]; [done|]. simpl map. by rewrite sumZ_cons, IH. Qed.

Lemma count_timestep_spec (g : TaskGraph) (nodes : Z) (c : counters) (t : Z) :
  valid_graph random_uniform g -> 0 <= t < timesteps g ->
  exists c', count_timestep random_uniform g nodes c t = Ok c'
             /\ num_tasks c' = num_tasks c + width_at_timestep g t
             /\ num_deps c' = num_deps c + spec_row_deps random_uniform g t.
Proof.
  intros Hv Ht. destruct (valid_graph_facts g Hv) as (Hd & HM & HR).
  destruct Hv as (HT & HW & _).
  destruct (dependence_set_in_range g t HM ltac:(lia)) as (dset & Hdset & Hs).
  destruct (row_in_bounds g t ltac:(lia) ltac:(lia)) as (Ho & Hw & How).
  destruct (row_in_bounds g (t - 1) ltac:(lia) ltac:(lia)) as (_ & Hlw & _).
  unfold count_timestep. rewrite Hdset. simpl bind.
  destruct (foldM_counters
              (count_point random_uniform g nodes
                 (offset_at_timestep g (t - 1)) (width_at_timestep g (t - 1))
                 dset)
              (fun _ => 0) (spec_point_deps random_uniform g t)
              (range_excl (offset_at_timestep g t)
                 (offset_at_timestep g t + width_at_timestep g t)))
    with (c := mkCounters (num_tasks c + width_at_timestep g t) (num_deps c)
                 (local_deps c) (nonlocal_deps c))
    as (c' & Hc' & Ht' & Hd').
  - intros c0 p Hp%elem_of_seqZ. unfold count_point.
    assert (Hnode : exists r,
              (if nodes >? 0 then
                 do point_node <- cpp_div (p * nodes) (max_width g);
                 Ok ((point_node * max_width g) `quot` nodes,
                     ((point_node + 1) * max_width g) `quot` nodes - 1)
               else Ok (0, -1)) = Ok r).
    { unfold cpp_div. destruct (nodes >? 0); [|by eexists].
      destruct (Z.eqb_spec (max_width g) 0); [lia|]. by eexists. }
    destruct Hnode as (r & ->). simpl bind.
    destruct (dependencies random_uniform g dset p) as [l| | | | |] eqn:Hl;
      try (exfalso; revert Hl; unfold dependencies;
           destruct (Z.eqb_spec (max_width g) 0) as [?|_]; [lia|];
           rewrite andb_false_r;
           destruct (dependence g); try done; by destruct (_ >? 0)).
    destruct (dependencies_count_bound g dset p l) as (n & Hn & Hle);
      [lia | intros _; lia | done |].
    unfold dependencies_vector, written_into. rewrite Hn, Hl. simpl bind.
    replace (_ <=? n) with true by (symmetry; apply Z.leb_le; lia).
    simpl bind. eexists. split; [done|].
    destruct (count_dep_fold g nodes (offset_at_timestep g (t - 1))
                (width_at_timestep g (t - 1)) (fst r) (snd r) l Hlw
                (dependencies_nonempty g dset p l ltac:(lia) ltac:(lia)
                   ltac:(lia) Hl) c0) as [-> ->].
    split; [lia|]. unfold spec_point_deps, dset_of, deps_of.
    by rewrite Hdset, Hl.
  - exists c'. split; [done|]. rewrite sumZ_zero in Ht'. simpl in Ht', Hd'.
    unfold spec_row_deps. lia.
Qed.

Lemma foldM_total {A S : Type} (body : S -> A -> result S) (xs : list A) :
  (forall s x, x ∈ xs -> exists s', body s x = Ok s') ->
  forall s, exists s', foldM body xs s = Ok s'.
Proof.
  induction xs as [|x xs IH]; intros Hbody s.
  - by eexists.
  - destruct (Hbody s x) as (s1 & Hs1); [by left|].
    simpl. rewrite Hs1. simpl. apply IH.
    intros s0 y Hy. apply Hbody. by right.
Qed.

Lemma count_bytes_total (g : TaskGraph) :
  (divides_by_samples (kernel_type (kernel g)) = true ->
   samples (kernel g) <> 0) ->
  exists b, count_bytes g = Ok b.
Proof.
  intros Hs. unfold count_bytes.
  apply foldM_total. intros s t _. apply foldM_total. intros s0 p _.
  unfold count_bytes_per_task, cpp_div.
  destruct (kernel_type (kernel g)); simpl in Hs; try by eexists.
  all: destruct (Z.eqb_spec (samples (kernel g)) 0) as [E|_];
    [by destruct (Hs eq_refl) | by eexists].
Qed.

Section Reporting.

Variable select_imbalance_iterations : Kernel -> Z -> Z -> Z -> Z.
Variable select_dist_iterations : Kernel -> Z -> Z -> Z -> Z.

Lemma report_graph_spec (g : TaskGraph) (nodes : Z) (tot : totals) :
  countable random_uniform g ->
  exists tot',
    report_graph random_uniform select_imbalance_iterations
      select_dist_iterations nodes tot g = Ok tot'
    /\ total_num_tasks tot'
       = total_num_tasks tot
         + sumZ (map (width_at_timestep g) (range_excl 0 (timesteps g)))
    /\ total_num_deps tot'
       = total_num_deps tot
         + sumZ (map (spec_row_deps random_uniform g)
                   (range_excl 0 (timesteps g))).
Proof.
  intros [Hv Hs]. unfold report_graph.
  destruct (foldM_counters (count_timestep random_uniform g nodes)
              (width_at_timestep g) (spec_row_deps random_uniform g)
              (range_excl 0 (timesteps g)))
    with (c := mkCounters 0 0 0 0) as (c & -> & Htasks & Hdeps).
  { intros c0 t Ht%elem_of_seqZ. apply count_timestep_spec; [done | lia]. }
  destruct (count_bytes_total g Hs) as (b & ->).
  eexists. split; [done|]. simpl in *. lia.
Qed.

(** C8: on graphs that can be counted [report_timing] returns, its task
    total is the sum of the widths of all rows of all graphs, and its
    dependency total is the sum, over all graphs, rows [t] and points [p] of
    the row, of the points of each interval of [dependencies(dset(t), p)]
    that lie in [[last_offset, last_offset + last_width - 1]]. *)
Theorem report_timing_totals (app : App) :
  Forall (countable random_uniform) (graphs app) ->
  exists tot,
    report_timing random_uniform select_imbalance_iterations
      select_dist_iterations app = Ok tot
    /\ total_num_tasks tot = spec_total_tasks app
    /\ total_num_deps tot = spec_total_deps random_uniform app.
Proof.
  unfold report_timing, spec_total_tasks, spec_total_deps.
  generalize (nodes app). intros nodes Hall.
  assert (Hgen : forall tot0,
            exists tot,
              foldM (report_graph random_uniform select_imbalance_iterations
                       select_dist_iterations nodes) (graphs app) tot0
              = Ok tot
              /\ total_num_tasks tot
                 = total_num_tasks tot0
                   + sumZ (map (fun g =>
                                  sumZ (map (width_at_timestep g)
                                          (range_excl 0 (timesteps g))))
                             (graphs app))
              /\ total_num_deps tot
                 = total_num_deps tot0
                   + sumZ (map (fun g =>
                                  sumZ (map (spec_row_deps random_uniform g)
                                          (range_excl 0 (timesteps g))))
                             (graphs app))).
  { induction Hall as [|g gs Hg _ IH]; intros tot0.
    - exists tot0. simpl. repeat split; lia.
    - destruct (report_graph_spec g nodes tot0 Hg) as (tot1 & Htot1 & Ht1 & Hd1).
      destruct (IH tot1) as (tot & Htot & Ht & Hd).
      exists tot. simpl foldM. rewrite Htot1. simpl bind.
      split; [done|]. simpl map. rewrite !sumZ_cons. lia. }
  destruct (Hgen (mkTotals 0 0 0 0 0 0 0 0)) as (tot & Htot & Ht & Hd).
  exists tot. split; [done|]. simpl in Ht, Hd. lia.
Qed.

End Reporting.

End Properties.

(** ** The argument loop *)

Section Fuel.

Variable atof : string -> Q.
Variable argv : list string.

Lemma on_flag_advances (flag : string) (body : pstate -> result pstate) :
  advances body -> advances (on_flag argv flag body).
Proof.
  intros Hbody st. unfold on_flag.
  destruct (String.eqb _ _); [apply Hbody | simpl; lia].
Qed.

Lemma value_flag_advances {V : Type} (flag : string) (read : string -> V)
    (invalid : V -> bool) (requirement : string)
    (store : V -> pstate -> pstate) :
  (forall v st, p_i (store v st) = p_i st) ->
  advances (value_flag argv flag read invalid requirement store).
Proof.
  intros Hstore. apply on_flag_advances. intros st.
  unfold next_argument, needs_argument.
  destruct (_ >=? _); simpl; [done|].
  destruct (invalid _); [done|]. rewrite Hstore. simpl. lia.
Qed.

Lemma name_flag_advances {V : Type} (flag : string)
    (table : list (string * V)) (store : V -> pstate -> pstate) :
  (forall v st, p_i (store v st) = p_i st) ->
  advances (name_flag argv flag table store).
Proof.
  intros Hstore. apply on_flag_advances. intros st.
  unfold next_argument, needs_argument.
  destruct (_ >=? _); simpl; [done|].
  destruct (find_name _ _); [|done]. rewrite Hstore. simpl. lia.
Qed.

Lemma parse_steps_advance : Forall advances (parse_steps atof argv).
Proof.
  unfold parse_steps.
  repeat (apply Forall_cons; split;
          [first [ apply value_flag_advances; reflexivity
                 | apply name_flag_advances; reflexivity
                 | apply on_flag_advances; intros st; simpl; lia ]|]).
  apply Forall_nil. done.
Qed.

Lemma parse_argument_advances : advances (parse_argument atof argv).
Proof.
  unfold parse_argument. generalize parse_steps_advance.
  generalize (parse_steps atof argv). intros steps Hsteps st.
  assert (Hgen : forall st0, p_i st <= p_i st0 ->
            match foldM (fun st step => step st) steps st0 with
            | Ok st' => p_i st <= p_i st'
            | Undefined _ => False
            | _ => True
            end).
  { induction Hsteps as [|step steps Hstep _ IH]; intros st0 H0.
    - done.
    - simpl. specialize (Hstep st0). destruct (step st0); simpl; try done.
      apply IH. lia. }
  apply Hgen. lia.
Qed.

(** With [argc - i] turns of fuel the loop never runs out: whatever
    [parse_loop] returns is what the code returns. *)
Lemma parse_loop_fuel (fuel : nat) :
  forall st, (Z.to_nat (argc argv - p_i st) <= fuel)%nat ->
    forall what, parse_loop atof argv fuel st <> Undefined what.
Proof.
  induction fuel as [|fuel IH]; intros st Hfuel what; simpl.
  - destruct (Z.ltb_spec (p_i st) (argc argv)); [lia | done].
  - destruct (Z.ltb_spec (p_i st) (argc argv)); [|done].
    pose proof (parse_argument_advances st) as Hadv.
    destruct (parse_argument atof argv st); simpl; try done.
    apply IH. simpl. lia.
Qed.

End Fuel.

(** ** Output-size tables *)

Lemma write_cell_uniform (v : Z) (tab tab' : list (list (option Z)))
    (t idx : Z) :
  uniform_table v tab -> write_cell tab t idx v = Ok tab' ->
  uniform_table v tab'.
Proof.
  unfold write_cell, uniform_table. intros Htab.
  destruct (_ || _); [done|].
  destruct (tab !! Z.to_nat t) as [row|] eqn:Hrow; [|done].
  destruct (_ <? _)%nat; [|done]. intros [= <-].
  apply Forall_insert; [done|]. apply Forall_insert; [|by right].
  by apply (Forall_lookup_1 _ _ _ _ Htab Hrow).
Qed.

Lemma foldM_invariant {A S : Type} (P : S -> Prop)
    (body : S -> A -> result S) (xs : list A) :
  (forall s x s', P s -> body s x = Ok s' -> P s') ->
  forall s s', P s -> foldM body xs s = Ok s' -> P s'.
Proof.
  intros Hbody. induction xs as [|x xs IH]; intros s s' Hs.
  - by intros [= <-].
  - intros (s1 & Hs1 & Hrest)%foldM_cons_ok. eauto.
Qed.

(** The second half of C9, for a graph whose table was allocated: when
    [output_bytes_per_task] is 16 or [output_case] is 0, [allocate_bytes]
    writes nothing but [output_bytes_per_task]. *)
Lemma allocate_bytes_uniform (sample_histogram : TaskGraph -> Z -> list Z)
    (g g' : TaskGraph) (tab : list (list (option Z))) :
  output_bytes_size g = Some tab ->
  uniform_table (output_bytes_per_task g) tab ->
  output_bytes_per_task g = 16 \/ output_case g = 0 ->
  allocate_bytes sample_histogram g = Ok g' ->
  exists tab', output_bytes_size g' = Some tab'
               /\ uniform_table (output_bytes_per_task g) tab'.
Proof.
  intros Htab Hfresh Hcase. unfold allocate_bytes. rewrite Htab.
  intros (tab' & Hfill & [= <-])%bind_ok. exists tab'. split; [done|].
  revert Hfill. destruct (Z.eqb_spec (output_bytes_per_task g) 16) as [E|E].
  - rewrite E in *. apply foldM_invariant; [|done].
    intros s t s' Hs. apply foldM_invariant; [|done].
    intros s0 i s0' Hs0. by apply write_cell_uniform.
  - destruct Hcase as [?|Hcase]; [done|].
    apply foldM_invariant; [|done].
    intros s t s' Hs. unfold allocate_row. rewrite Hcase. simpl.
    intros (s1 & Hs1 & [= <-])%bind_ok. revert Hs1.
    apply foldM_invariant; [|done].
    intros s0 i s0' Hs0. by apply write_cell_uniform.
Qed.

(** C9: on the command line [task_bench -and] the constructor returns two
    graphs; the table of the graph closed by [-and] was never allocated,
    only the last graph has its table, filled with 16. *)
Theorem and_flag_leaves_table_unallocated
    (random_uniform : list Z -> Q)
    (sample_histogram : TaskGraph -> Z -> list Z) (atof : string -> Q) :
  exists app,
    App_ctor random_uniform sample_histogram atof ["task_bench"; "-and"]
    = Ok app
    /\ map output_bytes_size (graphs app)
       = [None; Some (replicate 4 (replicate 4 (Some 16)))].
Proof. eexists. split; [vm_compute; reflexivity | reflexivity]. Qed.

(** * Further properties of the code *)

(** Arithmetic with truncating quotients and remainders. *)
Ltac euclid := Z.to_euclidean_division_equations; lia.

Section GraphModel.

Variable random_uniform : list Z -> Q.

Lemma row_not_empty (g : TaskGraph) (t : Z) :
  1 <= max_width g -> 0 <= t < timesteps g ->
  0 <= offset_at_timestep g t
  /\ 1 <= width_at_timestep g t
  /\ offset_at_timestep g t + width_at_timestep g t <= max_width g.
Proof.
  intros HW Ht. unfold offset_at_timestep, width_at_timestep.
  destruct (Z.ltb_spec t 0); [lia|].
  assert (1 <= Z.shiftl 1 (Z.min t 62)).
  { rewrite shiftl_1_pow by lia.
    pose proof (Z.pow_pos_nonneg 2 (Z.min t 62)). lia. }
  destruct (dependence g); lia.
Qed.

(** X1: in a graph of width at least 1, every row of a timestep in
    [[0, timesteps)] starts at a non-negative offset, holds at least one
    point and ends inside the graph: [offset + width <= max_width]. *)
Theorem rows_inside_graph (g : TaskGraph) (t : Z) :
  1 <= max_width g -> 0 <= t < timesteps g ->
  0 <= offset_at_timestep g t
  /\ 1 <= width_at_timestep g t
  /\ offset_at_timestep g t + width_at_timestep g t <= max_width g.
Proof. apply row_not_empty. Qed.

(** X2: the dependence set repeats with [timestep_period]: for a
    non-negative timestep and a non-negative number of dependence sets,
    [dependence_set_at_timestep(t + timestep_period())] is
    [dependence_set_at_timestep(t)] (the same error when there is no
    dependence set). *)
Theorem dependence_set_periodic (g : TaskGraph) (t : Z) :
  0 <= t -> 0 <= max_dependence_sets g ->
  dependence_set_at_timestep g (t + timestep_period g)
  = dependence_set_at_timestep g t.
Proof.
  intros Ht. unfold dependence_set_at_timestep, timestep_period, cpp_mod.
  generalize (max_dependence_sets g). intros m Hm.
  destruct (Z.eqb_spec m 0) as [->|Hm0].
  - by destruct (dependence g).
  - destruct (dependence g); try done; f_equal;
      rewrite !Z.rem_mod_nonneg by lia.
    + replace (t + m + m - 1) with (t + m - 1 + 1 * m) by lia.
      apply Z_mod_plus_full.
    + replace (t + m) with (t + 1 * m) by lia. apply Z_mod_plus_full.
    + replace (t + m) with (t + 1 * m) by lia. apply Z_mod_plus_full.
    + replace (t + m) with (t + 1 * m) by lia. apply Z_mod_plus_full.
Qed.

(** X3: where a graph has at least one dependence set,
    [dependence_set_at_timestep] returns at every non-negative timestep,
    and what it returns lies in [[0, max_dependence_sets)]. *)
Theorem dependence_set_selected (g : TaskGraph) (t : Z) :
  1 <= max_dependence_sets g -> 0 <= t ->
  exists dset, dependence_set_at_timestep g t = Ok dset
               /\ 0 <= dset < max_dependence_sets g.
Proof. apply dependence_set_in_range. Qed.

Lemma int_shl1_exact (dset : Z) : 0 <= dset < 31 -> int_shl1 dset = 2 ^ dset.
Proof.
  intros H. unfold int_shl1, to_int. rewrite shiftl_1_pow by lia.
  assert (0 < 2 ^ dset <= 2 ^ 30)
    by (split; [apply Z.pow_pos_nonneg; lia | apply Z.pow_le_mono_r; lia]).
  rewrite Z.mod_small; lia.
Qed.

Lemma rn_scan_inside (include : Z -> bool) (first last_i W : Z) :
  0 <= first -> last_i <= W - 1 ->
  Forall (inside_graph W) (rn_scan include first last_i).
Proof.
  intros Hf Hl.
  destruct (rn_scan_spec include first last_i Hf) as (Hcov & Hne & _).
  apply Forall_forall. intros iv Hiv.
  pose proof (proj1 (Forall_forall _ _) Hne iv Hiv) as Hle. simpl in Hle.
  assert (H1 : covered (rn_scan include first last_i) (fst iv)).
  { apply Exists_exists. exists iv. split; [done | lia]. }
  assert (H2 : covered (rn_scan include first last_i) (snd iv)).
  { apply Exists_exists. exists iv. split; [done | lia]. }
  apply Hcov in H1, H2. unfold inside_graph. lia.
Qed.

(** X4: for a point of a graph of width at least 1 with a non-negative
    radix and a non-negative dependence set (below 31 for FFT, where
    [1 << dset] is an [int]), every interval that [dependencies] writes is
    non-empty and lies inside [[0, max_width - 1]]. *)
Theorem dependencies_inside_graph (g : TaskGraph) (dset p : Z)
    (l : list interval) :
  1 <= max_width g -> 0 <= radix g -> 0 <= dset ->
  (dependence g = FFT -> dset < 31) ->
  0 <= p < max_width g ->
  dependencies random_uniform g dset p = Ok l ->
  Forall (inside_graph (max_width g)) l.
Proof.
  intros HW HR Hs Hfft Hp. unfold dependencies.
  destruct (dependence g) eqn:Ed; intros Hl;
    try (destruct (Z.eqb_spec (max_width g) 0) as [?|_]; [lia|];
         rewrite andb_false_r in Hl);
    try discriminate; try (injection Hl as <-); unfold inside_graph.
  - done.
  - repeat constructor; simpl; lia.
  - repeat constructor; simpl; lia.
  - destruct (_ <? 0); destruct (_ >=? _); repeat constructor; simpl; lia.
  - repeat constructor; simpl; lia.
  - repeat constructor; simpl; euclid.
  - rewrite int_shl1_exact by (specialize (Hfft eq_refl); lia).
    pose proof (Z.pow_pos_nonneg 2 dset).
    destruct (Z.geb_spec (p - 2 ^ dset) 0);
      destruct (Z.ltb_spec (p + 2 ^ dset) (max_width g));
      repeat constructor; simpl; lia.
  - repeat constructor; simpl; lia.
  - destruct (radix g >? 0); injection Hl as <-; repeat constructor; simpl;
      euclid.
  - apply Forall_forall. intros iv Hiv%list_elem_of_In%in_map_iff.
    destruct Hiv as (i & <- & Hi%list_elem_of_In%elem_of_seqZ). simpl.
    assert (0 <= i * max_width g) by nia.
    assert (0 <= (i * max_width g) `quot` radix g)
      by (rewrite Z.quot_div_nonneg by lia; apply Z.div_pos; lia).
    assert (0 <= (if i >? 0 then dset else 0)) by (destruct (i >? 0); lia).
    pose proof (Z.rem_bound_pos
                  (p + (i * max_width g) `quot` radix g
                   + (if i >? 0 then dset else 0)) (max_width g)
                  ltac:(lia) ltac:(lia)).
    lia.
  - apply rn_scan_inside; lia.
Qed.

(** X5: under the same conditions every interval that
    [reverse_dependencies] writes is non-empty and lies inside
    [[0, max_width - 1]]. *)
Theorem reverse_dependencies_inside_graph (g : TaskGraph) (dset p : Z)
    (l : list interval) :
  1 <= max_width g -> 0 <= radix g -> 0 <= dset ->
  (dependence g = FFT -> dset < 31) ->
  0 <= p < max_width g ->
  reverse_dependencies random_uniform g dset p = Ok l ->
  Forall (inside_graph (max_width g)) l.
Proof.
  intros HW HR Hs Hfft Hp. unfold reverse_dependencies.
  destruct (dependence g) eqn:Ed; intros Hl;
    try (destruct (Z.eqb_spec (max_width g) 0) as [?|_]; [lia|];
         rewrite andb_false_r in Hl);
    try discriminate; try (injection Hl as <-); unfold inside_graph.
  - done.
  - repeat constructor; simpl; lia.
  - repeat constructor; simpl; lia.
  - destruct (_ <? 0); destruct (_ >=? _); repeat constructor; simpl; lia.
  - repeat constructor; simpl; lia.
  - destruct (Z.ltb_spec (p * 2) (max_width g));
      destruct (Z.ltb_spec (p * 2 + 1) (max_width g)); simpl in Hl;
      injection Hl as <-; repeat constructor; simpl; lia.
  - rewrite int_shl1_exact by (specialize (Hfft eq_refl); lia).
    pose proof (Z.pow_pos_nonneg 2 dset).
    destruct (Z.geb_spec (p - 2 ^ dset) 0);
      destruct (Z.ltb_spec (p + 2 ^ dset) (max_width g));
      repeat constructor; simpl; lia.
  - repeat constructor; simpl; lia.
  - destruct (radix g >? 0); injection Hl as <-; repeat constructor; simpl;
      euclid.
  - apply Forall_forall. intros iv Hiv%list_elem_of_In%in_map_iff.
    destruct Hiv as (i & <- & _). cbv zeta. rewrite rem_wrap by lia. simpl.
    pose proof (Z.mod_pos_bound
                  (p - (i * max_width g) `quot` radix g
                   - (if i >? 0 then dset else 0)) (max_width g) ltac:(lia)).
    lia.
  - apply rn_scan_inside; lia.
Qed.

(** X6: unless the pattern is RANDOM_NEAREST with radix 0, the buffers
    that the [std::vector] overloads size with [num_dependencies] and
    [num_reverse_dependencies] are large enough: the overloads return
    exactly what [dependencies] and [reverse_dependencies] write, and end
    in the same error when these do. *)
Theorem dependency_buffers_suffice (g : TaskGraph) (dset p : Z) :
  0 <= radix g < 2 ^ 63 ->
  (dependence g = RANDOM_NEAREST -> 0 < radix g) ->
  dependencies_vector random_uniform g dset p
  = dependencies random_uniform g dset p
  /\ reverse_dependencies_vector random_uniform g dset p
     = reverse_dependencies random_uniform g dset p.
Proof.
  intros HR Hrn. split.
  - unfold dependencies_vector.
    destruct (dependencies random_uniform g dset p) as [l| | | | |] eqn:Hl.
    + destruct (dependencies_count_bound random_uniform g dset p l HR Hrn Hl)
        as (n & -> & Hle).
      unfold written_into. simpl.
      replace (_ <=? n) with true by (symmetry; apply Z.leb_le; lia). done.
    + revert Hl. unfold dependencies, num_dependencies.
      destruct (dependence g); try done; by repeat destruct (_ >? 0).
    + revert Hl. unfold dependencies, num_dependencies.
      destruct (dependence g); try done; by repeat destruct (_ >? 0).
    + revert Hl. unfold dependencies, num_dependencies.
      destruct (dependence g); try done; by repeat destruct (_ >? 0).
    + revert Hl. unfold dependencies, num_dependencies.
      destruct (dependence g); try done; by repeat destruct (_ >? 0).
    + revert Hl. unfold dependencies, num_dependencies.
      destruct (dependence g); try done; by repeat destruct (_ >? 0).
  - unfold reverse_dependencies_vector.
    destruct (reverse_dependencies random_uniform g dset p)
      as [l| | | | |] eqn:Hl.
    + destruct (reverse_dependencies_count_bound random_uniform g dset p l
                  HR Hrn Hl) as (n & -> & Hle).
      unfold written_into. simpl.
      replace (_ <=? n) with true by (symmetry; apply Z.leb_le; lia). done.
    + revert Hl. unfold reverse_dependencies, num_reverse_dependencies.
      destruct (dependence g); try done; by repeat destruct (_ >? 0).
    + revert Hl. unfold reverse_dependencies, num_reverse_dependencies.
      destruct (dependence g); try done; by repeat destruct (_ >? 0).
    + revert Hl. unfold reverse_dependencies, num_reverse_dependencies.
      destruct (dependence g); try done; by repeat destruct (_ >? 0).
    + revert Hl. unfold reverse_dependencies, num_reverse_dependencies.
      destruct (dependence g); try done; by repeat destruct (_ >? 0).
    + revert Hl. unfold reverse_dependencies, num_reverse_dependencies.
      destruct (dependence g); try done; by repeat destruct (_ >? 0).
Qed.

End GraphModel.

Section RandomNearest.

Variable random_uniform : list Z -> Q.

Lemma lt_double_false (x y : Q) : (y <= x)%Q -> lt_double x y = false.
Proof.
  intros Hxy. unfold lt_double. apply negb_false_iff. by apply Qle_bool_iff.
Qed.

(** X7: in a RANDOM_NEAREST graph with a positive radix every point of
    the graph is among its own dependencies and among its own reverse
    dependencies, whatever the hash returns. *)
Theorem random_nearest_keeps_self (g : TaskGraph) (dset p : Z) :
  dependence g = RANDOM_NEAREST -> 0 < radix g -> 0 <= p < max_width g ->
  exists deps rdeps,
    dependencies random_uniform g dset p = Ok deps
    /\ reverse_dependencies random_uniform g dset p = Ok rdeps
    /\ covered deps p /\ covered rdeps p.
Proof.
  intros Hd HR Hp. unfold dependencies, reverse_dependencies. rewrite Hd.
  do 2 eexists. do 2 (split; [reflexivity|]).
  assert (Hgt : (radix g >? 0) = true) by (apply Z.gtb_lt; lia).
  split; apply rn_scan_spec; try lia.
  - split; [euclid|]. unfold include_forward.
    rewrite Hgt, Z.eqb_refl. apply orb_true_r.
  - split; [euclid|]. unfold include_reverse.
    rewrite Hgt, Z.eqb_refl. apply orb_true_r.
Qed.

(** X8: in a RANDOM_NEAREST graph with a positive radix, when the hash
    never falls below [fraction_connected] (as with [-fraction 0]), the
    dependencies of a point cover that point and nothing else. *)
Theorem random_nearest_unconnected (g : TaskGraph) (dset p q : Z) :
  dependence g = RANDOM_NEAREST -> 0 < radix g -> 0 <= p < max_width g ->
  (forall key, (fraction_connected g <= random_uniform key)%Q) ->
  exists deps,
    dependencies random_uniform g dset p = Ok deps
    /\ (covered deps q <-> q = p).
Proof.
  intros Hd HR Hp Hfc. unfold dependencies. rewrite Hd.
  eexists. split; [reflexivity|].
  destruct (rn_scan_spec (include_forward random_uniform g dset p)
              (Z.max 0 (p - radix g `quot` 2))
              (Z.min (p + (radix g - 1) `quot` 2) (max_width g - 1))
              ltac:(lia)) as (-> & _).
  unfold include_forward. rewrite lt_double_false by apply Hfc.
  replace (radix g >? 0) with true by (symmetry; apply Z.gtb_lt; lia).
  simpl. split.
  - intros [_ ?%Z.eqb_eq]. done.
  - intros ->. split; [euclid | apply Z.eqb_refl].
Qed.

Lemma rn_fold_all (include : Z -> bool) (n : nat) :
  forall (i rs : Z),
    0 <= rs ->
    (forall j, i <= j < i + Z.of_nat n -> include j = true) ->
    fold_left (rn_step include) (seqZ i (Z.of_nat n)) ([], rs) = ([], rs).
Proof.
  induction n as [|n IH]; intros i rs Hrs Hall; [done|].
  rewrite seqZ_cons by lia. simpl fold_left.
  replace (Z.pred (Z.of_nat (S n))) with (Z.of_nat n) by lia.
  rewrite Hall by lia.
  destruct (Z.ltb_spec rs 0); [lia|].
  apply IH; [done|]. intros j Hj. apply Hall. lia.
Qed.

Lemma rn_scan_all (include : Z -> bool) (first last_i : Z) :
  0 <= first <= last_i ->
  (forall j, first <= j <= last_i -> include j = true) ->
  rn_scan include first last_i = [(first, last_i)].
Proof.
  intros Hf Hall. unfold rn_scan, range_incl.
  rewrite seqZ_cons by lia. simpl fold_left. rewrite Hall by lia. simpl.
  replace (Z.pred (last_i - first + 1))
    with (Z.of_nat (Z.to_nat (last_i - first))) by lia.
  rewrite rn_fold_all; [| lia | intros j Hj; apply Hall; lia].
  destruct (Z.geb_spec first 0); [|lia].
  simpl. do 2 f_equal. lia.
Qed.

(** X9: in a RANDOM_NEAREST graph with a positive radix, when the hash
    always falls below [fraction_connected], [dependencies] and
    [reverse_dependencies] return what they return for the NEAREST pattern
    with the same parameters: the whole window as one interval. *)
Theorem random_nearest_fully_connected (g : TaskGraph) (dset p : Z) :
  dependence g = RANDOM_NEAREST -> 0 < radix g -> 0 <= p < max_width g ->
  (forall key, (random_uniform key < fraction_connected g)%Q) ->
  dependencies random_uniform g dset p
  = dependencies random_uniform (set_dependence NEAREST g) dset p
  /\ reverse_dependencies random_uniform g dset p
     = reverse_dependencies random_uniform (set_dependence NEAREST g) dset p.
Proof.
  intros Hd HR Hp Hfc. unfold dependencies, reverse_dependencies.
  rewrite Hd. simpl.
  replace (radix g >? 0) with true by (symmetry; apply Z.gtb_lt; lia).
  split; f_equal; apply rn_scan_all; try euclid; intros j _.
  - unfold include_forward. by rewrite lt_double_true by apply Hfc.
  - unfold include_reverse. by rewrite lt_double_true by apply Hfc.
Qed.

Lemma separated_nil : separated [].
Proof. intros i j a b _ Ha. done. Qed.

Lemma separated_snoc (l : list interval) (x : interval) :
  separated l -> Forall (fun iv : interval => snd iv + 1 < fst x) l ->
  separated (l ++ [x]).
Proof.
  intros Hl Hx i j a b Hij Ha Hb.
  assert (Hj : (j < length (l ++ [x]))%nat) by (by apply lookup_lt_Some in Hb).
  rewrite length_app in Hj. simpl in Hj.
  rewrite lookup_app_l in Ha by lia.
  destruct (decide (j < length l)%nat) as [Hjl|Hjl].
  - rewrite lookup_app_l in Hb by done. by apply (Hl i j).
  - rewrite lookup_app_r in Hb by lia.
    replace (j - length l)%nat with 0%nat in Hb by lia.
    injection Hb as <-.
    by apply (proj1 (Forall_lookup _ _) Hx i a).
Qed.

Lemma rn_step_gap (include : Z -> bool) (i : Z) (st : list interval * Z) :
  0 <= i -> rn_gap i st -> rn_gap (i + 1) (rn_step include st i).
Proof.
  intros Hi. destruct st as [deps rs]. unfold rn_gap, rn_step. simpl.
  intros (Hsep & Hends & Hrs).
  destruct (include i); destruct (Z.ltb_spec rs 0) as [Hneg|Hpos];
    destruct (Z.geb_spec rs 0) as [Hpos'|Hneg']; try lia; simpl.
  - destruct (Z.geb_spec i 0); [|lia]. split; [done|]. split; [done | lia].
  - destruct (Z.geb_spec rs 0); [|lia]. split; [done|]. split; [done | lia].
  - split; [done|]. split; [|lia].
    eapply Forall_impl; [exact Hends|]. simpl. intros iv ?. lia.
  - split; [by apply separated_snoc|]. split; [|lia].
    apply Forall_app. split.
    + eapply Forall_impl; [exact Hends|]. simpl. intros iv ?. lia.
    + repeat constructor. simpl. lia.
Qed.

Lemma rn_fold_gap (include : Z -> bool) (n : nat) :
  forall (i : Z) (st : list interval * Z),
    0 <= i -> rn_gap i st ->
    rn_gap (i + Z.of_nat n)
      (fold_left (rn_step include) (seqZ i (Z.of_nat n)) st).
Proof.
  induction n as [|n IH]; intros i st Hi Hinv.
  - simpl. by rewrite Z.add_0_r.
  - rewrite seqZ_cons by lia. simpl fold_left.
    replace (Z.pred (Z.of_nat (S n))) with (Z.of_nat n) by lia.
    replace (i + Z.of_nat (S n)) with (Z.succ i + Z.of_nat n) by lia.
    apply IH; [lia|]. replace (Z.succ i) with (i + 1) by lia.
    by apply rn_step_gap.
Qed.

Lemma rn_scan_separated (include : Z -> bool) (first last_i : Z) :
  0 <= first -> separated (rn_scan include first last_i).
Proof.
  intros Hf. unfold rn_scan, range_incl.
  destruct (Z.le_gt_cases (last_i - first + 1) 0) as [Hempty|Hsome].
  - rewrite seqZ_nil by done. simpl. apply separated_nil.
  - pose proof (rn_fold_gap include (Z.to_nat (last_i - first + 1)) first
                  ([], -1) Hf) as Hinv.
    rewrite Z2Nat.id in Hinv by lia.
    destruct (fold_left _ _ _) as [deps rs].
    destruct Hinv as (Hsep & Hends & Hrs).
    { split; [apply separated_nil|]. simpl. split; [done | lia]. }
    simpl in *. destruct (Z.geb_spec rs 0); [|done].
    by apply separated_snoc.
Qed.

(** X10: the intervals that the RANDOM_NEAREST arms of [dependencies]
    and [reverse_dependencies] write are in increasing order and any two of
    them are separated by at least one point: runs of connected candidates
    are never split and never overlap. *)
Theorem random_nearest_runs_separated (g : TaskGraph) (dset p : Z)
    (l : list interval) :
  dependence g = RANDOM_NEAREST ->
  dependencies random_uniform g dset p = Ok l
  \/ reverse_dependencies random_uniform g dset p = Ok l ->
  separated l.
Proof.
  intros Hd. unfold dependencies, reverse_dependencies. rewrite Hd.
  intros [[= <-]|[= <-]]; apply rn_scan_separated; lia.
Qed.

End RandomNearest.

Section Spread.

Variable random_uniform : list Z -> Q.

(** The offsets [floor(i * W / R) + (i > 0 ? dset : 0)] that SPREAD adds to
    the point grow with [i] and stay below [W]. *)
Lemma spread_offsets_increase (W R P dset i j : Z) :
  1 <= R <= W -> P <= (W + R - 1) `quot` R -> 0 <= dset < P ->
  0 <= i < j -> j < R ->
  0 <= (i * W) `quot` R + (if i >? 0 then dset else 0)
  /\ (i * W) `quot` R + (if i >? 0 then dset else 0)
     < (j * W) `quot` R + (if j >? 0 then dset else 0)
  /\ (j * W) `quot` R + (if j >? 0 then dset else 0) <= W - 1.
Proof.
  intros HR HP Hs Hij HjR.
  assert (0 <= i * W) by nia. assert (0 <= j * W) by nia.
  rewrite !Z.quot_div_nonneg in * by lia.
  pose proof (Z.div_mod (i * W) R ltac:(lia)) as Ei.
  pose proof (Z.mod_pos_bound (i * W) R ltac:(lia)) as Bi.
  pose proof (Z.div_mod (j * W) R ltac:(lia)) as Ej.
  pose proof (Z.mod_pos_bound (j * W) R ltac:(lia)) as Bj.
  pose proof (Z.div_mod (W + R - 1) R ltac:(lia)) as Es.
  pose proof (Z.mod_pos_bound (W + R - 1) R ltac:(lia)) as Bs.
  set (qi := (i * W) `div` R) in *. set (qj := (j * W) `div` R) in *.
  set (qs := (W + R - 1) `div` R) in *.
  assert (Hstep : i * W + W <= j * W) by nia.
  assert (Hlast : j * W <= R * W - W) by nia.
  assert (Hqi : 0 <= qi) by (apply Z.div_pos; lia).
  assert (Hlt : qi < qj) by nia.
  assert (Hend : qj + qs <= W) by nia.
  destruct (Z.gtb_spec i 0); destruct (Z.gtb_spec j 0); lia.
Qed.

Lemma rem_below_twice (x W : Z) :
  0 < W -> 0 <= x < 2 * W -> x `rem` W = if x <? W then x else x - W.
Proof.
  intros HW Hx. rewrite Z.rem_mod_nonneg by lia.
  destruct (Z.ltb_spec x W).
  - apply Z.mod_small. lia.
  - symmetry. apply Z.mod_unique_pos with (q := 1); lia.
Qed.

(** X11: in a SPREAD graph whose radix is between 1 and [max_width] and
    whose period passes the test of [App::check] (at most
    [ceil(max_width / radix)]), [dependencies] gives every point of the
    graph exactly [radix] dependencies, and they are pairwise different
    points. *)
Theorem spread_dependencies_distinct (g : TaskGraph) (dset p : Z)
    (l : list interval) :
  dependence g = SPREAD -> 1 <= radix g <= max_width g ->
  check_period g = Ok tt -> 0 <= dset < max_dependence_sets g ->
  0 <= p < max_width g ->
  dependencies random_uniform g dset p = Ok l ->
  Z.of_nat (length l) = radix g /\ NoDup (map fst l).
Proof.
  intros Hd HR Hc Hs Hp. unfold dependencies. rewrite Hd.
  destruct (Z.eqb_spec (max_width g) 0) as [?|_]; [lia|].
  rewrite andb_false_r. intros [= <-].
  apply check_period_accepts in Hc as (_ & _ & HP). specialize (HP Hd).
  unfold max_dependence_sets in Hs. rewrite Hd in Hs.
  split. { rewrite length_map, length_range_excl. lia. }
  rewrite map_map. simpl.
  apply (NoDup_fmap_2_strong
           (fun i => (p + (i * max_width g) `quot` radix g
                      + (if i >? 0 then dset else 0)) `rem` max_width g));
    [|apply NoDup_seqZ].
  intros i j Hi%elem_of_seqZ Hj%elem_of_seqZ Heq.
  destruct (Z.lt_trichotomy i j) as [Hij|[?|Hji]]; [|done|]; exfalso.
  - destruct (spread_offsets_increase (max_width g) (radix g) (period g) dset
                i j) as (H0 & Hlt & Hend); try lia.
    rewrite !rem_below_twice in Heq by lia.
    repeat destruct (_ <? max_width g) in Heq; lia.
  - destruct (spread_offsets_increase (max_width g) (radix g) (period g) dset
                j i) as (H0 & Hlt & Hend); try lia.
    rewrite !rem_below_twice in Heq by lia.
    repeat destruct (_ <? max_width g) in Heq; lia.
Qed.

End Spread.

Section ExecutePoint.

Variable random_uniform : list Z -> Q.

Lemma lbind_ok {A B : Type} (m : logged A) (f : A -> logged B)
    (log : list corruption) (b : B) :
  lbind m f = (log, Ok b) ->
  exists l1 a l2, m = (l1, Ok a) /\ f a = (l2, Ok b) /\ log = l1 ++ l2.
Proof.
  destruct m as [l1 [a| | | | |]]; simpl; try (intros [= _ ?]; discriminate).
  destruct (f a) as [l2 r] eqn:Hf. intros [= <- ->]. by exists l1, a, l2.
Qed.

Lemma lift_ok {A : Type} (m : result A) (log : list corruption) (a : A) :
  lift m = (log, Ok a) -> log = [] /\ m = Ok a.
Proof. unfold lift. by intros [= <- ->]. Qed.

Lemma validate_records_inv (g : TaskGraph) (timestep point dep idx : Z)
    (input : buffer) (log : list corruption) :
  validate_records g timestep point dep idx input = (log, Ok tt) ->
  log = []
  /\ forallb (fun i => bool_decide
                         (slots input !! Z.to_nat i = Some (timestep - 1, dep)))
       (range_excl 0 (bytes input `quot` sizeof_pair)) = true.
Proof.
  unfold validate_records.
  induction (range_excl 0 (bytes input `quot` sizeof_pair)) as [|i xs IH].
  - by intros [= <-].
  - rewrite lfold_cons.
    destruct (slots input !! Z.to_nat i) as [[first second]|] eqn:Hi;
      [|by intros [= _ ?]].
    destruct (Z.eqb_spec first (timestep - 1)) as [->|?];
      [destruct (Z.eqb_spec second dep) as [->|?]|];
      cbn [negb orb assert]; unfold lift, lret, tell;
      try (simpl; by intros [= _ ?]).
    rewrite !lbind_pure. intros [-> Hall]%IH. split; [done|].
    simpl. rewrite Hall, andb_true_r. by apply bool_decide_eq_true_2.
Qed.

(** X12: when record [i] of an input buffer is the first that differs
    from [(timestep - 1, dep)], the inner loop of [execute_point] reports
    exactly that record as corrupted (graph, task, input index, position,
    expected and actual record) and then fails an assertion. *)
Theorem validate_records_reports_first (g : TaskGraph)
    (timestep point dep idx : Z) (input : buffer) (i : Z) (rec : Z * Z) :
  0 <= i < bytes input `quot` sizeof_pair ->
  (forall j, 0 <= j < i ->
     slots input !! Z.to_nat j = Some (timestep - 1, dep)) ->
  slots input !! Z.to_nat i = Some rec -> rec <> (timestep - 1, dep) ->
  exists what,
    validate_records g timestep point dep idx input
    = ([mkCorruption (graph_index g) timestep point idx i
          (timestep - 1, dep) rec], AssertFail what).
Proof.
  intros Hi Hpre Hrec Hne. unfold validate_records, range_excl.
  replace (bytes input `quot` sizeof_pair - 0)
    with (i + (bytes input `quot` sizeof_pair - i)) by lia.
  rewrite seqZ_app by lia. rewrite Z.add_0_l.
  rewrite (seqZ_cons i) by lia.
  generalize (seqZ (Z.succ i) (Z.pred (bytes input `quot` sizeof_pair - i))).
  intros post.
  assert (Hall : Forall (fun j => 0 <= j < i) (seqZ 0 i)).
  { apply Forall_forall. intros j Hj%elem_of_seqZ. lia. }
  induction Hall as [|j pre Hj _ IH].
  - simpl app. rewrite lfold_cons, Hrec. destruct rec as [first second].
    destruct (Z.eqb_spec first (timestep - 1)) as [->|?];
      [destruct (Z.eqb_spec second dep) as [->|?]; [done|]|];
      cbn [negb orb assert]; unfold lift, lret, tell; simpl; by eexists.
  - simpl app. rewrite lfold_cons, (Hpre j Hj), !Z.eqb_refl.
    cbn [negb orb assert]. unfold lift, lret. rewrite !lbind_pure. apply IH.
Qed.

Section ValidationExact.

Variables (g : TaskGraph) (timestep point : Z) (inputs : list buffer).

Let in_last_row (dep : Z) : Prop :=
  offset_at_timestep g (timestep - 1) <= dep
  < offset_at_timestep g (timestep - 1) + width_at_timestep g (timestep - 1).

Let served (idx : Z) (ds : list Z) : Prop :=
  forall (k : nat) (d : Z), ds !! k = Some d ->
    exists b, inputs !! (Z.to_nat idx + k)%nat = Some b
              /\ payload_ok (timestep - 1) d b = true.

Lemma validate_dep_inv (idx dep : Z) (log : list corruption) (idx' : Z) :
  validate_dep g timestep point inputs idx dep = (log, Ok idx') ->
  log = []
  /\ ((in_last_row dep /\ idx' = idx + 1
       /\ exists b, inputs !! Z.to_nat idx = Some b
                    /\ payload_ok (timestep - 1) dep b = true)
      \/ (~ in_last_row dep /\ idx' = idx)).
Proof.
  unfold validate_dep, in_last_row.
  destruct (Z.leb_spec (offset_at_timestep g (timestep - 1)) dep) as [Hlo|Hlo];
    destruct (Z.ltb_spec dep (offset_at_timestep g (timestep - 1)
                              + width_at_timestep g (timestep - 1)))
      as [Hhi|Hhi];
    cbn [andb]; try (intros [= <- <-]; split; [done|]; right; split; [lia|done]).
  intros (l1 & [] & l2 & [-> _]%lift_ok & H & ->)%lbind_ok.
  destruct (inputs !! Z.to_nat idx) as [b|] eqn:Hb; [|discriminate H].
  apply lbind_ok in H as (l3 & [] & l4 & [-> Hby%assert_ok]%lift_ok & H & ->).
  apply lbind_ok in H as (l5 & [] & l6 & [-> Hrec]%validate_records_inv & H & ->).
  injection H as <- <-. split; [done|]. left. split; [lia|]. split; [done|].
  exists b. split; [done|]. unfold payload_ok. rewrite Hrec, andb_true_r.
  apply Z.geb_le in Hby. by apply Z.leb_le.
Qed.

Lemma validate_dep_fold_inv (xs : list Z) :
  forall idx log idx', 0 <= idx ->
    lfold (validate_dep g timestep point inputs) xs idx = (log, Ok idx') ->
    log = []
    /\ idx' = idx + Z.of_nat (length (filter in_last_row xs))
    /\ served idx (filter in_last_row xs).
Proof.
  induction xs as [|x xs IH]; intros idx log idx' Hidx.
  - intros [= <- <-]. split; [done|]. split; [simpl; lia|]. by intros k d ?.
  - rewrite lfold_cons.
    intros (l1 & idx1 & l2 & [-> Hx]%validate_dep_inv & Hrest & ->)%lbind_ok.
    destruct Hx as [(Hin & -> & b & Hb & Hpay)|(Hout & ->)].
    + apply IH in Hrest as (-> & -> & Hs); [|lia]. split; [done|].
      rewrite filter_cons_True by done. split; [simpl length; lia|].
      intros [|k] d Hk.
      * injection Hk as <-. exists b. by rewrite Nat.add_0_r.
      * destruct (Hs k d Hk) as (b' & Hb' & Hpay'). exists b'.
        split; [|done]. rewrite <- Hb'. f_equal. lia.
    + apply IH in Hrest as (-> & -> & Hs); [|lia].
      by rewrite filter_cons_False by done.
Qed.

Lemma validate_span_fold_inv (deps : list interval) :
  forall idx log idx', 0 <= idx ->
    lfold (fun idx (span : interval) =>
             lfold (validate_dep g timestep point inputs)
               (range_incl (fst span) (snd span)) idx) deps idx
    = (log, Ok idx') ->
    log = []
    /\ served idx
         (filter in_last_row
            (flat_map (fun span : interval => range_incl (fst span) (snd span))
               deps)).
Proof.
  induction deps as [|span deps IH]; intros idx log idx' Hidx.
  - intros [= <- <-]. split; [done|]. by intros k d ?.
  - rewrite lfold_cons.
    intros (l1 & idx1 & l2 & Hspan & Hrest & ->)%lbind_ok.
    apply validate_dep_fold_inv in Hspan as (-> & -> & Hs1); [|done].
    apply IH in Hrest as (-> & Hs2); [|lia]. split; [done|].
    simpl flat_map. rewrite filter_app. intros k d Hk.
    destruct (decide (k < length (filter in_last_row
                                    (range_incl (fst span) (snd span))))%nat)
      as [Hlt|Hge].
    + rewrite lookup_app_l in Hk by done. by apply Hs1.
    + rewrite lookup_app_r in Hk by lia.
      destruct (Hs2 _ d Hk) as (b & Hb & Hpay). exists b. split; [|done].
      rewrite <- Hb. f_equal. lia.
Qed.

End ValidationExact.

(** X13: the head of [execute_point] runs through only if every
    required dependency of the point has its input buffer, of at least 16
    bytes and holding only the expected records; and whenever it runs
    through, nothing was reported as corrupted. *)
Theorem execute_point_validation_exact (g : TaskGraph) (timestep point : Z)
    (inputs : list buffer) (log : list corruption) :
  execute_point_validation random_uniform g timestep point inputs
  = (log, Ok tt) ->
  log = [] /\ inputs_ready random_uniform g timestep point inputs = true.
Proof.
  unfold execute_point_validation.
  intros (? & [] & ? & [-> _]%lift_ok & H & ->)%lbind_ok.
  apply lbind_ok in H as (? & [] & ? & [-> _]%lift_ok & H & ->).
  unfold validate_input in H.
  apply lbind_ok in H as (? & dset & ? & [-> Hdset]%lift_ok & H & ->).
  apply lbind_ok in H as (? & n & ? & [-> Hn]%lift_ok & H & ->).
  apply lbind_ok in H as (? & deps & ? & [-> Hdeps]%lift_ok & H & ->).
  apply lbind_ok in H as (? & [] & ? & [-> _]%lift_ok & H & ->).
  apply lbind_ok in H as (? & idx' & ? & Hfold & H & ->).
  injection H as <-.
  apply validate_span_fold_inv in Hfold as (-> & Hs); [|done].
  split; [done|]. unfold inputs_ready, required_inputs.
  rewrite Hdset. cbn [bind]. rewrite Hdeps. cbn [bind]. cbv zeta in Hs.
  set (ds := filter _ _) in *.
  apply andb_true_iff. split.
  - apply Nat.leb_le. destruct (decide (length ds <= length inputs)%nat)
      as [?|Hgt]; [done|]. exfalso.
    destruct (lookup_lt_is_Some_2 ds (length inputs)) as [d Hd]; [lia|].
    destruct (Hs _ d Hd) as (b & Hb%lookup_lt_Some & _). simpl in Hb. lia.
  - apply forallb_forall. intros [d b] Hdb%list_elem_of_In.
    apply list_elem_of_lookup in Hdb as (k & Hk).
    apply lookup_zip_with_Some in Hk as (d' & b' & [= <- <-] & Hd & Hb).
    destruct (Hs k _ Hd) as (b0 & Hb2 & Hpay). simpl in Hb2.
    rewrite Hb in Hb2. by injection Hb2 as <-.
Qed.

Lemma generate_output_loop (v : Z * Z) (xs : list Z) :
  forall l l' : list (Z * Z),
    foldM (fun (out : list (Z * Z)) i =>
             if (Z.to_nat i <? length out)%nat then
               Ok (<[Z.to_nat i := v]> out)
             else Undefined "write outside the output buffer") xs l
    = Ok l' ->
    Forall (fun i => 0 <= i) xs ->
    length l' = length l
    /\ forall k : nat,
         l' !! k = if bool_decide (Z.of_nat k ∈ xs) then Some v else l !! k.
Proof.
  induction xs as [|x xs IH]; intros l l' Hf Hpos.
  - injection Hf as <-. split; [done|]. intros k.
    rewrite bool_decide_eq_false_2; [done|]. apply not_elem_of_nil.
  - apply foldM_cons_ok in Hf as (l1 & Hx & Hf).
    destruct (Nat.ltb_spec (Z.to_nat x) (length l)) as [Hlt|]; [|done].
    injection Hx as <-. apply Forall_cons in Hpos as [Hx0 Hpos].
    destruct (IH _ _ Hf Hpos) as [Hlen Hl']. rewrite length_insert in Hlen.
    split; [done|]. intros k. rewrite Hl'.
    destruct (decide (Z.of_nat k = x)) as [<-|Hne].
    + rewrite Nat2Z.id in *. rewrite list_lookup_insert_eq by done.
      rewrite (bool_decide_eq_true_2 (_ ∈ _ :: _)) by (by left).
      by destruct (bool_decide _).
    + rewrite list_lookup_insert_ne by lia.
      destruct (decide (Z.of_nat k ∈ xs)) as [Hin|Hout].
      * rewrite !bool_decide_eq_true_2; [done | by right | done].
      * rewrite !bool_decide_eq_false_2; [done | | done].
        intros [?|?]%elem_of_cons; done.
Qed.

Lemma generate_output_total (v : Z * Z) (xs : list Z) :
  forall l : list (Z * Z),
    Forall (fun i => (Z.to_nat i < length l)%nat) xs ->
    exists l',
      foldM (fun (out : list (Z * Z)) i =>
               if (Z.to_nat i <? length out)%nat then
                 Ok (<[Z.to_nat i := v]> out)
               else Undefined "write outside the output buffer") xs l
      = Ok l'.
Proof.
  induction xs as [|x xs IH]; intros l Hall; [by eexists|].
  apply Forall_cons in Hall as [Hx Hall]. simpl.
  destruct (Nat.ltb_spec (Z.to_nat x) (length l)); [|lia]. simpl.
  apply IH. by rewrite length_insert.
Qed.

(** X14: whenever [execute_point] returns, the output buffer has its
    size and its number of records unchanged, its first
    [output_bytes / 16] records are [(timestep, point)], and the records
    behind them are as they were. *)
Theorem execute_point_output (g : TaskGraph) (timestep point : Z)
    (output out : buffer) (output_bytes : Z) (inputs : list buffer)
    (scratch_ptr : option (list Z)) (scratch_bytes : Z)
    (log : list corruption) :
  execute_point random_uniform g timestep point output output_bytes inputs
    scratch_ptr scratch_bytes = (log, Ok out) ->
  bytes out = bytes output
  /\ length (slots out) = length (slots output)
  /\ forall k : nat,
       slots out !! k
       = if Z.of_nat k <? output_bytes `quot` sizeof_pair
         then Some (timestep, point) else slots output !! k.
Proof.
  unfold execute_point.
  intros (? & [] & ? & _ & H & ->)%lbind_ok.
  apply lbind_ok in H as (? & [] & ? & [-> Hob%assert_ok]%lift_ok & H & ->).
  apply lbind_ok in H as (? & o & ? & [-> Hgen]%lift_ok & H & ->).
  apply lbind_ok in H as (? & [] & ? & _ & H & ->).
  apply lbind_ok in H as (? & [] & ? & _ & H & ->).
  apply lbind_ok in H as (? & [] & ? & _ & H & ->).
  injection H as _ <-. unfold generate_output in Hgen.
  apply bind_ok in Hgen as (sl & Hfold & [= <-]). simpl.
  apply generate_output_loop in Hfold as [Hlen Hsl].
  - split; [done|]. split; [done|]. intros k. rewrite Hsl.
    destruct (Z.ltb_spec (Z.of_nat k) (output_bytes `quot` sizeof_pair)).
    + rewrite bool_decide_eq_true_2; [done|]. apply elem_of_seqZ. lia.
    + rewrite bool_decide_eq_false_2; [done|]. intros ?%elem_of_seqZ. lia.
  - apply Forall_forall. intros i Hi%elem_of_seqZ. lia.
Qed.

(** What a call of [execute_point] that returns has left in its output
    buffer: at least 16 bytes, and the record [(timestep, point)] in every
    16-byte slot. *)
Lemma execute_point_payload (g : TaskGraph) (timestep point : Z)
    (output out : buffer) (output_bytes : Z) (inputs : list buffer)
    (scratch_ptr : option (list Z)) (scratch_bytes : Z)
    (log : list corruption) :
  execute_point random_uniform g timestep point output output_bytes inputs
    scratch_ptr scratch_bytes = (log, Ok out) ->
  payload_ok timestep point (mkBuffer output_bytes (slots out)) = true.
Proof.
  unfold execute_point.
  intros (? & [] & ? & _ & H & ->)%lbind_ok.
  apply lbind_ok in H as (? & [] & ? & [-> Hob%assert_ok]%lift_ok & H & ->).
  apply lbind_ok in H as (? & o & ? & [-> Hgen]%lift_ok & H & ->).
  apply lbind_ok in H as (? & [] & ? & _ & H & ->).
  apply lbind_ok in H as (? & [] & ? & _ & H & ->).
  apply lbind_ok in H as (? & [] & ? & _ & H & ->).
  injection H as _ <-.
  apply (generate_output_payload timestep point output_bytes output);
    [|done].
  apply Z.geb_le in Hob. lia.
Qed.

(** The outputs of the producers, handed on in the order of the required
    dependencies, are inputs that are ready. *)
Lemma produced_inputs_ready (g : TaskGraph) (t q : Z) (ds : list Z)
    (produced : Z -> buffer) :
  required_inputs random_uniform g t q = Ok ds ->
  (forall p, p ∈ ds -> payload_ok (t - 1) p (produced p) = true) ->
  inputs_ready random_uniform g t q (map produced ds) = true.
Proof.
  intros Hds Hall. unfold inputs_ready. rewrite Hds, length_map, Nat.leb_refl.
  simpl. clear Hds. induction ds as [|d ds IH]; [done|]. simpl.
  rewrite Hall by (by left). apply IH. intros p Hp. apply Hall. by right.
Qed.

(** C2: the round trip through [execute_point].  In a valid graph, take a
    point [q] of row [t+1] and its dependencies [ds] in row [t], and for
    every such dependency [p] a call [execute_point(t, p, ...)] that
    returns.  Then (1) what each of these calls has written is a buffer of
    at least 16 bytes whose 16-byte slots all hold the record [(t, p)];
    (2) with these outputs as its inputs, the head of
    [execute_point(t+1, q, ...)] runs through: nothing is reported as
    corrupted and no assertion fails; and (3) the same holds of any input
    buffers of at least 16 bytes that hold only such records. *)
Theorem execute_point_round_trip (g : TaskGraph) (t q : Z) (ds : list Z)
    (output : Z -> buffer) (output_bytes : Z -> Z)
    (inputs : Z -> list buffer) (scratch_ptr : Z -> option (list Z))
    (scratch_bytes : Z -> Z) (log : Z -> list corruption)
    (out : Z -> buffer) :
  valid_graph random_uniform g ->
  0 <= t < timesteps g - 1 ->
  offset_at_timestep g (t + 1) <= q
  < offset_at_timestep g (t + 1) + width_at_timestep g (t + 1) ->
  required_inputs random_uniform g (t + 1) q = Ok ds ->
  (forall p, p ∈ ds ->
     execute_point random_uniform g t p (output p) (output_bytes p)
       (inputs p) (scratch_ptr p) (scratch_bytes p) = (log p, Ok (out p))) ->
  (forall p, p ∈ ds ->
     payload_ok t p (mkBuffer (output_bytes p) (slots (out p))) = true)
  /\ execute_point_validation random_uniform g (t + 1) q
       (map (fun p => mkBuffer (output_bytes p) (slots (out p))) ds)
     = ([], Ok tt)
  /\ (forall fed : list buffer,
        inputs_ready random_uniform g (t + 1) q fed = true ->
        execute_point_validation random_uniform g (t + 1) q fed
        = ([], Ok tt)).
Proof.
  intros Hv Ht Hq Hds Hruns.
  assert (Hpay : forall p, p ∈ ds ->
            payload_ok t p (mkBuffer (output_bytes p) (slots (out p)))
            = true).
  { intros p Hp. exact (execute_point_payload _ _ _ _ _ _ _ _ _ _
                          (Hruns p Hp)). }
  split; [done|]. split.
  - apply (ready_inputs_pass_validation random_uniform g t q); try done.
    apply (produced_inputs_ready g (t + 1) q ds
             (fun p => mkBuffer (output_bytes p) (slots (out p))) Hds).
    intros p Hp. replace (t + 1 - 1) with t by lia. by apply Hpay.
  - intros fed Hfed.
    by apply (ready_inputs_pass_validation random_uniform g t q).
Qed.

(** [execute_point] with the scratch pointer of a driver: it points to a
    buffer whose first word is [MAGIC_VALUE] wherever the graph has scratch
    bytes. *)
Lemma execute_point_ok (g : TaskGraph) (t q : Z) (output : buffer)
    (output_bytes : Z) (inputs : list buffer) (scratch_ptr : option (list Z)) :
  valid_graph random_uniform g ->
  0 <= t < timesteps g ->
  offset_at_timestep g t <= q < offset_at_timestep g t + width_at_timestep g t ->
  inputs_ready random_uniform g t q inputs = true ->
  sizeof_pair <= output_bytes ->
  output_bytes `quot` sizeof_pair <= Z.of_nat (length (slots output)) ->
  (0 < scratch_bytes_per_task g ->
   exists rest, scratch_ptr = Some (MAGIC_VALUE :: rest)) ->
  (needs_scratch (kernel_type (kernel g)) = true ->
   0 < scratch_bytes_per_task g) ->
  exists out,
    execute_point random_uniform g t q output output_bytes inputs
      scratch_ptr (scratch_bytes_per_task g) = ([], Ok out)
    /\ payload_ok t q (mkBuffer output_bytes (slots out)) = true
    /\ length (slots out) = length (slots output).
Proof.
  intros Hv Ht Hq Hready Hob Hlen Hscratch Hkernel.
  destruct (valid_graph_facts random_uniform g Hv) as (Hd & HM & HR).
  pose proof Hv as (_ & HW & _).
  assert (Hval : execute_point_validation random_uniform g t q inputs
                 = ([], Ok tt)).
  { unfold execute_point_validation.
    replace (0 <=? t) with true by (symmetry; apply Z.leb_le; lia).
    replace (t <? timesteps g) with true by (symmetry; apply Z.ltb_lt; lia).
    replace (_ <=? q) with true by (symmetry; apply Z.leb_le; lia).
    replace (q <? _) with true by (symmetry; apply Z.ltb_lt; lia).
    cbn [andb assert]. unfold lift. rewrite !lbind_pure.
    destruct (required_inputs random_uniform g t q) as [ds| | | | |] eqn:Hds;
      try (unfold inputs_ready in Hready; rewrite Hds in Hready; discriminate).
    pose proof (inputs_ready_served random_uniform g t q inputs ds Hds Hready)
      as Hs.
    unfold required_inputs in Hds.
    apply bind_ok in Hds as (dset & Hdset & Hds).
    apply bind_ok in Hds as (deps & Hdeps & Hds). injection Hds as <-.
    destruct (dependencies_count_bound random_uniform g dset q deps)
      as (n & Hn & Hle); [lia | intros _; lia | done |].
    unfold validate_input, lift, written_into.
    rewrite Hdset, lbind_pure, Hn, lbind_pure, Hdeps, lbind_pure.
    replace (_ <=? n) with true by (symmetry; apply Z.leb_le; lia).
    rewrite lbind_pure.
    destruct (validate_span_fold g t q inputs deps 0 ltac:(lia))
      as (idx' & ->); [|by rewrite lbind_pure].
    intros k d Hk. apply Hs, Hk. }
  destruct (generate_output_total (t, q)
              (range_excl 0 (output_bytes `quot` sizeof_pair)) (slots output))
    as (sl & Hsl).
  { apply Forall_forall. intros x Hx%elem_of_seqZ. lia. }
  assert (Hgen : generate_output t q output_bytes output
                 = Ok (mkBuffer (bytes output) sl)).
  { unfold generate_output. by rewrite Hsl. }
  exists (mkBuffer (bytes output) sl). split; [|split].
  - unfold execute_point. rewrite Hval, lbind_pure.
    replace (output_bytes >=? sizeof_pair) with true
      by (symmetry; apply Z.geb_le; lia).
    rewrite Hgen, Z.eqb_refl. cbn [assert]. unfold lift. rewrite !lbind_pure.
    assert (Hcheck :
              (if scratch_bytes_per_task g >? 0 then
                 match scratch_ptr with
                 | Some (w :: _) => assert (w =? MAGIC_VALUE)
                                      "*scratch == MAGIC_VALUE"
                 | _ => Undefined "read outside the scratch buffer"
                 end
               else Ok tt) = Ok tt).
    { destruct (Z.gtb_spec (scratch_bytes_per_task g) 0) as [Hpos|]; [|done].
      by destruct (Hscratch Hpos) as (rest & ->). }
    rewrite Hcheck, lbind_pure.
    assert (Hk : Kernel_execute (kernel g) (graph_index g) t q scratch_ptr
                   (scratch_bytes_per_task g) = Ok tt).
    { unfold Kernel_execute.
      destruct (row_in_bounds g t) as (Ho & _); [lia | lia |].
      destruct (kernel_type (kernel g)); simpl in Hkernel |- *; try done.
      all: try (destruct (Hscratch (Hkernel eq_refl)) as (rest & ->);
                replace (scratch_bytes_per_task g >? 0) with true
                  by (symmetry; apply Z.gtb_lt; lia); done).
      all: replace (t >=? 0) with true by (symmetry; apply Z.geb_le; lia);
        replace (q >=? 0) with true by (symmetry; apply Z.geb_le; lia); done. }
    by rewrite Hk, lbind_pure.
  - by apply (generate_output_payload t q output_bytes output).
  - simpl. apply generate_output_loop in Hsl as [Hl _]; [done|].
    apply Forall_forall. intros i Hi%elem_of_seqZ. lia.
Qed.

(** X15: in a valid graph, at a point of the row of a timestep in
    [[0, timesteps)] whose inputs are ready, with an output buffer of at
    least 16 bytes that holds [output_bytes / 16] records, and a scratch
    buffer of [scratch_bytes_per_task] bytes filled by [prepare_scratch]
    (non-empty for the kernels that ask for one), [execute_point] runs
    through all its assertions, reports no corruption, and leaves an output
    that is ready as an input of the next timestep. *)
Theorem execute_point_runs (g : TaskGraph) (t q : Z) (output : buffer)
    (output_bytes : Z) (inputs : list buffer) (scratch : list Z) :
  valid_graph random_uniform g ->
  0 <= t < timesteps g ->
  offset_at_timestep g t <= q < offset_at_timestep g t + width_at_timestep g t ->
  inputs_ready random_uniform g t q inputs = true ->
  sizeof_pair <= output_bytes ->
  output_bytes `quot` sizeof_pair <= Z.of_nat (length (slots output)) ->
  prepare_scratch (scratch_bytes_per_task g) = Ok scratch ->
  (needs_scratch (kernel_type (kernel g)) = true ->
   0 < scratch_bytes_per_task g) ->
  exists out,
    execute_point random_uniform g t q output output_bytes inputs
      (Some scratch) (scratch_bytes_per_task g) = ([], Ok out)
    /\ payload_ok t q (mkBuffer output_bytes (slots out)) = true.
Proof.
  intros Hv Ht Hq Hready Hob Hlen Hscratch Hkernel.
  destruct (execute_point_ok g t q output output_bytes inputs (Some scratch)
              Hv Ht Hq Hready Hob Hlen) as (out & Hrun & Hpay & _);
    [|done|by exists out].
  intros Hpos. unfold prepare_scratch in Hscratch.
  apply bind_ok in Hscratch as ([] & Hrem%assert_ok%Z.eqb_eq & [= <-]).
  unfold range_excl. rewrite seqZ_cons; [by eexists|].
  revert Hrem. Z.to_euclidean_division_equations. lia.
Qed.

End ExecutePoint.

Section Planner.

Lemma bind_ret {A : Type} (m : result A) : (do x <- m; Ok x) = m.
Proof. by destruct m. Qed.

Lemma foldM_app {A S : Type} (body : S -> A -> result S) (xs ys : list A)
    (s : S) :
  foldM body (xs ++ ys) s = (do s' <- foldM body xs s; foldM body ys s').
Proof.
  revert s. induction xs as [|x xs IH]; intros s; simpl; [done|].
  destruct (body s x); simpl; auto.
Qed.

Lemma foldM_ext {A S : Type} (f h : S -> A -> result S) (xs : list A) :
  (forall s x, f s x = h s x) -> forall s, foldM f xs s = foldM h xs s.
Proof.
  intros Hfh. induction xs as [|x xs IH]; intros s; [done|].
  simpl. rewrite Hfh. destruct (h s x); simpl; auto.
Qed.

Lemma write_cell_read (tab : list (list (option Z))) (T W t i v : Z) :
  table_dims T W tab -> 0 <= t < T -> 0 <= i < W ->
  exists tab',
    write_cell tab t i v = Ok tab'
    /\ table_dims T W tab'
    /\ forall t' i',
         read_cell tab' t' i'
         = if (t' =? t) && (i' =? i) then Ok v else read_cell tab t' i'.
Proof.
  intros [Hlen Hrows] Ht Hi. unfold write_cell.
  destruct (Z.ltb_spec t 0); [lia|]. destruct (Z.ltb_spec i 0); [lia|].
  cbn [orb].
  destruct (lookup_lt_is_Some_2 tab (Z.to_nat t)) as [row Hrow]; [lia|].
  rewrite Hrow.
  pose proof (proj1 (Forall_lookup _ _) Hrows _ _ Hrow) as Hw. simpl in Hw.
  destruct (Nat.ltb_spec (Z.to_nat i) (length row)); [|lia].
  eexists. split; [reflexivity|]. split.
  - split; [by rewrite length_insert|].
    apply Forall_insert; [done|]. by rewrite length_insert.
  - intros t' i'. unfold read_cell.
    destruct (Z.ltb_spec t' 0).
    { cbn [orb]. destruct (Z.eqb_spec t' t); [lia | done]. }
    destruct (Z.ltb_spec i' 0).
    { cbn [orb]. destruct (Z.eqb_spec i' i); [lia|]. by rewrite andb_false_r. }
    cbn [orb].
    destruct (Z.eqb_spec t' t) as [->|Hne]; cbn [andb].
    + rewrite list_lookup_insert_eq by lia. rewrite Hrow.
      destruct (Z.eqb_spec i' i) as [->|Hne].
      * by rewrite list_lookup_insert_eq by lia.
      * by rewrite list_lookup_insert_ne by lia.
    + by rewrite list_lookup_insert_ne by lia.
Qed.

(** The loop over the points of one row. *)
Lemma fill_row (T W t off v : Z) (n : nat) :
  0 <= t < T -> 0 <= off ->
  forall a tab,
    table_dims T W tab -> 0 <= a -> a + off + Z.of_nat n <= W ->
    exists tab',
      foldM (fun tab i => write_cell tab t (i + off) v) (seqZ a (Z.of_nat n)) tab
      = Ok tab'
      /\ table_dims T W tab'
      /\ forall t' i',
           read_cell tab' t' i'
           = if (t' =? t) && (a + off <=? i') && (i' <? a + off + Z.of_nat n)
             then Ok v else read_cell tab t' i'.
Proof.
  intros Ht Hoff. induction n as [|n IH]; intros a tab Hdims Ha Hn.
  - exists tab. split; [done|]. split; [done|]. intros t' i'.
    destruct (t' =? t); destruct (Z.leb_spec (a + off) i');
      destruct (Z.ltb_spec i' (a + off + Z.of_nat 0)); simpl; (done || lia).
  - rewrite seqZ_cons by lia.
    replace (Z.pred (Z.of_nat (S n))) with (Z.of_nat n) by lia.
    destruct (write_cell_read tab T W t (a + off) v Hdims Ht ltac:(lia))
      as (tab1 & Hw & Hdims1 & Hread1).
    destruct (IH (Z.succ a) tab1 Hdims1 ltac:(lia) ltac:(lia))
      as (tab' & Hfold & Hdims' & Hread').
    exists tab'. simpl foldM. rewrite Hw. simpl bind.
    split; [done|]. split; [done|]. intros t' i'.
    rewrite Hread', Hread1.
    destruct (Z.eqb_spec t' t); destruct (Z.eqb_spec i' (a + off));
      destruct (Z.leb_spec (Z.succ a + off) i');
      destruct (Z.leb_spec (a + off) i');
      destruct (Z.ltb_spec i' (Z.succ a + off + Z.of_nat n));
      destruct (Z.ltb_spec i' (a + off + Z.of_nat (S n)));
      simpl; (done || lia).
Qed.

(** The loop over the rows. *)
Lemma fill_rows (g : TaskGraph) (v : Z) (n : nat) :
  0 <= max_width g ->
  forall a tab,
    table_dims (timesteps g) (max_width g) tab ->
    0 <= a -> a + Z.of_nat n <= timesteps g ->
    exists tab',
      foldM (fun tab t =>
               foldM (fun tab i => write_cell tab t (i + offset_at_timestep g t) v)
                 (range_excl 0 (width_at_timestep g t)) tab)
        (seqZ a (Z.of_nat n)) tab
      = Ok tab'
      /\ table_dims (timesteps g) (max_width g) tab'
      /\ forall t' i',
           read_cell tab' t' i'
           = if (a <=? t') && (t' <? a + Z.of_nat n) && in_row g t' i'
             then Ok v else read_cell tab t' i'.
Proof.
  intros HW. induction n as [|n IH]; intros a tab Hdims Ha Hn.
  - exists tab. split; [done|]. split; [done|]. intros t' i'.
    destruct (Z.leb_spec a t'); destruct (Z.ltb_spec t' (a + Z.of_nat 0));
      simpl; (done || lia).
  - rewrite seqZ_cons by lia.
    replace (Z.pred (Z.of_nat (S n))) with (Z.of_nat n) by lia.
    destruct (row_in_bounds g a HW ltac:(lia)) as (Ho & Hw & How).
    destruct (fill_row (timesteps g) (max_width g) a (offset_at_timestep g a) v
                (Z.to_nat (width_at_timestep g a)) ltac:(lia) Ho 0 tab Hdims
                ltac:(lia) ltac:(lia)) as (tab1 & Hrow & Hdims1 & Hread1).
    rewrite Z2Nat.id in Hrow, Hread1 by lia.
    destruct (IH (Z.succ a) tab1 Hdims1 ltac:(lia) ltac:(lia))
      as (tab' & Hfold & Hdims' & Hread').
    exists tab'. simpl foldM. unfold range_excl at 1. rewrite Z.sub_0_r, Hrow.
    simpl bind. split; [done|]. split; [done|]. intros t' i'.
    rewrite Hread', Hread1. unfold in_row.
    destruct (Z.eqb_spec t' a) as [->|Hne].
    + destruct (Z.leb_spec (Z.succ a) a); [lia|].
      destruct (Z.leb_spec a a); [|lia].
      destruct (Z.ltb_spec a (a + Z.of_nat (S n))); [|lia].
      by rewrite Z.add_0_l.
    + destruct (Z.leb_spec (Z.succ a) t'); destruct (Z.leb_spec a t');
        destruct (Z.ltb_spec t' (Z.succ a + Z.of_nat n));
        destruct (Z.ltb_spec t' (a + Z.of_nat (S n)));
        simpl; (done || lia).
Qed.

Lemma fresh_table (T W : Z) :
  0 <= T -> 0 <= W ->
  table_dims T W (replicate (Z.to_nat T) (replicate (Z.to_nat W) None))
  /\ forall t i, 0 <= t < T -> 0 <= i < W ->
       read_cell (replicate (Z.to_nat T) (replicate (Z.to_nat W) None)) t i
       = Undefined "read of an unwritten cell".
Proof.
  intros HT HW. split.
  - split; [rewrite length_replicate; lia|].
    apply Forall_replicate. rewrite length_replicate. lia.
  - intros t i Ht Hi. unfold read_cell.
    destruct (Z.ltb_spec t 0); [lia|]. destruct (Z.ltb_spec i 0); [lia|].
    cbn [orb]. rewrite lookup_replicate_2 by lia.
    by rewrite lookup_replicate_2 by lia.
Qed.

(** The table after [allocate_bytes], cell by cell. *)
Lemma allocate_bytes_table (sample_histogram : TaskGraph -> Z -> list Z)
    (g : TaskGraph) :
  0 <= timesteps g -> 0 <= max_width g ->
  output_bytes_size g
  = Some (replicate (Z.to_nat (timesteps g))
            (replicate (Z.to_nat (max_width g)) None)) ->
  output_bytes_per_task g = 16 \/ output_case g = 0 ->
  exists tab,
    allocate_bytes sample_histogram g = Ok (set_output_bytes_size (Some tab) g)
    /\ forall t i, 0 <= t < timesteps g -> 0 <= i < max_width g ->
         read_cell tab t i
         = if in_row g t i then Ok (output_bytes_per_task g)
           else Undefined "read of an unwritten cell".
Proof.
  intros HT HW Htab Hcase.
  destruct (fresh_table (timesteps g) (max_width g) HT HW) as [Hdims Hfresh].
  destruct (fill_rows g (output_bytes_per_task g) (Z.to_nat (timesteps g)) HW 0
              _ Hdims ltac:(lia) ltac:(lia)) as (tab & Hfill & _ & Hread).
  rewrite Z2Nat.id in Hfill, Hread by lia.
  exists tab. split.
  - unfold allocate_bytes. rewrite Htab.
    destruct (Z.eqb_spec (output_bytes_per_task g) 16) as [E|E].
    + rewrite E in Hfill. unfold range_excl at 2. rewrite Z.sub_0_r, Hfill.
      done.
    + destruct Hcase as [?|Hcase]; [done|].
      rewrite (foldM_ext (allocate_row sample_histogram g)
                 (fun tab t =>
                    foldM (fun tab i =>
                             write_cell tab t (i + offset_at_timestep g t)
                               (output_bytes_per_task g))
                      (range_excl 0 (width_at_timestep g t)) tab)).
      * unfold range_excl at 2. rewrite Z.sub_0_r, Hfill. done.
      * intros s t. unfold allocate_row. rewrite Hcase. simpl.
        apply bind_ret.
  - intros t i Ht Hi. rewrite Hread, Hfresh by done.
    destruct (Z.leb_spec 0 t); [|lia].
    destruct (Z.ltb_spec t (0 + timesteps g)); [|lia]. done.
Qed.

(** X16: on a table of [timesteps] rows of [max_width] unwritten cells,
    when [output_bytes_per_task] is 16 or [output_case] is 0,
    [allocate_bytes] returns, and afterwards a cell [(t, i)] of the table
    holds [output_bytes_per_task] if point [i] lies in the row of timestep
    [t], and is still unwritten otherwise. *)
Theorem allocate_bytes_fills_rows (sample_histogram : TaskGraph -> Z -> list Z)
    (g : TaskGraph) :
  0 <= timesteps g -> 0 <= max_width g ->
  output_bytes_size g
  = Some (replicate (Z.to_nat (timesteps g))
            (replicate (Z.to_nat (max_width g)) None)) ->
  output_bytes_per_task g = 16 \/ output_case g = 0 ->
  exists tab,
    allocate_bytes sample_histogram g = Ok (set_output_bytes_size (Some tab) g)
    /\ forall t i, 0 <= t < timesteps g -> 0 <= i < max_width g ->
         read_cell tab t i
         = if in_row g t i then Ok (output_bytes_per_task g)
           else Undefined "read of an unwritten cell".
Proof. apply allocate_bytes_table. Qed.

End Planner.

Section Reports.

Variable random_uniform : list Z -> Q.
Variable select_imbalance_iterations : Kernel -> Z -> Z -> Z -> Z.
Variable select_dist_iterations : Kernel -> Z -> Z -> Z -> Z.

Lemma foldM_invariant_in {A S : Type} (P : S -> Prop)
    (body : S -> A -> result S) (xs : list A) :
  (forall s x s', x ∈ xs -> P s -> body s x = Ok s' -> P s') ->
  forall s s', P s -> foldM body xs s = Ok s' -> P s'.
Proof.
  induction xs as [|x xs IH]; intros Hbody s s' Hs.
  - by intros [= <-].
  - intros (s1 & Hs1 & Hrest)%foldM_cons_ok.
    apply (IH (fun s x s' Hx => Hbody s x s' (list_elem_of_further _ _ _ Hx))
             s1 s'); [|done].
    apply (Hbody s x s1); [by left | done | done].
Qed.

(** The three clamps of [count_dep] split what the first clamp left. *)
Lemma clamp_three_way (a b nf nl W : Z) :
  a <= b + 1 -> (a <= b -> 0 <= a /\ b <= W - 1) ->
  0 <= nf -> nf <= nl + 1 -> nl + 1 <= W ->
  (snd (clamp a b nf nl) - fst (clamp a b nf nl) + 1)
  + (snd (clamp a b 0 (nf - 1)) - fst (clamp a b 0 (nf - 1)) + 1)
  + (snd (clamp a b (nl + 1) (W - 1)) - fst (clamp a b (nl + 1) (W - 1)) + 1)
  = b - a + 1.
Proof.
  intros Hab Hin Hnf Hnl HW. unfold clamp.
  destruct (Z.ltb_spec b nf); destruct (Z.gtb_spec a nl);
    destruct (Z.ltb_spec b 0); destruct (Z.gtb_spec a (nf - 1));
    destruct (Z.ltb_spec b (nl + 1)); destruct (Z.gtb_spec a (W - 1));
    simpl; lia.
Qed.

Lemma clamp_shape (s e lo hi : Z) :
  s <= e -> lo <= hi + 1 ->
  fst (clamp s e lo hi) <= snd (clamp s e lo hi) + 1
  /\ (fst (clamp s e lo hi) <= snd (clamp s e lo hi) ->
      lo <= fst (clamp s e lo hi) /\ snd (clamp s e lo hi) <= hi).
Proof.
  intros Hse Hr. unfold clamp.
  destruct (Z.ltb_spec e lo); destruct (Z.gtb_spec s hi); simpl; lia.
Qed.

Lemma count_dep_split (g : TaskGraph) (nodes lo w nf nl : Z) (c : counters)
    (dep : interval) :
  0 < nodes -> fst dep <= snd dep ->
  0 <= lo -> 0 <= w -> lo + w <= max_width g ->
  0 <= nf -> nf <= nl + 1 -> nl + 1 <= max_width g ->
  deps_split c -> deps_split (count_dep g nodes lo w nf nl c dep).
Proof.
  intros Hn Hdep Hlo Hw Hlw Hnf Hnl HW Hc. unfold count_dep, deps_split in *.
  destruct (clamp_shape (fst dep) (snd dep) lo (lo + w - 1) Hdep ltac:(lia))
    as [Hab Hin].
  destruct (clamp (fst dep) (snd dep) lo (lo + w - 1)) as [a b]. simpl in *.
  replace (nodes >? 0) with true by (symmetry; apply Z.gtb_lt; lia).
  pose proof (clamp_three_way a b nf nl (max_width g) Hab ltac:(lia) Hnf Hnl HW)
    as Hsum.
  destruct (clamp a b 0 (nf - 1)). destruct (clamp a b nf nl).
  destruct (clamp a b (nl + 1) (max_width g - 1)). simpl in *. lia.
Qed.

Lemma node_range_inside (p nodes W : Z) :
  0 < nodes -> 0 <= p < W ->
  0 <= ((p * nodes) `quot` W * W) `quot` nodes
  /\ ((p * nodes) `quot` W * W) `quot` nodes
     <= (((p * nodes) `quot` W + 1) * W) `quot` nodes
  /\ (((p * nodes) `quot` W + 1) * W) `quot` nodes <= W.
Proof.
  intros Hn Hp.
  assert (0 <= p * nodes) by nia.
  rewrite (Z.quot_div_nonneg (p * nodes) W) by lia.
  assert (H0 : 0 <= (p * nodes) `div` W) by (apply Z.div_pos; lia).
  assert (H1 : (p * nodes) `div` W < nodes)
    by (apply Z.div_lt_upper_bound; nia).
  set (k := (p * nodes) `div` W) in *.
  assert (0 <= k * W) by nia. assert (0 <= (k + 1) * W) by nia.
  rewrite !Z.quot_div_nonneg by lia.
  split; [apply Z.div_pos; lia|]. split.
  - apply Z.div_le_mono; nia.
  - apply Z.div_le_upper_bound; nia.
Qed.

Lemma count_point_split (g : TaskGraph) (nodes lo w dset : Z) (c c' : counters)
    (p : Z) :
  0 < nodes -> 1 <= max_width g -> 0 <= radix g -> 0 <= p < max_width g ->
  0 <= lo -> 0 <= w -> lo + w <= max_width g ->
  count_point random_uniform g nodes lo w dset c p = Ok c' ->
  deps_split c -> deps_split c'.
Proof.
  intros Hn HW HR Hp Hlo Hw Hlw. unfold count_point, cpp_div.
  replace (nodes >? 0) with true by (symmetry; apply Z.gtb_lt; lia).
  destruct (Z.eqb_spec (max_width g) 0) as [?|_]; [lia|]. simpl bind.
  intros (deps & Hdeps & [= <-])%bind_ok Hc.
  unfold dependencies_vector in Hdeps.
  apply bind_ok in Hdeps as (n & _ & Hdeps).
  apply bind_ok in Hdeps as (l & Hl & Hdeps).
  apply bind_ok in Hdeps as ([] & _ & Hdeps).
  apply bind_ok in Hdeps as ([] & _ & [= <-]).
  pose proof (dependencies_nonempty random_uniform g dset p l HW HR Hp Hl)
    as Hne.
  destruct (node_range_inside p nodes (max_width g) Hn Hp) as (H0 & H1 & H2).
  clear Hl. revert c Hc.
  induction Hne as [|iv l Hiv _ IH]; intros c Hc; [done|].
  simpl fold_left. apply IH. apply count_dep_split; (done || lia).
Qed.

Lemma count_timestep_split (g : TaskGraph) (nodes : Z) (c c' : counters)
    (t : Z) :
  0 < nodes -> 1 <= max_width g -> 0 <= radix g -> 0 <= t < timesteps g ->
  count_timestep random_uniform g nodes c t = Ok c' ->
  deps_split c -> deps_split c'.
Proof.
  intros Hn HW HR Ht. unfold count_timestep.
  intros (dset & _ & Hfold)%bind_ok Hc.
  destruct (row_in_bounds g t ltac:(lia) ltac:(lia)) as (Ho & Hw & How).
  destruct (row_in_bounds g (t - 1) ltac:(lia) ltac:(lia)) as (Hlo & Hlw & Hl).
  revert Hfold. apply foldM_invariant_in; [|done].
  intros s p s' Hp%elem_of_seqZ Hs Hbody.
  apply (count_point_split g nodes (offset_at_timestep g (t - 1))
           (width_at_timestep g (t - 1)) dset s s' p); (done || lia).
Qed.

Lemma report_timing_returns (app : App) :
  Forall (countable random_uniform) (graphs app) ->
  exists tot,
    report_timing random_uniform select_imbalance_iterations
      select_dist_iterations app = Ok tot.
Proof.
  unfold report_timing. generalize (mkTotals 0 0 0 0 0 0 0 0).
  generalize (nodes app).
  intros nodes tot0 Hall. revert tot0.
  induction Hall as [|g gs Hg _ IH]; intros tot0; [by eexists|].
  destruct (report_graph_spec random_uniform select_imbalance_iterations
              select_dist_iterations g nodes tot0 Hg) as (tot1 & Htot1 & _).
  simpl foldM. rewrite Htot1. apply IH.
Qed.

(** X17: when a positive number of nodes is given, on graphs that can be
    counted [report_timing] returns and every dependency it counts is
    counted once as local or as non-local: the two totals add up to the
    total number of dependencies. *)
Theorem report_timing_local_nonlocal (app : App) :
  Forall (countable random_uniform) (graphs app) -> 0 < nodes app ->
  exists tot,
    report_timing random_uniform select_imbalance_iterations
      select_dist_iterations app = Ok tot
    /\ total_local_deps tot + total_nonlocal_deps tot = total_num_deps tot.
Proof.
  intros Hall Hn.
  destruct (report_timing_returns app Hall) as (tot & Htot).
  exists tot. split; [done|]. revert Htot. unfold report_timing.
  apply (foldM_invariant_in
           (fun tot => total_local_deps tot + total_nonlocal_deps tot
                       = total_num_deps tot)); [|done].
  intros tot0 g tot1 Hg Htot0. unfold report_graph.
  intros (c & Hc & Hrest)%bind_ok.
  apply bind_ok in Hrest as (b & _ & [= <-]). simpl.
  pose proof (proj1 (Forall_forall _ _) Hall g Hg) as [(HT & HW & HR & _) _].
  assert (Hsplit : deps_split c).
  { revert Hc. apply foldM_invariant_in; [|done].
    intros s t s' Ht%elem_of_seqZ Hs Hbody.
    apply (count_timestep_split g (nodes app) s s' t); (done || lia). }
  unfold deps_split in Hsplit. lia.
Qed.

(** X18: when the graphs before it can be counted, a valid graph with
    kernel [memory_bound] or [memory_daxpy] and [-sample 0] makes
    [report_timing] divide by zero. *)
Theorem report_timing_divides_by_samples (app : App) (pre post : list TaskGraph)
    (g : TaskGraph) :
  graphs app = pre ++ g :: post ->
  Forall (countable random_uniform) pre ->
  valid_graph random_uniform g ->
  kernel_type (kernel g) = MEMORY_BOUND
  \/ kernel_type (kernel g) = MEMORY_DAXPY ->
  samples (kernel g) = 0 ->
  report_timing random_uniform select_imbalance_iterations
    select_dist_iterations app = DivByZero.
Proof.
  intros Hg Hpre Hv Hk Hs. unfold report_timing. rewrite Hg. clear Hg.
  generalize (mkTotals 0 0 0 0 0 0 0 0). generalize (nodes app).
  intros nodes tot0. revert tot0.
  induction Hpre as [|g0 pre Hg0 _ IH]; intros tot0.
  - rewrite app_nil_l. simpl foldM. unfold report_graph.
    destruct (foldM_counters (count_timestep random_uniform g nodes)
                (width_at_timestep g) (spec_row_deps random_uniform g)
                (range_excl 0 (timesteps g)))
      with (c := mkCounters 0 0 0 0) as (c & -> & _).
    { intros c0 t Ht%elem_of_seqZ.
      apply count_timestep_spec; [done | lia]. }
    simpl bind.
    assert (Hb : count_bytes g = DivByZero).
    { destruct Hv as (HT & HW & _).
      destruct (row_not_empty g 0 HW ltac:(lia)) as (_ & Hw0 & _).
      unfold count_bytes, range_excl.
      rewrite (seqZ_cons 0) by lia. simpl foldM.
      rewrite (seqZ_cons (offset_at_timestep g 0)) by lia. simpl foldM.
      unfold count_bytes_per_task, cpp_div. rewrite Hs.
      by destruct Hk as [-> | ->]. }
    by rewrite Hb.
  - rewrite <- app_comm_cons. simpl foldM.
    destruct (report_graph_spec random_uniform select_imbalance_iterations
                select_dist_iterations g0 nodes tot0 Hg0) as (tot1 & -> & _).
    apply IH.
Qed.

Lemma fold_left_const (f : Z -> Z) (c : Z) (xs : list Z) :
  (forall x, f x = c) ->
  forall acc,
    fold_left (fun flops x => flops + f x) xs acc
    = acc + c * Z.of_nat (length xs).
Proof.
  intros Hf. induction xs as [|x xs IH]; intros acc; simpl fold_left.
  - simpl. lia.
  - rewrite IH, Hf. simpl length. lia.
Qed.

(** X19: for every kernel but [load_imbalance] and [dist_imbalance]
    the FLOPs of a graph are the FLOPs of one task times the number of
    tasks, the sum of the widths of its rows. *)
Theorem count_flops_uniform (g : TaskGraph) :
  imbalanced (kernel_type (kernel g)) = false -> 0 <= max_width g ->
  count_flops select_imbalance_iterations select_dist_iterations g
  = count_flops_per_task select_imbalance_iterations select_dist_iterations
      g 0 0
    * sumZ (map (width_at_timestep g) (range_excl 0 (timesteps g))).
Proof.
  intros Hk HW. unfold count_flops.
  set (c := count_flops_per_task _ _ g 0 0).
  assert (Hc : forall t p,
            count_flops_per_task select_imbalance_iterations
              select_dist_iterations g t p = c).
  { intros t p. unfold c, count_flops_per_task.
    by destruct (kernel_type (kernel g)). }
  assert (Hgen : forall ts acc,
            Forall (fun t => t < timesteps g) ts ->
            fold_left
              (fun flops t =>
                 fold_left
                   (fun flops point =>
                      flops + count_flops_per_task select_imbalance_iterations
                                select_dist_iterations g t point)
                   (range_excl (offset_at_timestep g t)
                      (offset_at_timestep g t + width_at_timestep g t)) flops)
              ts acc
            = acc + c * sumZ (map (width_at_timestep g) ts)).
  { induction ts as [|t ts IH]; intros acc Hts.
    - simpl. lia.
    - apply Forall_cons in Hts as [Ht Hts]. simpl fold_left.
      rewrite (IH _ Hts). simpl map. rewrite sumZ_cons.
      rewrite (fold_left_const _ c) by apply Hc.
      rewrite length_range_excl.
      destruct (row_in_bounds g t HW Ht) as (_ & Hw & _).
      replace (Z.max 0 (offset_at_timestep g t + width_at_timestep g t
                        - offset_at_timestep g t))
        with (width_at_timestep g t) by lia.
      lia. }
  rewrite Hgen; [lia|].
  apply Forall_forall. intros t Ht%elem_of_seqZ. lia.
Qed.

End Reports.

Section Parser.

Variable atof : string -> Q.
Variable argv : list string.

Lemma atol_range (s : string) : - 2 ^ 63 <= atol s <= 2 ^ 63 - 1.
Proof.
  unfold atol.
  destruct (skip_spaces s) as [|c s']; [unfold saturate_long; lia|].
  destruct (Ascii.eqb_spec c "-") as [->|?];
    [unfold saturate_long; lia|].
  destruct (Ascii.eqb_spec c "+") as [->|?];
    [unfold saturate_long; lia|].
  assert (H : forall r, - 2 ^ 63 <= saturate_long r <= 2 ^ 63 - 1)
    by (intros r; unfold saturate_long; lia).
  destruct c as [[] [] [] [] [] [] [] []]; apply H.
Qed.

Lemma on_flag_preserves (P : pstate -> Prop) (flag : string)
    (body : pstate -> result pstate) :
  leads P P body -> leads P P (on_flag argv flag body).
Proof.
  intros Hbody st st' HP. unfold on_flag.
  destruct (String.eqb _ _); [by apply Hbody | by intros [= <-]].
Qed.

Lemma value_flag_preserves {V : Type} (P : pstate -> Prop) (flag : string)
    (read : string -> V) (invalid : V -> bool) (requirement : string)
    (store : V -> pstate -> pstate) :
  (forall s st, invalid (read s) = false -> P st ->
     P (store (read s) (mkPstate (p_i st + 1) (p_graph st) (p_app st)))) ->
  leads P P (value_flag argv flag read invalid requirement store).
Proof.
  intros Hstore. apply on_flag_preserves. intros st st' HP.
  unfold next_argument, needs_argument.
  destruct (_ >=? _); simpl; [done|].
  destruct (invalid _) eqn:E; [done|]. intros [= <-]. by apply Hstore.
Qed.

Lemma name_flag_preserves {V : Type} (P : pstate -> Prop) (flag : string)
    (table : list (string * V)) (store : V -> pstate -> pstate) :
  (forall v st, P st ->
     P (store v (mkPstate (p_i st + 1) (p_graph st) (p_app st)))) ->
  leads P P (name_flag argv flag table store).
Proof.
  intros Hstore. apply on_flag_preserves. intros st st' HP.
  unfold next_argument, needs_argument.
  destruct (_ >=? _); simpl; [done|].
  destruct (find_name _ _); [|done]. intros [= <-]. by apply Hstore.
Qed.

Lemma default_period_shape (g : TaskGraph) :
  graph_index (default_period g) = graph_index g
  /\ timesteps (default_period g) = timesteps g
  /\ max_width (default_period g) = max_width g
  /\ radix (default_period g) = radix g.
Proof. unfold default_period. by destruct (period g <? 0). Qed.

Lemma numbered_snoc (gs : list TaskGraph) (g : TaskGraph) :
  numbered gs -> graph_index g = Z.of_nat (length gs) -> numbered (gs ++ [g]).
Proof.
  intros Hgs Hg k g' Hk.
  destruct (decide (k < length gs)%nat) as [Hlt|Hge].
  - rewrite lookup_app_l in Hk by done. by apply Hgs.
  - assert (Hlen : (k < length (gs ++ [g]))%nat) by (by apply lookup_lt_Some in Hk).
    rewrite length_app in Hlen. simpl in Hlen.
    rewrite lookup_app_r in Hk by lia.
    replace (k - length gs)%nat with 0%nat in Hk by lia.
    injection Hk as <-. rewrite Hg. f_equal. lia.
Qed.

Ltac flag_ok :=
  let s := fresh "s" in
  let st := fresh "st" in
  let Hinv := fresh "Hinv" in
  intros s st Hinv (? & ? & (? & ? & ?) & ?);
  try (apply Z.leb_gt in Hinv); try (apply Z.ltb_ge in Hinv);
  pose proof (atol_range s);
  unfold parsed_ok, in_range; simpl; repeat split; (done || lia).

Ltac name_ok :=
  intros ? ? (? & ? & (? & ? & ?) & ?);
  unfold parsed_ok, in_range; simpl; repeat split; (done || lia).

Ltac unit_ok :=
  intros (? & ? & (? & ? & ?) & ?);
  unfold parsed_ok, in_range; simpl; repeat split; (done || lia).

Lemma parse_steps_ok : Forall (leads parsed_ok parsed_ok) (parse_steps atof argv).
Proof.
  unfold parse_steps.
  repeat (apply Forall_cons; split;
          [first [ apply value_flag_preserves; flag_ok
                 | apply name_flag_preserves; name_ok
                 | apply on_flag_preserves; intros st st' HP; try done;
                   intros [= <-]; revert HP; unit_ok
                 | idtac ]|]); [|apply Forall_nil; done].
  (* -and *)
  apply on_flag_preserves. intros st st' (Hi & Hn & Hg & Hgs) [= <-].
  destruct (default_period_shape (p_graph st)) as (Ei & ET & EW & ER).
  unfold parsed_ok. simpl. split; [done|]. split; [|split].
  - apply numbered_snoc; [done | by rewrite Ei].
  - unfold in_range. simpl. lia.
  - apply Forall_app. split; [done|]. constructor; [|done].
    unfold in_range in *. rewrite ET, EW, ER. done.
Qed.

Lemma parse_argument_ok : leads parsed_ok parsed_ok (parse_argument atof argv).
Proof.
  unfold parse_argument. generalize parse_steps_ok.
  generalize (parse_steps atof argv). intros steps Hsteps.
  induction Hsteps as [|step steps Hstep _ IH]; intros st st' HP.
  - by intros [= <-].
  - intros (st1 & H1 & Hrest)%foldM_cons_ok. eapply IH; [|exact Hrest].
    by apply (Hstep st).
Qed.

Lemma parse_loop_ok (fuel : nat) :
  forall st st',
    parsed_ok st -> parse_loop atof argv fuel st = Ok st' -> parsed_ok st'.
Proof.
  induction fuel as [|fuel IH]; intros st st' HP; simpl.
  - destruct (_ <? _); [done | by intros [= <-]].
  - destruct (_ <? _); [|by intros [= <-]].
    intros (st1 & H1 & Hrest)%bind_ok. eapply IH; [|exact Hrest].
    exact (parse_argument_ok _ _ HP H1).
Qed.

End Parser.

Section Constructor.

Variable random_uniform : list Z -> Q.
Variable sample_histogram : TaskGraph -> Z -> list Z.
Variable atof : string -> Q.

Lemma App_check_all (app : App) :
  App_check random_uniform app = Ok tt ->
  Forall (fun g => check_graph random_uniform g = Ok tt) (graphs app).
Proof.
  unfold App_check. induction (graphs app) as [|g gs IH]; [done|].
  intros ([] & Hg & Hgs)%foldM_cons_ok. constructor; auto.
Qed.

(** What the constructor returns, in terms of the state the argument loop
    ends in. *)
Lemma App_ctor_shape (argv : list string) (app : App) :
  App_ctor random_uniform sample_histogram atof argv = Ok app ->
  exists st last,
    parsed_ok st
    /\ graph_index last = graph_index (p_graph st)
    /\ timesteps last = timesteps (p_graph st)
    /\ max_width last = max_width (p_graph st)
    /\ radix last = radix (p_graph st)
    /\ graphs app
       = map (fun g => if nb_fields g =? 0
                       then set_nb_fields (to_int (timesteps g)) g else g)
           (graphs (p_app st) ++ [last])
    /\ App_check random_uniform app = Ok tt.
Proof.
  unfold App_ctor. intros (st & Hloop & H)%bind_ok.
  apply bind_ok in H as ([] & _ & H).
  apply bind_ok in H as (last & Halloc & H).
  apply bind_ok in H as ([] & Hcheck & [= <-]).
  exists st, last. split.
  { eapply parse_loop_ok; [|exact Hloop].
    unfold parsed_ok, in_range. simpl. repeat split; try lia; [|done].
    by intros k g Hk. }
  unfold allocate_bytes in Halloc. simpl in Halloc.
  apply bind_ok in Halloc as (tab & _ & [= <-]). simpl.
  destruct (default_period_shape (p_graph st)) as (Ei & ET & EW & ER).
  repeat split; done.
Qed.

End Constructor.

Section Constructed.

Variable random_uniform : list Z -> Q.
Variable sample_histogram : TaskGraph -> Z -> list Z.
Variable atof : string -> Q.

(** X20: in an [App] that the constructor returns, the graph at position
    [k] of [graphs] has [graph_index] [k]. *)
Theorem App_ctor_numbers_graphs (argv : list string) (app : App) :
  App_ctor random_uniform sample_histogram atof argv = Ok app ->
  forall (k : nat) (g : TaskGraph),
    graphs app !! k = Some g -> graph_index g = Z.of_nat k.
Proof.
  intros (st & last & (Hi & Hn & _) & Ei & _ & _ & _ & Hgs & _)%App_ctor_shape
    k g Hk.
  rewrite Hgs in Hk.
  change (map ?f ?l) with (f <$> l) in Hk. rewrite list_lookup_fmap in Hk.
  apply fmap_Some in Hk as (g0 & Hk & ->).
  assert (Hg0 : graph_index g0 = Z.of_nat k).
  { revert Hk. apply numbered_snoc; [done | by rewrite Ei]. }
  by destruct (nb_fields g0 =? 0).
Qed.

(** X21: every graph of an [App] that the constructor returns has at
    least one timestep, a width of at least 1, a radix in [[0, 2^63)], and
    passes the tests of [App::check]: it is a valid graph in the sense of
    the theorems above. *)
Theorem App_ctor_graphs_valid (argv : list string) (app : App) :
  App_ctor random_uniform sample_histogram atof argv = Ok app ->
  Forall (valid_graph random_uniform) (graphs app).
Proof.
  intros (st & last & (_ & _ & Hr & Hrs) & _ & ET & EW & ER & Hgs & Hc)
           %App_ctor_shape.
  apply App_check_all in Hc.
  apply Forall_forall. intros g Hg.
  pose proof (proj1 (Forall_forall _ _) Hc g Hg) as Hcheck. simpl in Hcheck.
  rewrite Hgs in Hg. change (map ?f ?l) with (f <$> l) in Hg.
  apply list_elem_of_fmap in Hg as (g0 & -> & Hg0).
  assert (Hin : in_range g0).
  { apply elem_of_app in Hg0 as [Hg0|Hg0%list_elem_of_singleton].
    - by apply (proj1 (Forall_forall _ _) Hrs).
    - subst g0. unfold in_range in *. by rewrite ET, EW, ER. }
  unfold valid_graph, in_range in *.
  destruct Hin as (HT & HW & HR).
  destruct (nb_fields g0 =? 0); simpl in *; repeat split; (done || lia).
Qed.

End Constructed.

Section CountGraphs.

Variable atof : string -> Q.
Variable argv : list string.

Hypothesis atof_and : Qle_bool (atof "-and") 0 = true.

Lemma ands_before_succ (i : Z) :
  1 <= i ->
  ands_before argv (i + 1)
  = ands_before argv i + (if String.eqb (argv_at argv i) "-and" then 1 else 0).
Proof.
  intros Hi. unfold ands_before, argv_at.
  replace (Z.to_nat (i + 1) - 1)%nat with (S (Z.to_nat i - 1)) by lia.
  replace (argv !! Z.to_nat i) with (drop 1 argv !! (Z.to_nat i - 1)%nat)
    by (rewrite lookup_drop; f_equal; lia).
  destruct (drop 1 argv !! (Z.to_nat i - 1)%nat) as [s|] eqn:Hs.
  - rewrite (take_S_r _ _ s) by done. rewrite filter_app, length_app. simpl.
    destruct (String.eqb_spec s "-and") as [->|Hne].
    + rewrite filter_cons_True by done. simpl. lia.
    + rewrite filter_cons_False by done. simpl. lia.
  - apply lookup_ge_None in Hs. rewrite !take_ge by lia. simpl. lia.
Qed.

Lemma on_flag_leads (P Q : pstate -> Prop) (flag : string)
    (body : pstate -> result pstate) :
  (forall st, argv_at argv (p_i st) <> flag -> P st -> Q st) ->
  (forall st st', argv_at argv (p_i st) = flag -> P st -> body st = Ok st' ->
     Q st') ->
  leads P Q (on_flag argv flag body).
Proof.
  intros HPQ Hbody st st' HP. unfold on_flag.
  destruct (String.eqb_spec (argv_at argv (p_i st)) flag) as [E|E].
  - by apply Hbody.
  - intros [= <-]. by apply HPQ.
Qed.

(** A flag other than [-and], met before the test for [-and]. *)
Lemma value_flag_before {V : Type} (flag : string) (read : string -> V)
    (invalid : V -> bool) (requirement : string)
    (store : V -> pstate -> pstate) :
  String.eqb flag "-and" = false ->
  (forall v st, p_i (store v st) = p_i st
                /\ graphs (p_app (store v st)) = graphs (p_app st)) ->
  leads (ands_closed argv) (ands_closed argv)
    (value_flag argv flag read invalid requirement store).
Proof.
  intros Hflag Hstore. apply on_flag_leads; [by intros st _|].
  intros st st' Hat [Hi Hn]. unfold next_argument, needs_argument.
  destruct (_ >=? _); simpl; [done|].
  destruct (invalid _); [done|]. intros [= <-].
  unfold ands_closed. destruct (Hstore (read (argv_at argv (p_i st + 1)))
    (mkPstate (p_i st + 1) (p_graph st) (p_app st))) as [-> ->]. simpl.
  split; [lia|]. rewrite ands_before_succ, Hat, Hflag by done. lia.
Qed.

Lemma name_flag_before {V : Type} (flag : string) (table : list (string * V))
    (store : V -> pstate -> pstate) :
  String.eqb flag "-and" = false ->
  (forall v st, p_i (store v st) = p_i st
                /\ graphs (p_app (store v st)) = graphs (p_app st)) ->
  leads (ands_closed argv) (ands_closed argv)
    (name_flag argv flag table store).
Proof.
  intros Hflag Hstore. apply on_flag_leads; [by intros st _|].
  intros st st' Hat [Hi Hn]. unfold next_argument, needs_argument.
  destruct (_ >=? _); simpl; [done|].
  destruct (find_name _ _) as [v|]; [|done]. intros [= <-].
  unfold ands_closed. destruct (Hstore v
    (mkPstate (p_i st + 1) (p_graph st) (p_app st))) as [-> ->]. simpl.
  split; [lia|]. rewrite ands_before_succ, Hat, Hflag by done. lia.
Qed.

(** A flag met after the test for [-and]: its value is not [-and]. *)
Lemma value_flag_after {V : Type} (flag : string) (read : string -> V)
    (invalid : V -> bool) (requirement : string)
    (store : V -> pstate -> pstate) :
  invalid (read "-and") = true ->
  (forall v st, p_i (store v st) = p_i st
                /\ graphs (p_app (store v st)) = graphs (p_app st)) ->
  leads (ands_closed_here argv) (ands_closed_here argv)
    (value_flag argv flag read invalid requirement store).
Proof.
  intros Hand Hstore. apply on_flag_leads; [by intros st _|].
  intros st st' Hat [Hi Hn]. unfold next_argument, needs_argument.
  destruct (_ >=? _); simpl; [done|].
  destruct (invalid (read (argv_at argv (p_i st + 1)))) eqn:Hinv; [done|].
  intros [= <-].
  unfold ands_closed_here. destruct (Hstore (read (argv_at argv (p_i st + 1)))
    (mkPstate (p_i st + 1) (p_graph st) (p_app st))) as [-> ->]. simpl.
  split; [lia|]. rewrite (ands_before_succ (p_i st + 1)) by lia.
  destruct (String.eqb_spec (argv_at argv (p_i st + 1)) "-and") as [E|_];
    [|lia].
  rewrite E in Hinv. congruence.
Qed.

Lemma steps_before_and :
  Forall (leads (ands_closed argv) (ands_closed argv))
    (take 25 (parse_steps atof argv)).
Proof.
  unfold parse_steps. cbn [take].
  repeat (apply Forall_cons; split;
          [first [ apply value_flag_before; [reflexivity | by intros v st]
                 | apply name_flag_before; [reflexivity | by intros v st]
                 | apply on_flag_leads; [by intros st _|];
                   intros st st' _ HP; try done; by intros [= <-] ]|]).
  apply Forall_nil. done.
Qed.

Lemma step_and :
  exists step,
    parse_steps atof argv !! 25%nat = Some step
    /\ leads (ands_closed argv) (ands_closed_here argv) step.
Proof.
  eexists. split; [reflexivity|]. apply on_flag_leads.
  - intros st Hne [Hi Hn]. split; [done|]. rewrite ands_before_succ by done.
    destruct (String.eqb_spec (argv_at argv (p_i st)) "-and"); [done | lia].
  - intros st st' Hat [Hi Hn] [= <-]. split; [done|]. simpl.
    rewrite ands_before_succ, Hat by done. simpl.
    rewrite length_app. simpl. lia.
Qed.

Lemma steps_after_and :
  Forall (leads (ands_closed_here argv) (ands_closed_here argv))
    (drop 26 (parse_steps atof argv)).
Proof using atof_and.
  unfold parse_steps. cbn [drop].
  repeat (apply Forall_cons; split;
          [apply value_flag_after; [(reflexivity || exact atof_and)
                                   | by intros v st]|]).
  apply Forall_nil. done.
Qed.

Lemma foldM_leads (P : pstate -> Prop)
    (steps : list (pstate -> result pstate)) :
  Forall (leads P P) steps ->
  leads P P (foldM (fun st step => step st) steps).
Proof.
  induction 1 as [|step steps Hstep _ IH]; intros st st' HP.
  - by intros [= <-].
  - intros (st1 & H1 & Hrest)%foldM_cons_ok. eapply IH; [|exact Hrest].
    by apply (Hstep st).
Qed.

Lemma parse_argument_counts :
  leads (ands_closed argv) (ands_closed_here argv) (parse_argument atof argv).
Proof using atof_and.
  destruct step_and as (step & Hstep & Hand).
  unfold parse_argument. rewrite <- (take_drop_middle _ _ _ Hstep).
  intros st st' HP. rewrite foldM_app.
  intros (st1 & H1 & H2)%bind_ok. apply foldM_cons_ok in H2 as (st2 & H2 & H3).
  apply (foldM_leads _ _ steps_before_and) in H1; [|done].
  apply Hand in H2; [|done].
  by apply (foldM_leads _ _ steps_after_and) in H3.
Qed.

Lemma parse_loop_counts (fuel : nat) :
  forall st st',
    ands_closed argv st -> parse_loop atof argv fuel st = Ok st' ->
    Z.of_nat (length (graphs (p_app st')))
    = Z.of_nat (length (filter (fun s => s = "-and") (drop 1 argv))).
Proof using atof_and.
  induction fuel as [|fuel IH]; intros st st' HP; simpl.
  - destruct (Z.ltb_spec (p_i st) (argc argv)); [done|]. intros [= <-].
    destruct HP as [Hi ->]. unfold ands_before, argc in *.
    rewrite take_ge; [done|]. rewrite length_drop. lia.
  - destruct (Z.ltb_spec (p_i st) (argc argv)).
    + intros (st1 & H1 & Hrest)%bind_ok. eapply IH; [|exact Hrest].
      apply parse_argument_counts in H1 as [Hi Hn]; [|done].
      split; simpl; [lia | done].
    + intros [= <-]. destruct HP as [Hi ->]. unfold ands_before, argc in *.
      rewrite take_ge; [done|]. rewrite length_drop. lia.
Qed.

End CountGraphs.

(** X22: provided [atof] maps the string [-and] to a value that is not
    positive (as libc does), an [App] that the constructor returns has one
    graph more than there are arguments [-and] behind the program name. *)
Theorem App_ctor_counts_graphs (random_uniform : list Z -> Q)
    (sample_histogram : TaskGraph -> Z -> list Z) (atof : string -> Q)
    (argv : list string) (app : App) :
  Qle_bool (atof "-and") 0 = true ->
  App_ctor random_uniform sample_histogram atof argv = Ok app ->
  Z.of_nat (length (graphs app))
  = 1 + Z.of_nat (length (filter (fun s => s = "-and") (drop 1 argv))).
Proof.
  intros Hatof. unfold App_ctor. intros (st & Hloop & H)%bind_ok.
  apply bind_ok in H as ([] & _ & H).
  apply bind_ok in H as (last & _ & H).
  apply bind_ok in H as ([] & _ & [= <-]). simpl.
  rewrite length_map, length_app. simpl.
  apply (parse_loop_counts atof argv Hatof) in Hloop; [lia|].
  split; [simpl; lia | done].
Qed.

Section MissingArgument.

Variable atof : string -> Q.
Variable argv : list string.

Lemma aborts_at_foldM (st : pstate) (msg : string)
    (steps : list (pstate -> result pstate)) :
  aborts_at st msg steps ->
  foldM (fun st step => step st) steps st = Abort msg.
Proof.
  induction steps as [|step steps IH]; [done|].
  intros [H|[H Hrest]]; simpl; rewrite H; simpl; auto.
Qed.

(** X23: when the argument at hand is a flag that takes an argument and
    it is the last of the command line, the turn of the argument loop
    aborts with the message that names this flag: the tests before the
    flag's own leave the state alone, and [needs_argument] stops the
    program before [argv[++i]] is read. *)
Theorem flag_without_argument_aborts (st : pstate) (flag : string) :
  flag ∈ valued_flags ->
  argv_at argv (p_i st) = flag ->
  argc argv <= p_i st + 1 ->
  parse_argument atof argv st
  = Abort ("error: Flag requires an argument: " +:+ flag).
Proof.
  intros Hflag Hat Hlast.
  assert (Hge : (p_i st + 1 >=? argc argv) = true) by (apply Z.geb_le; lia).
  apply aborts_at_foldM. unfold valued_flags in Hflag.
  repeat (apply elem_of_cons in Hflag as [->|Hflag]);
    try (by apply elem_of_nil in Hflag);
    unfold parse_steps; cbn [aborts_at];
    repeat first
      [ left; unfold value_flag, name_flag, on_flag, next_argument,
          needs_argument; rewrite Hat, Hge; reflexivity
      | right; split;
        [unfold value_flag, name_flag, on_flag; rewrite Hat; reflexivity|] ].
Qed.

End MissingArgument.

Section OmpSs.

Variable random_uniform : list Z -> Q.

Lemma payload_store_ok (sizes : list (option Z)) (index v : Z) :
  0 <= index < Z.of_nat (length sizes) ->
  exists sizes', payload_store sizes index v = Ok sizes'
                 /\ length sizes' = length sizes.
Proof.
  intros Hi. unfold payload_store.
  destruct (Z.ltb_spec index 0); [lia|].
  destruct (Z.leb_spec (Z.of_nat (length sizes)) index); [lia|].
  eexists. split; [done|]. by rewrite length_insert.
Qed.

Lemma payload_store_overrun (sizes : list (option Z)) (index v : Z) :
  Z.of_nat (length sizes) <= index ->
  payload_store sizes index v
  = Undefined "write outside payload.output_bytes_size".
Proof.
  intros Hi. unfold payload_store.
  destruct (Z.leb_spec (Z.of_nat (length sizes)) index); [|lia].
  by rewrite orb_true_r.
Qed.

Section Loops.

Variables (g : TaskGraph) (t x v y1 row nbf : Z).

Hypothesis cell : table_cell g row x = Ok v.
Hypothesis last_row : cpp_mod (t - 1) nbf = Ok y1.

Let in_last_row (dep : Z) : Prop :=
  offset_at_timestep g (t - 1) <= dep
  < offset_at_timestep g (t - 1) + width_at_timestep g (t - 1).

Let body (st : task_list) (i : Z) : result task_list :=
  if (i >=? offset_at_timestep g (t - 1))
     && (i <? offset_at_timestep g (t - 1) + width_at_timestep g (t - 1))
  then do y1 <- cpp_mod (t - 1) nbf; push_arg g row x i y1 st
  else Ok (add_num_args (-1) st).

(** The loop over the points of one interval. *)
Lemma points_loop (pts : list Z) :
  forall st,
    Z.of_nat (length (tl_sizes st)) = 10 -> 0 <= tl_output_index st <= 10 ->
    (tl_output_index st + Z.of_nat (length (filter in_last_row pts)) <= 10 ->
     exists sizes,
       foldM body pts st
       = Ok (mkTaskList
               (tl_args st ++ map (fun d => (d, y1)) (filter in_last_row pts))
               sizes
               (tl_output_index st
                + Z.of_nat (length (filter in_last_row pts)))
               (tl_num_args st - (Z.of_nat (length pts)
                                  - Z.of_nat (length (filter in_last_row pts)))))
       /\ Z.of_nat (length sizes) = 10)
    /\ (10 < tl_output_index st + Z.of_nat (length (filter in_last_row pts)) ->
        foldM body pts st
        = Undefined "write outside payload.output_bytes_size").
Proof using cell last_row.
  induction pts as [|i pts IH]; intros st Hlen Hidx.
  - simpl. split; [|lia]. intros _.
    exists (tl_sizes st). split; [|done]. destruct st. simpl.
    rewrite app_nil_r. do 2 f_equal; lia.
  - simpl foldM. unfold body at 1 3.
    destruct (decide (in_last_row i)) as [Hin|Hout].
    + rewrite filter_cons_True by done. unfold in_last_row in Hin.
      replace (i >=? _) with true by (symmetry; apply Z.geb_le; lia).
      replace (i <? _) with true by (symmetry; apply Z.ltb_lt; lia).
      cbn [andb]. rewrite last_row. cbn [bind]. unfold push_arg. rewrite cell.
      cbn [bind]. simpl length.
      destruct (Z.leb_spec (Z.of_nat (length (tl_sizes st)))
                  (tl_output_index st)) as [Hfull|Hroom].
      * rewrite payload_store_overrun by done. cbn [bind].
        split; [lia | done].
      * destruct (payload_store_ok (tl_sizes st) (tl_output_index st) v)
          as (sizes1 & -> & Hlen1); [lia|]. cbn [bind].
        destruct (IH (mkTaskList (tl_args st ++ [(i, y1)]) sizes1
                        (tl_output_index st + 1) (tl_num_args st)))
          as [IHok IHbad]; [simpl; lia | simpl; lia |].
        simpl in IHok, IHbad. split.
        -- intros Hfit. destruct IHok as (sizes & -> & Hs); [lia|].
           exists sizes. split; [|done].
           simpl map. rewrite <- app_assoc. simpl. do 2 f_equal; lia.
        -- intros Hover. apply IHbad. lia.
    + rewrite filter_cons_False by done. unfold in_last_row in Hout.
      assert (Hb : (i >=? offset_at_timestep g (t - 1))
                   && (i <? offset_at_timestep g (t - 1)
                            + width_at_timestep g (t - 1)) = false).
      { destruct (Z.geb_spec i (offset_at_timestep g (t - 1)));
          destruct (Z.ltb_spec i (offset_at_timestep g (t - 1)
                                  + width_at_timestep g (t - 1)));
          simpl; (done || lia). }
      rewrite Hb. cbn [bind].
      destruct (IH (add_num_args (-1) st) Hlen Hidx) as [IHok IHbad].
      simpl in IHok, IHbad. split.
      * intros Hfit. destruct (IHok Hfit) as (sizes & -> & Hs).
        exists sizes. split; [|done]. do 2 f_equal. simpl length. lia.
      * done.
Qed.

Let span_body (st : task_list) (dep : interval) : result task_list :=
  foldM body (range_incl (fst dep) (snd dep))
    (add_num_args (snd dep - fst dep + 1) st).

(** The loop over the intervals. *)
Lemma spans_loop (deps : list interval) :
  Forall (fun iv : interval => fst iv <= snd iv) deps ->
  forall st,
    Z.of_nat (length (tl_sizes st)) = 10 -> 0 <= tl_output_index st <= 10 ->
    let ins :=
      filter in_last_row
        (flat_map (fun span : interval => range_incl (fst span) (snd span))
           deps) in
    (tl_output_index st + Z.of_nat (length ins) <= 10 ->
     exists sizes,
       foldM span_body deps st
       = Ok (mkTaskList (tl_args st ++ map (fun d => (d, y1)) ins) sizes
               (tl_output_index st + Z.of_nat (length ins))
               (tl_num_args st + Z.of_nat (length ins)))
       /\ Z.of_nat (length sizes) = 10)
    /\ (10 < tl_output_index st + Z.of_nat (length ins) ->
        foldM span_body deps st
        = Undefined "write outside payload.output_bytes_size").
Proof using cell last_row.
  induction 1 as [|dep deps Hdep _ IH]; intros st Hlen Hidx; cbn zeta.
  - simpl. split; [|lia]. intros _. exists (tl_sizes st). split; [|done].
    destruct st. simpl. rewrite app_nil_r. do 2 f_equal; lia.
  - simpl flat_map. rewrite filter_app, length_app, Nat2Z.inj_add.
    simpl foldM. unfold span_body at 1 3.
    destruct (points_loop (range_incl (fst dep) (snd dep))
                (add_num_args (snd dep - fst dep + 1) st) Hlen Hidx)
      as [Hok Hbad].
    simpl in Hok, Hbad.
    assert (Hpts : Z.of_nat (length (range_incl (fst dep) (snd dep)))
                   = snd dep - fst dep + 1).
    { unfold range_incl. rewrite length_seqZ. lia. }
    set (k := Z.of_nat (length (filter in_last_row
                                  (range_incl (fst dep) (snd dep))))) in *.
    destruct (Z.le_gt_cases (tl_output_index st + k) 10) as [Hfit|Hover].
    + destruct (Hok Hfit) as (sizes1 & -> & Hs1). cbn [bind].
      destruct (IH (mkTaskList
                      (tl_args st
                       ++ map (fun d => (d, y1))
                            (filter in_last_row
                               (range_incl (fst dep) (snd dep))))
                      sizes1 (tl_output_index st + k)
                      (tl_num_args st + (snd dep - fst dep + 1)
                       - (Z.of_nat (length (range_incl (fst dep) (snd dep)))
                          - k))))
        as [IHok IHbad]; [done | simpl; lia |].
      cbn zeta in IHok, IHbad. simpl in IHok, IHbad. split.
      * intros Hall. destruct IHok as (sizes & -> & Hs); [lia|].
        exists sizes. split; [|done].
        rewrite map_app, app_assoc. do 2 f_equal; lia.
      * intros Hall. apply IHbad. lia.
    + rewrite (Hbad Hover). cbn [bind]. split; [lia | done].
Qed.

End Loops.

Lemma no_last_row (g : TaskGraph) (l : list Z) :
  filter (fun dep => offset_at_timestep g (0 - 1) <= dep
                     < offset_at_timestep g (0 - 1)
                       + width_at_timestep g (0 - 1)) l = [].
Proof.
  induction l as [|d l IH]; [done|].
  rewrite filter_cons_False; [done|].
  unfold offset_at_timestep, width_at_timestep. simpl. lia.
Qed.

(** The two outcomes of the loop body of [execute_timestep], by the number
    of required inputs. *)
Lemma task_arguments_cases (g : TaskGraph) (t dset x : Z) (ds : list Z)
    (v v0 : Z) :
  1 <= max_width g -> 0 <= radix g < 2 ^ 63 ->
  (dependence g = RANDOM_NEAREST -> 0 < radix g) ->
  0 <= x < max_width g -> nb_fields g <> 0 ->
  dependence_set_at_timestep g t = Ok dset ->
  required_inputs random_uniform g t x = Ok ds ->
  table_cell g t x = Ok v ->
  table_cell g (t `rem` nb_fields g) x = Ok v0 ->
  (Z.of_nat (length ds) <= 8 ->
   exists sizes,
     task_arguments random_uniform g t dset x
     = Ok (mkTaskList (task_tiles (nb_fields g) t x ds) sizes
             (2 + Z.of_nat (length ds)) (1 + Z.of_nat (length ds)))
     /\ insert_task (task_tiles (nb_fields g) t x ds)
        = Ok (1 + Z.of_nat (length ds)))
  /\ (9 <= Z.of_nat (length ds) ->
      task_arguments random_uniform g t dset x
      = Undefined "write outside payload.output_bytes_size").
Proof.
  intros HW HR Hrn Hx Hnbf Hdset Hds Hv Hv0.
  unfold required_inputs in Hds. rewrite Hdset in Hds. cbn [bind] in Hds.
  apply bind_ok in Hds as (deps & Hdeps & [= <-]).
  pose proof (dependencies_nonempty random_uniform g dset x deps HW
                ltac:(lia) Hx Hdeps) as Hne.
  destruct (dependencies_count_bound random_uniform g dset x deps HR Hrn Hdeps)
    as (n & Hn & Hle).
  assert (Hvec : dependencies_vector random_uniform g dset x = Ok deps).
  { unfold dependencies_vector, written_into. rewrite Hn, Hdeps. cbn [bind].
    replace (_ <=? n) with true by (symmetry; apply Z.leb_le; lia). done. }
  assert (Hy : cpp_mod t (nb_fields g) = Ok (t `rem` nb_fields g)).
  { unfold cpp_mod. by destruct (Z.eqb_spec (nb_fields g) 0). }
  assert (Hy1 : cpp_mod (t - 1) (nb_fields g) = Ok ((t - 1) `rem` nb_fields g)).
  { unfold cpp_mod. by destruct (Z.eqb_spec (nb_fields g) 0). }
  assert (Hinsert : forall ds0 : list Z,
            Z.of_nat (length ds0) <= 8 ->
            insert_task (task_tiles (nb_fields g) t x ds0)
            = Ok (1 + Z.of_nat (length ds0))).
  { intros ds0 H8. unfold insert_task, task_tiles. simpl length.
    rewrite length_map.
    replace (1 <=? _) with true by (symmetry; apply Z.leb_le; lia).
    replace (_ <=? 10) with true by (symmetry; apply Z.leb_le; lia).
    simpl. f_equal. lia. }
  assert (Hfirst : forall row w,
            table_cell g row x = Ok w ->
            exists sizes,
              push_arg g row x x (t `rem` nb_fields g)
                (mkTaskList [] (replicate 10 None) 1 1)
              = Ok (mkTaskList [(x, t `rem` nb_fields g)] sizes 2 1)
              /\ Z.of_nat (length sizes) = 10).
  { intros row w Hw. unfold push_arg. rewrite Hw. cbn [bind].
    eexists. split; [reflexivity | done]. }
  unfold task_arguments. rewrite Hvec. cbn [bind]. rewrite Hy. cbn [bind].
  destruct (Z.eqb_spec (Z.of_nat (length deps)) 0) as [Hnil|Hsome].
  { destruct deps; [|simpl in Hnil; lia].
    simpl flat_map. rewrite filter_nil. simpl length.
    destruct (Hfirst _ _ Hv0) as (sizes & -> & _).
    split; [|lia]. intros _. exists sizes. split; [done|]. by apply Hinsert. }
  destruct (Z.eqb_spec t 0) as [->|Ht].
  { rewrite no_last_row. simpl length.
    destruct (Hfirst _ _ Hv0) as (sizes & -> & _).
    split; [|lia]. intros _. exists sizes. split; [done|]. by apply Hinsert. }
  destruct (Hfirst _ _ Hv) as (sizes1 & -> & Hs1). cbn [bind].
  destruct (spans_loop g t x v ((t - 1) `rem` nb_fields g) t (nb_fields g)
              Hv Hy1 deps Hne
              (mkTaskList [(x, t `rem` nb_fields g)] sizes1 2 1) Hs1
              ltac:(simpl; lia)) as [Hok Hbad].
  cbn zeta in Hok, Hbad. simpl in Hok, Hbad. split.
  - intros H8. destruct Hok as (sizes & -> & _); [lia|].
    exists sizes. split; [|by apply Hinsert].
    unfold task_tiles. do 2 f_equal; lia.
  - intros H9. apply Hbad. lia.
Qed.

(** X24: for a point [x] of the graph whose sizes [execute_timestep]
    can read and whose row count [nb_fields] is not 0, the OmpSs driver
    builds for the task of [(t, x)] the tile [(x, t % nb_fields)] followed
    by the tiles [(d, (t-1) % nb_fields)] of the required inputs [d], in the
    order in which [execute_point] expects them, and [insert_task] calls
    the task function for that many tiles, as long as there are at most 8
    required inputs; with 9 or more it writes
    [payload.output_bytes_size[10]], behind the array of 10 entries that it
    fills from index 1. *)
Theorem task_arguments_spec (g : TaskGraph) (t dset x : Z) (ds : list Z)
    (v v0 : Z) :
  1 <= max_width g -> 0 <= radix g < 2 ^ 63 ->
  (dependence g = RANDOM_NEAREST -> 0 < radix g) ->
  0 <= x < max_width g -> nb_fields g <> 0 ->
  dependence_set_at_timestep g t = Ok dset ->
  required_inputs random_uniform g t x = Ok ds ->
  table_cell g t x = Ok v ->
  table_cell g (t `rem` nb_fields g) x = Ok v0 ->
  (Z.of_nat (length ds) <= 8 ->
   exists sizes,
     task_arguments random_uniform g t dset x
     = Ok (mkTaskList (task_tiles (nb_fields g) t x ds) sizes
             (2 + Z.of_nat (length ds)) (1 + Z.of_nat (length ds)))
     /\ insert_task (task_tiles (nb_fields g) t x ds)
        = Ok (1 + Z.of_nat (length ds)))
  /\ (9 <= Z.of_nat (length ds) ->
      task_arguments random_uniform g t dset x
      = Undefined "write outside payload.output_bytes_size").
Proof. apply task_arguments_cases. Qed.

(** What [ParsecApp::execute_timestep] builds for a task that it keeps,
    by the number of required inputs. *)
Lemma parsec_build_arguments_cases (g : TaskGraph) (nbf t dset x : Z)
    (deps : list interval) (ds : list Z) (v : Z) :
  1 <= max_width g -> 0 <= radix g < 2 ^ 63 ->
  (dependence g = RANDOM_NEAREST -> 0 < radix g) ->
  0 <= x < max_width g -> nbf <> 0 ->
  dependence_set_at_timestep g t = Ok dset ->
  dependencies random_uniform g dset x = Ok deps ->
  required_inputs random_uniform g t x = Ok ds ->
  table_cell g (t `rem` nbf) x = Ok v ->
  dependencies_vector random_uniform g dset x = Ok deps
  /\ (Z.of_nat (length ds) <= 9 ->
      exists sizes,
        parsec_build_arguments g nbf t x deps
        = Ok (mkTaskList (task_tiles nbf t x ds) sizes
                (1 + Z.of_nat (length ds)) (1 + Z.of_nat (length ds)))
        /\ parsec_insert_task (1 + Z.of_nat (length ds))
             (task_tiles nbf t x ds)
           = Ok (1 + Z.of_nat (length ds)))
  /\ (10 <= Z.of_nat (length ds) ->
      parsec_build_arguments g nbf t x deps
      = Undefined "write outside payload.output_bytes_size").
Proof.
  intros HW HR Hrn Hx Hnbf Hdset Hdeps Hds Hv.
  unfold required_inputs in Hds. rewrite Hdset in Hds. cbn [bind] in Hds.
  rewrite Hdeps in Hds. cbn [bind] in Hds. injection Hds as <-.
  pose proof (dependencies_nonempty random_uniform g dset x deps HW
                ltac:(lia) Hx Hdeps) as Hne.
  destruct (dependencies_count_bound random_uniform g dset x deps HR Hrn Hdeps)
    as (n & Hn & Hle).
  assert (Hvec : dependencies_vector random_uniform g dset x = Ok deps).
  { unfold dependencies_vector, written_into. rewrite Hn, Hdeps. cbn [bind].
    replace (_ <=? n) with true by (symmetry; apply Z.leb_le; lia). done. }
  split; [done|].
  assert (Hy : cpp_mod t nbf = Ok (t `rem` nbf)).
  { unfold cpp_mod. by destruct (Z.eqb_spec nbf 0). }
  assert (Hy1 : cpp_mod (t - 1) nbf = Ok ((t - 1) `rem` nbf)).
  { unfold cpp_mod. by destruct (Z.eqb_spec nbf 0). }
  assert (Hinsert : forall ds0 : list Z,
            Z.of_nat (length ds0) <= 9 ->
            parsec_insert_task (1 + Z.of_nat (length ds0))
              (task_tiles nbf t x ds0)
            = Ok (1 + Z.of_nat (length ds0))).
  { intros ds0 H9. unfold parsec_insert_task, task_tiles. simpl length.
    rewrite length_map.
    replace (1 <=? _) with true by (symmetry; apply Z.leb_le; lia).
    replace (_ <=? 10) with true by (symmetry; apply Z.leb_le; lia).
    replace (_ <=? _) with true by (symmetry; apply Z.leb_le; lia).
    done. }
  assert (Hfirst : exists sizes,
            push_arg g (t `rem` nbf) x x (t `rem` nbf)
              (mkTaskList [] (replicate 10 None) 0 1)
            = Ok (mkTaskList [(x, t `rem` nbf)] sizes 1 1)
            /\ Z.of_nat (length sizes) = 10).
  { unfold push_arg. rewrite Hv. cbn [bind].
    eexists. split; [reflexivity | done]. }
  destruct Hfirst as (sizes1 & Hfirst & Hs1).
  unfold parsec_build_arguments. rewrite Hy.
  cbn [bind]. rewrite Hfirst.
  destruct (Z.eqb_spec (Z.of_nat (length deps)) 0) as [Hnil|Hsome].
  { destruct deps; [|simpl in Hnil; lia].
    simpl flat_map. rewrite filter_nil. simpl length.
    split; [|lia]. intros _. exists sizes1. split; [done|].
    apply (Hinsert []). simpl. lia. }
  destruct (Z.eqb_spec t 0) as [->|Ht].
  { rewrite no_last_row. simpl length.
    split; [|lia]. intros _. exists sizes1. split; [done|].
    apply (Hinsert []). simpl. lia. }
  cbn [bind].
  destruct (spans_loop g t x v ((t - 1) `rem` nbf) (t `rem` nbf) nbf
              Hv Hy1 deps Hne
              (mkTaskList [(x, t `rem` nbf)] sizes1 1 1) Hs1
              ltac:(simpl; lia)) as [Hok Hbad].
  cbn zeta in Hok, Hbad. simpl in Hok, Hbad. split.
  - intros H9. destruct Hok as (sizes & -> & _); [lia|].
    exists sizes. split; [|by apply Hinsert]. done.
  - intros H10. apply Hbad. lia.
Qed.

(** X25: the loop body of [ParsecApp::execute_timestep], with the block
    that [ENABLE_PRUNE_MPI_TASK_INSERT] compiles in.  When that block ends
    with [has_task == 0] the task is skipped before any tile is pushed.
    A rank never skips a task whose own tile it holds.  For a task that is
    kept, the driver builds the tile [(x, t % nb_fields)] followed by the
    tiles [(d, (t-1) % nb_fields)] of the required inputs [d], keeps
    [num_args] equal to the number of tiles, and [insert_task] finds all
    the tiles that its case reads, as long as there are at most 9 required
    inputs; it fills [payload.output_bytes_size] from index 0, and writes
    behind the array with 10 or more required inputs. *)
Theorem parsec_task_arguments_spec (rank_of : Z -> Z -> Z) (g : TaskGraph)
    (nbf rank t dset x : Z) (deps : list interval) (ds : list Z) (v : Z)
    (keep : bool) :
  1 <= max_width g -> 0 <= radix g < 2 ^ 63 ->
  (dependence g = RANDOM_NEAREST -> 0 < radix g) ->
  0 <= x < max_width g -> nbf <> 0 ->
  dependence_set_at_timestep g t = Ok dset ->
  dependencies random_uniform g dset x = Ok deps ->
  required_inputs random_uniform g t x = Ok ds ->
  table_cell g (t `rem` nbf) x = Ok v ->
  parsec_has_task random_uniform rank_of g nbf rank t x deps = Ok keep ->
  (rank = rank_of (t `rem` nbf) x -> keep = true)
  /\ (keep = false ->
      parsec_task_arguments random_uniform rank_of g nbf rank t dset x
      = Ok None)
  /\ (keep = true ->
      (Z.of_nat (length ds) <= 9 ->
       exists sizes,
         parsec_task_arguments random_uniform rank_of g nbf rank t dset x
         = Ok (Some (mkTaskList (task_tiles nbf t x ds) sizes
                       (1 + Z.of_nat (length ds))
                       (1 + Z.of_nat (length ds))))
         /\ parsec_insert_task (1 + Z.of_nat (length ds))
              (task_tiles nbf t x ds)
            = Ok (1 + Z.of_nat (length ds)))
      /\ (10 <= Z.of_nat (length ds) ->
          parsec_task_arguments random_uniform rank_of g nbf rank t dset x
          = Undefined "write outside payload.output_bytes_size")).
Proof.
  intros HW HR Hrn Hx Hnbf Hdset Hdeps Hds Hv Hkeep.
  destruct (parsec_build_arguments_cases g nbf t dset x deps ds v HW HR Hrn
              Hx Hnbf Hdset Hdeps Hds Hv) as (Hvec & Hok & Hbad).
  split; [|split].
  - intros Hown. revert Hkeep. unfold parsec_has_task, cpp_mod.
    destruct (Z.eqb_spec nbf 0) as [?|_]; [done|]. cbn [bind].
    rewrite <- Hown, Z.eqb_refl. cbn [negb]. rewrite andb_false_r.
    cbn [bind negb]. rewrite andb_false_r. by intros [= <-].
  - intros ->. unfold parsec_task_arguments.
    rewrite Hvec. cbn [bind]. rewrite Hkeep. done.
  - intros ->. unfold parsec_task_arguments.
    rewrite Hvec. cbn [bind]. rewrite Hkeep. cbn [bind negb]. split.
    + intros H9. destruct (Hok H9) as (sizes & -> & Hins).
      by exists sizes.
    + intros H10. by rewrite (Hbad H10).
Qed.

End OmpSs.

Section OmpSsRun.

Variable random_uniform : list Z -> Q.

Lemma tile_at_insert_eq (mat : list (list (Z * Z))) (N y x : Z)
    (old new : list (Z * Z)) :
  tile_at mat N y x = Ok old ->
  tile_at (<[Z.to_nat (y * N + x) := new]> mat) N y x = Ok new.
Proof.
  unfold tile_at. destruct (Z.ltb_spec (y * N + x) 0); [done|].
  destruct (mat !! Z.to_nat (y * N + x)) eqn:E; [|done]. intros _.
  rewrite list_lookup_insert_eq; [done|]. by apply lookup_lt_Some in E.
Qed.

Lemma tile_at_insert_ne (mat : list (list (Z * Z))) (N y x y0 x0 : Z)
    (new : list (Z * Z)) :
  0 <= x < N -> 0 <= x0 < N -> 0 <= y -> 0 <= y0 ->
  y <> y0 \/ x <> x0 ->
  tile_at (<[Z.to_nat (y0 * N + x0) := new]> mat) N y x = tile_at mat N y x.
Proof.
  intros Hx Hx0 Hy Hy0 Hne. unfold tile_at.
  destruct (Z.ltb_spec (y * N + x) 0); [done|].
  rewrite list_lookup_insert_ne; [done|].
  assert (y * N + x <> y0 * N + x0); [|nia].
  destruct (Z.lt_total y y0) as [Hlt|[->|Hlt]]; nia.
Qed.

Lemma row_points_spec (g : TaskGraph) (t x : Z) :
  x ∈ row_points g t
  <-> offset_at_timestep g t <= x
      < offset_at_timestep g t + width_at_timestep g t.
Proof. unfold row_points, range_incl. rewrite elem_of_seqZ. lia. Qed.

Lemma rem_rows (t n : Z) :
  0 <= t -> 2 <= n ->
  0 <= t `rem` n < n /\ (1 <= t -> t `rem` n <> (t - 1) `rem` n
                                   /\ 0 <= (t - 1) `rem` n < n).
Proof.
  intros Ht Hn. rewrite Z.rem_mod_nonneg by lia. split.
  - apply Z.mod_pos_bound. lia.
  - intros H1. rewrite Z.rem_mod_nonneg by lia. split.
    + intros Heq. pose proof (Z.div_mod t n ltac:(lia)) as E1.
      pose proof (Z.div_mod (t - 1) n ltac:(lia)) as E2.
      assert (E : n * (t `div` n - (t - 1) `div` n) = 1) by lia.
      destruct (Z.le_gt_cases (t `div` n - (t - 1) `div` n) 0); nia.
    + apply Z.mod_pos_bound. lia.
Qed.

Lemma map_result_inputs (g : TaskGraph) (mat : list (list (Z * Z)))
    (t : Z) (ds : list Z) :
  Forall (fun d => tile_done g mat (t - 1) d) ds ->
  exists bs,
    map_result (arg_buffer g mat)
      (map (fun d => (d, (t - 1) `rem` nb_fields g)) ds) = Ok bs
    /\ length bs = length ds
    /\ forallb (fun db : Z * buffer => payload_ok (t - 1) (fst db) (snd db))
         (zip ds bs) = true.
Proof.
  induction 1 as [|d ds (c & tile & Hc & Htile & Hpay) _ (bs & Hbs & Hlen & Hall)].
  - by exists [].
  - exists (mkBuffer c tile :: bs). simpl. rewrite Hc, Htile, Hbs. simpl.
    rewrite Hpay, Hall. auto.
Qed.

Section Run.

Variable g : TaskGraph.
Variable scratch_ptr : option (list Z).

Hypothesis valid : valid_graph random_uniform g.
Hypothesis fields : 2 <= nb_fields g.
Hypothesis few : few_inputs random_uniform g 8 = true.
Hypothesis scratch :
  0 < scratch_bytes_per_task g ->
  exists rest, scratch_ptr = Some (MAGIC_VALUE :: rest).
Hypothesis kernel_plain : needs_scratch (kernel_type (kernel g)) = false.

(** One task. *)
Lemma run_task_ok (mat : list (list (Z * Z))) (t x dset : Z) :
  0 <= t < timesteps g -> x ∈ row_points g t ->
  tile_fits g mat t x = true ->
  (forall d, d ∈ row_points g (t - 1) -> tile_done g mat (t - 1) d) ->
  dependence_set_at_timestep g t = Ok dset ->
  exists tl c old new,
    task_arguments random_uniform g t dset x = Ok tl
    /\ table_cell g (t `rem` nb_fields g) x = Ok c
    /\ tile_at mat (max_width g) (t `rem` nb_fields g) x = Ok old
    /\ run_task random_uniform g scratch_ptr mat x t (tl_args tl)
       = ([], Ok (<[Z.to_nat (t `rem` nb_fields g * max_width g + x) := new]>
                    mat))
    /\ length new = length old
    /\ payload_ok t x (mkBuffer c new) = true.
Proof using valid fields few scratch kernel_plain.
  intros Ht Hx Hfit Hdone Hdset.
  destruct (valid_graph_facts random_uniform g valid) as (Hd & HM & HR).
  pose proof valid as (_ & HW & _).
  destruct (row_in_bounds g t ltac:(lia) ltac:(lia)) as (Ho & Hw & How).
  apply row_points_spec in Hx.
  (* the required inputs *)
  destruct (required_inputs random_uniform g t x) as [ds| | | | |] eqn:Hds;
    try (pose proof (required_inputs_total random_uniform g t x valid
                       ltac:(lia)) as Hok; rewrite Hds in Hok; discriminate).
  assert (H8 : Z.of_nat (length ds) <= 8).
  { unfold few_inputs in few. rewrite forallb_forall in few.
    specialize (few t). rewrite forallb_forall in few.
    assert (Hin : In t (range_excl 0 (timesteps g))).
    { apply list_elem_of_In, elem_of_seqZ. lia. }
    specialize (few Hin x (proj1 (list_elem_of_In _ _)
                             (proj2 (row_points_spec g t x) Hx))).
    rewrite Hds in few. by apply Z.leb_le. }
  assert (Hrow : Forall (fun d => d ∈ row_points g (t - 1)) ds).
  { pose proof Hds as Hds'. unfold required_inputs in Hds'.
    apply bind_ok in Hds' as (? & _ & Hds').
    apply bind_ok in Hds' as (? & _ & [= <-]).
    apply Forall_forall. intros d [Hd' _]%list_elem_of_filter.
    by apply row_points_spec. }
  (* the sizes *)
  unfold tile_fits in Hfit. apply andb_true_iff in Hfit as [Hv Hfit].
  destruct (table_cell g t x) as [v| | | | |] eqn:Hcell; try done.
  destruct (table_cell g (t `rem` nb_fields g) x) as [c| | | | |] eqn:Hc;
    try done.
  destruct (tile_at mat (max_width g) (t `rem` nb_fields g) x)
    as [old| | | | |] eqn:Hold; try done.
  apply andb_true_iff in Hfit as [Hc16%Z.leb_le Hlen%Z.leb_le].
  destruct (task_arguments_cases random_uniform g t dset x ds v c HW
              ltac:(lia) ltac:(lia) ltac:(lia) ltac:(lia) Hdset Hds Hcell Hc)
    as [Hargs _].
  destruct (Hargs H8) as (sizes & Htl & Hins).
  (* the buffers *)
  destruct (map_result_inputs g mat t ds) as (bs & Hbs & Hbl & Hpay).
  { eapply Forall_impl; [exact Hrow|]. intros d Hd'. by apply Hdone. }
  assert (Hready : inputs_ready random_uniform g t x
                     (match bs with [] => [mkBuffer c old] | _ => bs end)
                   = true).
  { unfold inputs_ready. rewrite Hds. destruct bs as [|b bs].
    - destruct ds; [done | discriminate].
    - rewrite Hpay, andb_true_r. apply Nat.leb_le. lia. }
  destruct (execute_point_ok random_uniform g t x (mkBuffer c old) c
              (match bs with [] => [mkBuffer c old] | _ => bs end) scratch_ptr
              valid Ht Hx Hready Hc16 Hlen scratch)
    as (out & Hrun & Hout & Hlo).
  { by rewrite kernel_plain. }
  exists (mkTaskList (task_tiles (nb_fields g) t x ds) sizes
            (2 + Z.of_nat (length ds)) (1 + Z.of_nat (length ds))),
    c, old, (slots out).
  split; [done|]. split; [done|]. split; [done|]. split; [|done].
  unfold run_task. cbn [tl_args]. rewrite Hins. unfold lift.
  rewrite lbind_pure. unfold task_tiles. cbn [map_result arg_buffer].
  rewrite Hc, Hold. cbn [bind]. rewrite Hbs. cbn [bind].
  rewrite lbind_pure. cbn [bytes]. rewrite Hrun. by rewrite lbind_pure.
Qed.

Lemma no_row_before_first (d : Z) : d ∈ row_points g (0 - 1) -> False.
Proof.
  intros Hd%row_points_spec. revert Hd.
  unfold offset_at_timestep, width_at_timestep. simpl. lia.
Qed.

(** A task changes one tile and keeps its length. *)
Lemma tile_fits_insert (mat : list (list (Z * Z))) (t x y0 x0 : Z)
    (old new : list (Z * Z)) :
  tile_at mat (max_width g) y0 x0 = Ok old -> length new = length old ->
  0 <= x0 < max_width g -> 0 <= y0 -> 0 <= x < max_width g -> 0 <= t ->
  tile_fits g mat t x = true ->
  tile_fits g (<[Z.to_nat (y0 * max_width g + x0) := new]> mat) t x = true.
Proof using fields.
  intros Hold Hlen Hx0 Hy0 Hx Ht. unfold tile_fits.
  destruct (rem_rows t (nb_fields g) Ht fields) as [Hy _].
  destruct (decide (t `rem` nb_fields g = y0 /\ x = x0)) as [[<- ->]|Hne].
  - rewrite (tile_at_insert_eq _ _ _ _ old new Hold), Hold.
    by rewrite Hlen.
  - rewrite tile_at_insert_ne; [done|done|done|lia|done|].
    destruct (decide (t `rem` nb_fields g = y0)); [right|left]; tauto.
Qed.

Lemma tile_done_insert (mat : list (list (Z * Z))) (t x y0 x0 : Z)
    (new : list (Z * Z)) :
  0 <= x0 < max_width g -> 0 <= y0 -> 0 <= x < max_width g -> 0 <= t ->
  t `rem` nb_fields g <> y0 \/ x <> x0 ->
  tile_done g mat t x ->
  tile_done g (<[Z.to_nat (y0 * max_width g + x0) := new]> mat) t x.
Proof using fields.
  intros Hx0 Hy0 Hx Ht Hne (c & tile & Hc & Htile & Hpay).
  destruct (rem_rows t (nb_fields g) Ht fields) as [Hy _].
  exists c, tile. split; [done|]. split; [|done].
  rewrite tile_at_insert_ne; [done|done|done|lia|done|done].
Qed.

(** The tasks of one row, from point [a] on. *)
Lemma row_loop (t dset : Z) :
  0 <= t < timesteps g ->
  dependence_set_at_timestep g t = Ok dset ->
  forall (n : nat) (a : Z) (mat : list (list (Z * Z))),
    offset_at_timestep g t <= a ->
    a + Z.of_nat n = offset_at_timestep g t + width_at_timestep g t ->
    (forall t' x', 0 <= t' < timesteps g -> x' ∈ row_points g t' ->
       tile_fits g mat t' x' = true) ->
    (forall d, d ∈ row_points g (t - 1) -> tile_done g mat (t - 1) d) ->
    (forall x, x ∈ row_points g t -> x < a -> tile_done g mat t x) ->
    exists mat',
      lfold (fun mat x =>
               lbind (lift (task_arguments random_uniform g t dset x))
                 (fun tl => run_task random_uniform g scratch_ptr mat x t
                              (tl_args tl)))
        (seqZ a (Z.of_nat n)) mat = ([], Ok mat')
      /\ (forall t' x', 0 <= t' < timesteps g -> x' ∈ row_points g t' ->
            tile_fits g mat' t' x' = true)
      /\ (forall x, x ∈ row_points g t -> tile_done g mat' t x).
Proof using valid fields few scratch kernel_plain.
  intros Ht Hdset. pose proof valid as (_ & HW & _).
  destruct (row_in_bounds g t ltac:(lia) ltac:(lia)) as (Ho & Hw & How).
  destruct (rem_rows t (nb_fields g) ltac:(lia) fields) as [Hy Hy1].
  induction n as [|n IH]; intros a mat Ha Hn Hfit Hlast Hrow.
  - exists mat. split; [done|]. split; [done|]. intros x Hx.
    apply Hrow; [done|]. apply row_points_spec in Hx. lia.
  - rewrite seqZ_cons by lia.
    replace (Z.pred (Z.of_nat (S n))) with (Z.of_nat n) by lia.
    assert (Hin : a ∈ row_points g t) by (apply row_points_spec; lia).
    destruct (run_task_ok mat t a dset Ht Hin (Hfit t a Ht Hin) Hlast Hdset)
      as (tl & c & old & new & Htl & Hc & Hold & Hrun & Hlen & Hpay).
    rewrite lfold_cons, Htl. unfold lift at 1. rewrite lbind_pure, Hrun.
    rewrite lbind_pure.
    destruct (IH (Z.succ a)
                (<[Z.to_nat (t `rem` nb_fields g * max_width g + a) := new]>
                   mat)) as (mat' & Hfold & Hfit' & Hdone'); try lia.
    + intros t' x' Ht' Hx'.
      destruct (row_in_bounds g t' ltac:(lia) ltac:(lia)) as (Ho' & Hw' & How').
      apply row_points_spec in Hx' as Hx''.
      apply (tile_fits_insert _ _ _ _ _ old); (done || lia || auto).
    + intros d Hd. destruct (Z.eq_dec t 0) as [->|Ht0].
      { by destruct (no_row_before_first d). }
      destruct (row_in_bounds g (t - 1) ltac:(lia) ltac:(lia))
        as (Ho' & Hw' & How').
      apply row_points_spec in Hd as Hd'.
      apply tile_done_insert; [lia | lia | lia | lia | | by apply Hlast].
      left. destruct (Hy1 ltac:(lia)) as [Hne _]. congruence.
    + intros x Hx Hlt. apply row_points_spec in Hx as Hx'.
      destruct (Z.eq_dec x a) as [->|Hxa].
      * exists c, new. split; [done|]. split; [|done].
        by apply (tile_at_insert_eq _ _ _ _ old).
      * apply tile_done_insert; [lia | lia | lia | lia | by right |].
        apply Hrow; [done | lia].
    + by exists mat'.
Qed.

(** The timesteps from [t] on. *)
Lemma timesteps_loop :
  forall (n : nat) (t : Z) (mat : list (list (Z * Z))),
    0 <= t -> t + Z.of_nat n = timesteps g ->
    (forall t' x', 0 <= t' < timesteps g -> x' ∈ row_points g t' ->
       tile_fits g mat t' x' = true) ->
    (forall d, d ∈ row_points g (t - 1) -> tile_done g mat (t - 1) d) ->
    exists mat',
      lfold (execute_timestep random_uniform g scratch_ptr)
        (seqZ t (Z.of_nat n)) mat = ([], Ok mat')
      /\ forall x, x ∈ row_points g (timesteps g - 1) ->
           tile_done g mat' (timesteps g - 1) x.
Proof using valid fields few scratch kernel_plain.
  destruct (valid_graph_facts random_uniform g valid) as (Hd & HM & HR).
  pose proof valid as (_ & HW & _).
  induction n as [|n IH]; intros t mat Ht Hn Hfit Hlast.
  - exists mat. split; [done|]. intros x Hx.
    replace (timesteps g) with (t + 0) by lia. rewrite Z.add_0_r.
    apply Hlast. by replace t with (timesteps g) by lia.
  - rewrite seqZ_cons by lia.
    replace (Z.pred (Z.of_nat (S n))) with (Z.of_nat n) by lia.
    destruct (dependence_set_in_range g t HM Ht) as (dset & Hdset & _).
    destruct (row_in_bounds g t ltac:(lia) ltac:(lia)) as (Ho & Hw & How).
    destruct (row_loop t dset ltac:(lia) Hdset
                (Z.to_nat (width_at_timestep g t)) (offset_at_timestep g t)
                mat ltac:(lia) ltac:(lia) Hfit Hlast)
      as (mat1 & Hrow & Hfit1 & Hdone1).
    { intros x Hx%row_points_spec. lia. }
    rewrite lfold_cons. unfold execute_timestep at 1.
    rewrite Hdset. unfold lift at 1. rewrite lbind_pure.
    unfold range_incl.
    replace (offset_at_timestep g t + width_at_timestep g t - 1
             - offset_at_timestep g t + 1)
      with (Z.of_nat (Z.to_nat (width_at_timestep g t))) by lia.
    rewrite Hrow, lbind_pure.
    apply (IH (Z.succ t) mat1); [lia | lia | done |].
    by replace (Z.succ t - 1) with t by lia.
Qed.

End Run.

(** X29: one graph of the OmpSs driver, its tasks taken in the order of
    their insertion.  In a valid graph with at least two rows of tiles,
    whose points have at most 8 required inputs each, whose kernel asks for
    no scratch buffer, and with a matrix in which every tile that a task
    works on holds the bytes that [output_bytes_size] gives for it (at least
    16), the loop over the timesteps runs through: every [execute_point]
    finds the records of the previous timestep in its inputs, no assertion
    fails and no corruption is reported, and in the end the tile of every
    point [x] of the last row holds the records [(timesteps - 1, x)]. *)
Theorem execute_graph_runs (g : TaskGraph) (scratch_ptr : option (list Z))
    (mat : list (list (Z * Z))) :
  valid_graph random_uniform g ->
  2 <= nb_fields g ->
  few_inputs random_uniform g 8 = true ->
  tiles_fit g mat = true ->
  (0 < scratch_bytes_per_task g ->
   exists rest, scratch_ptr = Some (MAGIC_VALUE :: rest)) ->
  needs_scratch (kernel_type (kernel g)) = false ->
  exists mat',
    execute_graph random_uniform g scratch_ptr mat = ([], Ok mat')
    /\ forall x, x ∈ row_points g (timesteps g - 1) ->
         tile_done g mat' (timesteps g - 1) x.
Proof.
  intros Hv Hf Hfew Hfit Hs Hk. pose proof Hv as (HT & _).
  unfold execute_graph, range_excl. rewrite Z.sub_0_r.
  replace (seqZ 0 (timesteps g))
    with (seqZ 0 (Z.of_nat (Z.to_nat (timesteps g)))) by (f_equal; lia).
  apply (timesteps_loop g scratch_ptr Hv Hf Hfew Hs Hk); [lia | lia | |].
  - intros t x Ht Hx. unfold tiles_fit in Hfit.
    rewrite forallb_forall in Hfit.
    assert (Hin : In t (range_excl 0 (timesteps g))).
    { apply list_elem_of_In, elem_of_seqZ. lia. }
    specialize (Hfit t Hin). rewrite forallb_forall in Hfit.
    by apply Hfit, list_elem_of_In.
  - intros d Hd. by destruct (no_row_before_first g d).
Qed.

End OmpSsRun.

Section OmpSsTiles.

Variable sample_histogram : TaskGraph -> Z -> list Z.
Variable malloc : Z -> list (Z * Z).

Lemma tiles_filled_next (size k : Z) (tile : list (Z * Z)) :
  0 <= k < size ->
  <[Z.to_nat k := tile]> (tiles_filled size k tile)
  = tiles_filled size (k + 1) tile.
Proof.
  intros Hk. unfold tiles_filled.
  replace (Z.to_nat (size - k)) with (S (Z.to_nat (size - (k + 1)))) by lia.
  replace (Z.to_nat (k + 1)) with (S (Z.to_nat k)) by lia.
  generalize (Z.to_nat (size - (k + 1))) as m.
  induction (Z.to_nat k) as [|n IH]; intros m; [done|].
  change (tile :: <[n := tile]> (replicate n tile ++ replicate (S m) [])
          = tile :: (replicate (S n) tile ++ replicate m [])).
  by rewrite IH.
Qed.

Lemma tiles_filled_length (size k : Z) (tile : list (Z * Z)) :
  0 <= k <= size -> Z.of_nat (length (tiles_filled size k tile)) = size.
Proof.
  intros Hk. unfold tiles_filled. rewrite length_app, !length_replicate. lia.
Qed.

Section Allocated.

Variable g : TaskGraph.
Variable c : Z.

Hypothesis width : 1 <= max_width g.
Hypothesis cells :
  forall t w, 0 <= t < nb_fields g -> 0 <= w < max_width g ->
    table_cell g t w
    = if in_row g t w then Ok c else Undefined "read of an unwritten cell".

(** The tiles of row [t], from column [w] on. *)
Lemma tiles_row (t : Z) :
  0 <= t < nb_fields g ->
  forall (n : nat) (w : Z),
    0 <= w -> w + Z.of_nat n <= max_width g ->
    foldM (allocate_tile malloc g t) (seqZ w (Z.of_nat n))
      (tiles_filled (nb_fields g * max_width g) (max_width g * t + w)
         (malloc c))
    = if forallb (in_row g t) (seqZ w (Z.of_nat n)) then
        Ok (tiles_filled (nb_fields g * max_width g)
              (max_width g * t + w + Z.of_nat n) (malloc c))
      else Undefined "read of an unwritten cell".
Proof using width cells.
  intros Ht. induction n as [|n IH]; intros w Hw Hn.
  - simpl. by rewrite Z.add_0_r.
  - rewrite seqZ_cons by lia.
    replace (Z.pred (Z.of_nat (S n))) with (Z.of_nat n) by lia.
    cbn [foldM forallb]. unfold allocate_tile at 1. rewrite cells by lia.
    destruct (in_row g t w); [|done]. cbn [bind andb]. cbn zeta.
    assert (Hk : 0 <= max_width g * t + w < nb_fields g * max_width g) by nia.
    rewrite tiles_filled_length by lia.
    destruct (Z.ltb_spec (max_width g * t + w) 0); [lia|].
    destruct (Z.leb_spec (nb_fields g * max_width g) (max_width g * t + w));
      [lia|].
    cbn [orb]. rewrite tiles_filled_next by done.
    replace (max_width g * t + w + 1) with (max_width g * t + Z.succ w) by lia.
    cbn [bind]. rewrite IH by lia.
    by replace (max_width g * t + Z.succ w + Z.of_nat n)
      with (max_width g * t + w + Z.of_nat (S n)) by lia.
Qed.

(** The rows from [t] on. *)
Lemma tiles_rows :
  forall (n : nat) (t : Z),
    0 <= t -> t + Z.of_nat n <= nb_fields g ->
    foldM (fun data t =>
             foldM (allocate_tile malloc g t) (range_excl 0 (max_width g)) data)
      (seqZ t (Z.of_nat n))
      (tiles_filled (nb_fields g * max_width g) (max_width g * t) (malloc c))
    = if forallb (fun t => forallb (in_row g t) (range_excl 0 (max_width g)))
           (seqZ t (Z.of_nat n)) then
        Ok (tiles_filled (nb_fields g * max_width g)
              (max_width g * (t + Z.of_nat n)) (malloc c))
      else Undefined "read of an unwritten cell".
Proof using width cells.
  induction n as [|n IH]; intros t Ht Hn.
  - simpl. by rewrite Z.add_0_r.
  - rewrite seqZ_cons by lia.
    replace (Z.pred (Z.of_nat (S n))) with (Z.of_nat n) by lia.
    cbn [foldM forallb].
    pose proof (tiles_row t ltac:(lia) (Z.to_nat (max_width g)) 0 ltac:(lia)
                  ltac:(lia)) as Hrow.
    rewrite Z2Nat.id, Z.add_0_r in Hrow by lia.
    unfold range_excl at 1 3. rewrite Z.sub_0_r, Hrow.
    destruct (forallb (in_row g t) (seqZ 0 (max_width g))); [|done].
    cbn [bind andb].
    replace (max_width g * t + max_width g) with (max_width g * Z.succ t)
      by lia.
    rewrite IH by lia.
    by replace (Z.succ t + Z.of_nat n) with (t + Z.of_nat (S n)) by lia.
Qed.

Lemma allocate_tiles_result :
  0 <= nb_fields g ->
  allocate_tiles malloc g
  = if full_rows g then
      Ok (replicate (Z.to_nat (nb_fields g * max_width g)) (malloc c))
    else Undefined "read of an unwritten cell".
Proof using width cells.
  intros HM. unfold allocate_tiles, full_rows.
  pose proof (tiles_rows (Z.to_nat (nb_fields g)) 0 ltac:(lia) ltac:(lia))
    as Hrows.
  rewrite Z2Nat.id, Z.mul_0_r, Z.add_0_l in Hrows by lia.
  unfold tiles_filled in Hrows at 1. rewrite Z.sub_0_r in Hrows.
  simpl app in Hrows. unfold range_excl at 2 4. rewrite Z.sub_0_r.
  cbn zeta. rewrite Hrows. destruct (forallb _ _); [|done].
  unfold tiles_filled. rewrite Z.mul_comm, Z.sub_diag. simpl.
  by rewrite app_nil_r.
Qed.

End Allocated.

Lemma in_row_spec (g : TaskGraph) (t x : Z) :
  in_row g t x = true <-> x ∈ row_points g t.
Proof.
  unfold in_row. rewrite row_points_spec, andb_true_iff, Z.leb_le, Z.ltb_lt.
  done.
Qed.

(** The matrix of a graph whose rows are full fits the tasks of the main
    loop. *)
Lemma full_rows_fit (g : TaskGraph) (c : Z) (tile : list (Z * Z)) :
  1 <= max_width g -> 1 <= nb_fields g ->
  (forall t w, 0 <= t < timesteps g -> 0 <= w < max_width g ->
     in_row g t w = true -> table_cell g t w = Ok c) ->
  nb_fields g <= timesteps g ->
  sizeof_pair <= c -> c `quot` sizeof_pair <= Z.of_nat (length tile) ->
  full_rows g = true ->
  tiles_fit g (replicate (Z.to_nat (nb_fields g * max_width g)) tile) = true.
Proof.
  intros HW HM Hcells HMT Hc Hlen Hfull. unfold tiles_fit.
  apply forallb_forall. intros t [Ht0 Ht]%list_elem_of_In%elem_of_seqZ.
  apply forallb_forall. intros x Hx%list_elem_of_In.
  destruct (row_in_bounds g t ltac:(lia) ltac:(lia)) as (Ho & Hw & How).
  pose proof (proj1 (row_points_spec g t x) Hx) as Hx'.
  pose proof (Z.rem_bound_pos t (nb_fields g) ltac:(lia) ltac:(lia)) as Hy.
  unfold full_rows in Hfull. rewrite forallb_forall in Hfull.
  specialize (Hfull (t `rem` nb_fields g)). rewrite forallb_forall in Hfull.
  assert (Hrow : in_row g (t `rem` nb_fields g) x = true).
  { apply Hfull; apply list_elem_of_In, elem_of_seqZ; lia. }
  unfold tile_fits.
  rewrite (Hcells t x) by (lia || by apply in_row_spec).
  rewrite (Hcells (t `rem` nb_fields g) x) by (lia || done).
  unfold tile_at.
  destruct (Z.ltb_spec (t `rem` nb_fields g * max_width g + x) 0); [nia|].
  rewrite lookup_replicate_2 by nia. simpl.
  apply andb_true_iff. split; [by apply Z.leb_le | by apply Z.leb_le].
Qed.

(** X30: the tiles that the constructor of the OmpSs driver allocates
    for a graph whose table [allocate_bytes] has just filled with a uniform
    size.  The constructor reads [output_bytes_size[t][w]] for every
    [t < nb_fields] and [w < max_width]: when each of these rows spans the
    whole width, every tile gets [output_bytes_per_task] bytes and the
    matrix fits the tasks of the main loop; when one of these points lies
    outside its row, the constructor reads a cell that was never
    written. *)
Theorem allocate_tiles_spec (g : TaskGraph) (nbf : Z) :
  1 <= timesteps g -> 1 <= max_width g ->
  output_bytes_size g
  = Some (replicate (Z.to_nat (timesteps g))
            (replicate (Z.to_nat (max_width g)) None)) ->
  output_bytes_per_task g = 16 \/ output_case g = 0 ->
  sizeof_pair <= output_bytes_per_task g ->
  output_bytes_per_task g `quot` sizeof_pair
  <= Z.of_nat (length (malloc (output_bytes_per_task g))) ->
  1 <= nbf <= timesteps g ->
  exists g',
    allocate_bytes sample_histogram g = Ok g'
    /\ (full_rows (set_nb_fields nbf g') = true ->
        allocate_tiles malloc (set_nb_fields nbf g')
        = Ok (replicate (Z.to_nat (nbf * max_width g))
                (malloc (output_bytes_per_task g)))
        /\ tiles_fit (set_nb_fields nbf g')
             (replicate (Z.to_nat (nbf * max_width g))
                (malloc (output_bytes_per_task g))) = true)
    /\ (full_rows (set_nb_fields nbf g') = false ->
        allocate_tiles malloc (set_nb_fields nbf g')
        = Undefined "read of an unwritten cell").
Proof.
  intros HT HW Htab Hcase Hc Hlen Hnbf.
  destruct (allocate_bytes_table sample_histogram g ltac:(lia) ltac:(lia) Htab Hcase)
    as (tab & Halloc & Hread).
  exists (set_output_bytes_size (Some tab) g). split; [done|].
  pose proof (allocate_tiles_result
                (set_nb_fields nbf (set_output_bytes_size (Some tab) g))
                (output_bytes_per_task g) HW) as Hres.
  cbn [nb_fields max_width set_nb_fields set_output_bytes_size] in Hres.
  rewrite Hres; [| |lia].
  - split; intros Hfull; rewrite Hfull; [|done]. split; [done|].
    apply (full_rows_fit
             (set_nb_fields nbf (set_output_bytes_size (Some tab) g))
             (output_bytes_per_task g)); try done; simpl; try lia.
    intros t w Ht Hw Hin. unfold table_cell. simpl.
    rewrite Hread by done. change (in_row g t w = true) in Hin.
    by rewrite Hin.
  - intros t w Ht Hw. unfold table_cell. simpl. by rewrite Hread by lia.
Qed.

End OmpSsTiles.

Section MpiRanks.

Lemma rank_start_facts (W n : Z) :
  1 <= n -> 0 <= W ->
  rank_start W n 0 = 0 /\ rank_start W n n = W
  /\ forall r, 0 <= r -> 0 <= rank_start W n r <= rank_start W n (r + 1).
Proof.
  intros Hn HW. unfold rank_start. split; [|split].
  - by rewrite Z.mul_0_l, Z.quot_0_l by lia.
  - rewrite Z.quot_div_nonneg by nia. rewrite Z.mul_comm. apply Z.div_mul. lia.
  - intros r Hr. assert (0 <= r * W) by nia. assert (0 <= (r + 1) * W) by nia.
    rewrite !Z.quot_div_nonneg by lia.
    split; [apply Z.div_pos; lia | apply Z.div_le_mono; nia].
Qed.

Lemma tag_fits (x : Z) : Z.land x (Z.lnot 127) = 0 <-> 0 <= x < 128.
Proof.
  rewrite <- Z.ldiff_land. change 127 with (Z.ones 7).
  rewrite Z.ldiff_ones_r by lia.
  rewrite Z.shiftr_div_pow2, Z.shiftl_mul_pow2 by lia.
  change (2 ^ 7) with 128.
  pose proof (Z.div_mod x 128 ltac:(lia)).
  pose proof (Z.mod_pos_bound x 128 ltac:(lia)). lia.
Qed.

Lemma to_int_small (x : Z) : - 2 ^ 31 <= x < 2 ^ 31 -> to_int x = x.
Proof. intros Hx. unfold to_int. rewrite Z.mod_small; lia. Qed.

(** The loop over the points of rank [r], which start at [f]. *)
Lemma assign_points (W r f : Z) (c : nat) :
  forall a ranks tags,
    Z.of_nat (length ranks) = W -> Z.of_nat (length tags) = W ->
    0 <= f <= a -> a + Z.of_nat c <= W -> a + Z.of_nat c - f <= 128 ->
    exists ranks' tags',
      foldM (assign_point r f) (seqZ a (Z.of_nat c)) (ranks, tags)
      = Ok (ranks', tags')
      /\ Z.of_nat (length ranks') = W /\ Z.of_nat (length tags') = W
      /\ forall k : nat,
           (a <= Z.of_nat k < a + Z.of_nat c ->
            ranks' !! k = Some r /\ tags' !! k = Some (Z.of_nat k - f))
           /\ (~ a <= Z.of_nat k < a + Z.of_nat c ->
               ranks' !! k = ranks !! k /\ tags' !! k = tags !! k).
Proof.
  induction c as [|c IH]; intros a ranks tags Hr Ht Hf HW H128.
  - exists ranks, tags. simpl. repeat split; (done || lia).
  - rewrite seqZ_cons by lia.
    replace (Z.pred (Z.of_nat (S c))) with (Z.of_nat c) by lia.
    simpl foldM. unfold assign_point at 1.
    destruct (Z.ltb_spec a 0); [lia|].
    destruct (Z.leb_spec (Z.of_nat (length ranks)) a); [lia|]. cbn [orb].
    rewrite to_int_small by lia.
    replace (Z.land (a - f) (Z.lnot 127) =? 0) with true
      by (symmetry; apply Z.eqb_eq, tag_fits; lia).
    cbn [assert bind].
    destruct (IH (Z.succ a) (<[Z.to_nat a := r]> ranks)
                (<[Z.to_nat a := a - f]> tags))
      as (ranks' & tags' & Hfold & Hr' & Ht' & Hk);
      [by rewrite length_insert | by rewrite length_insert | lia | lia | lia |].
    exists ranks', tags'. split; [done|]. split; [done|]. split; [done|].
    intros k. destruct (Hk k) as [Hin Hout]. split.
    + intros Hrange. destruct (decide (Z.of_nat k = a)) as [<-|Hne].
      * destruct Hout as [-> ->]; [lia|]. rewrite Nat2Z.id.
        rewrite !list_lookup_insert_eq by lia. done.
      * apply Hin. lia.
    + intros Hrange. destruct Hout as [-> ->]; [lia|].
      rewrite !list_lookup_insert_ne by lia. done.
Qed.

(** The loop over the ranks [a], ..., [a + c - 1]. *)
Lemma assign_rank_range (W n m : Z) (c : nat) :
  1 <= n -> 0 <= W -> m <= n ->
  (forall r, 0 <= r < m ->
     rank_start W n (r + 1) - rank_start W n r <= 128) ->
  forall a ranks tags,
    Z.of_nat (length ranks) = W -> Z.of_nat (length tags) = W ->
    0 <= a -> a + Z.of_nat c <= m ->
    exists ranks' tags',
      foldM (fun tables r =>
               do r_first_point <- first_point r W n;
               do r_last_point <- last_point r W n;
               foldM (assign_point r r_first_point)
                 (range_incl r_first_point r_last_point) tables)
        (seqZ a (Z.of_nat c)) (ranks, tags)
      = Ok (ranks', tags')
      /\ Z.of_nat (length ranks') = W /\ Z.of_nat (length tags') = W
      /\ forall k : nat,
           (rank_start W n a <= Z.of_nat k < rank_start W n (a + Z.of_nat c) ->
            exists r, a <= r < a + Z.of_nat c
                      /\ rank_start W n r <= Z.of_nat k < rank_start W n (r + 1)
                      /\ ranks' !! k = Some r
                      /\ tags' !! k = Some (Z.of_nat k - rank_start W n r))
           /\ (~ rank_start W n a <= Z.of_nat k
                 < rank_start W n (a + Z.of_nat c) ->
               ranks' !! k = ranks !! k /\ tags' !! k = tags !! k).
Proof.
  intros Hn HW Hm H128.
  destruct (rank_start_facts W n Hn HW) as (_ & Hend & Hmono).
  assert (Hbound : forall r, 0 <= r <= n -> rank_start W n r <= W).
  { intros r Hr. unfold rank_start. assert (0 <= r * W) by nia.
    rewrite Z.quot_div_nonneg by lia. apply Z.div_le_upper_bound; nia. }
  induction c as [|c IH]; intros a ranks tags Hr Ht Ha Hc.
  - exists ranks, tags. simpl. rewrite Z.add_0_r.
    repeat split; (done || lia).
  - rewrite seqZ_cons by lia.
    replace (Z.pred (Z.of_nat (S c))) with (Z.of_nat c) by lia.
    assert (Hfp : first_point a W n = Ok (rank_start W n a)).
    { unfold first_point, cpp_div. by destruct (Z.eqb_spec n 0); [lia|]. }
    assert (Hlp : last_point a W n = Ok (rank_start W n (a + 1) - 1)).
    { unfold last_point, cpp_div. by destruct (Z.eqb_spec n 0); [lia|]. }
    cbn [foldM]. rewrite Hfp. cbn [bind]. rewrite Hlp. cbn [bind].
    destruct (Hmono a Ha) as [H0 H1].
    destruct (assign_points W a (rank_start W n a)
                (Z.to_nat (rank_start W n (a + 1) - rank_start W n a))
                (rank_start W n a) ranks tags Hr Ht)
      as (ranks1 & tags1 & Hfold1 & Hr1 & Ht1 & Hk1).
    { lia. }
    { pose proof (Hbound (a + 1) ltac:(lia)). lia. }
    { pose proof (H128 a ltac:(lia)). lia. }
    unfold range_incl.
    replace (rank_start W n (a + 1) - 1 - rank_start W n a + 1)
      with (Z.of_nat (Z.to_nat (rank_start W n (a + 1) - rank_start W n a)))
      by lia.
    rewrite Hfold1. cbn [bind].
    destruct (IH (Z.succ a) ranks1 tags1 Hr1 Ht1 ltac:(lia) ltac:(lia))
      as (ranks' & tags' & Hfold & Hr' & Ht' & Hk).
    exists ranks', tags'. split; [done|]. split; [done|]. split; [done|].
    replace (Z.succ a + Z.of_nat c) with (a + Z.of_nat (S c)) in Hk by lia.
    replace (Z.succ a) with (a + 1) in Hk by lia.
    rewrite Z2Nat.id in Hk1 by lia.
    intros k. destruct (Hk k) as [Hin Hout]. destruct (Hk1 k) as [Hin1 Hout1].
    split.
    + intros Hrange.
      destruct (Z_lt_dec (Z.of_nat k) (rank_start W n (a + 1))) as [Hlt|Hge].
      * destruct Hout as [-> ->]; [lia|].
        destruct Hin1 as [-> ->]; [lia|].
        exists a. repeat split; (done || lia).
      * destruct Hin as (r & Hra & Hrk & Hrr & Hrt); [lia|].
        exists r. repeat split; (done || lia).
    + intros Hrange.
      assert (rank_start W n (a + 1) <= rank_start W n (a + Z.of_nat (S c))).
      { clear -Hmono Ha. induction c as [|c IHc].
        - replace (a + Z.of_nat 1) with (a + 1) by lia. lia.
        - destruct (Hmono (a + Z.of_nat (S c)) ltac:(lia)) as [_ Hs].
          replace (a + Z.of_nat (S (S c))) with (a + Z.of_nat (S c) + 1)
            by lia. lia. }
      destruct Hout as [-> ->]; [lia|]. apply Hout1. lia.
Qed.

(** X26: with at least one rank, when no rank holds more than 128
    points, the loop of the MPI driver that fills [rank_by_point] and
    [tag_bits_by_point] passes its assertion, and gives every point [p] of
    the graph the one rank [r] with
    [r * W / n <= p < (r + 1) * W / n] and the tag [p - r * W / n]. *)
Theorem assign_ranks_spec (W n : Z) :
  1 <= n -> 0 <= W ->
  (forall r, 0 <= r < n ->
     rank_start W n (r + 1) - rank_start W n r <= 128) ->
  exists ranks tags,
    assign_ranks W n = Ok (ranks, tags)
    /\ forall p, 0 <= p < W ->
         exists r, 0 <= r < n
                   /\ rank_start W n r <= p < rank_start W n (r + 1)
                   /\ ranks !! Z.to_nat p = Some r
                   /\ tags !! Z.to_nat p = Some (p - rank_start W n r).
Proof.
  intros Hn HW H128.
  destruct (rank_start_facts W n Hn HW) as (Hstart & Hend & _).
  destruct (assign_rank_range W n n (Z.to_nat n) Hn HW ltac:(lia) H128 0
              (replicate (Z.to_nat W) 0) (replicate (Z.to_nat W) 0))
    as (ranks & tags & Hfold & _ & _ & Hk);
    [rewrite length_replicate; lia | rewrite length_replicate; lia | lia
    | lia |].
  exists ranks, tags. split.
  - unfold assign_ranks, range_excl. rewrite Z.sub_0_r.
    by rewrite Z2Nat.id in Hfold by lia.
  - intros p Hp. destruct (Hk (Z.to_nat p)) as [Hin _].
    rewrite !Z2Nat.id, Z.add_0_l, Hstart, Hend in Hin by lia.
    destruct (Hin Hp) as (r & Hr & Hrange & Hranks & Htags).
    exists r. repeat split; (done || lia).
Qed.

(** X27: when rank [r0] is the first that holds more than 128 points,
    the loop fails its assertion that a tag fits in 7 bits (at the 129th
    point of that rank). *)
Theorem assign_ranks_overflow (W n r0 : Z) :
  1 <= n -> 0 <= W -> 0 <= r0 < n ->
  (forall r, 0 <= r < r0 ->
     rank_start W n (r + 1) - rank_start W n r <= 128) ->
  128 < rank_start W n (r0 + 1) - rank_start W n r0 ->
  assign_ranks W n = AssertFail "(tag_bits_by_point[p] & ~0x7F) == 0".
Proof.
  intros Hn HW Hr0 H128 Hbig.
  destruct (rank_start_facts W n Hn ltac:(lia)) as (Hstart & Hend & Hmono).
  assert (Hbound : rank_start W n (r0 + 1) <= W).
  { unfold rank_start. assert (0 <= (r0 + 1) * W) by nia.
    rewrite Z.quot_div_nonneg by lia. apply Z.div_le_upper_bound; nia. }
  destruct (Hmono r0 ltac:(lia)) as [H0 _].
  unfold assign_ranks, range_excl. rewrite Z.sub_0_r.
  replace (seqZ 0 n) with (seqZ 0 (r0 + (n - r0))) by (f_equal; lia).
  rewrite seqZ_app by lia. rewrite foldM_app, Z.add_0_l.
  destruct (assign_rank_range W n r0 (Z.to_nat r0) Hn ltac:(lia) ltac:(lia)
              H128 0 (replicate (Z.to_nat W) 0) (replicate (Z.to_nat W) 0))
    as (ranks & tags & Hfold & Hr & Ht & _);
    [rewrite length_replicate; lia | rewrite length_replicate; lia | lia
    | lia |].
  rewrite Z2Nat.id in Hfold by lia. rewrite Hfold. cbn [bind].
  rewrite seqZ_cons by lia. cbn [foldM].
  assert (Hfp : first_point r0 W n = Ok (rank_start W n r0)).
  { unfold first_point, cpp_div. by destruct (Z.eqb_spec n 0); [lia|]. }
  assert (Hlp : last_point r0 W n = Ok (rank_start W n (r0 + 1) - 1)).
  { unfold last_point, cpp_div. by destruct (Z.eqb_spec n 0); [lia|]. }
  rewrite Hfp. cbn [bind]. rewrite Hlp. cbn [bind].
  unfold range_incl.
  replace (rank_start W n (r0 + 1) - 1 - rank_start W n r0 + 1)
    with (128 + (rank_start W n (r0 + 1) - rank_start W n r0 - 128)) by lia.
  rewrite (seqZ_app (rank_start W n r0) 128) by lia. rewrite foldM_app.
  destruct (assign_points W r0 (rank_start W n r0) 128 (rank_start W n r0)
              ranks tags Hr Ht) as (ranks1 & tags1 & Hfold1 & Hr1 & Ht1 & _);
    [lia | lia | lia |].
  change (Z.of_nat 128) with 128 in Hfold1. rewrite Hfold1. cbn [bind].
  rewrite seqZ_cons by lia. cbn [foldM]. unfold assign_point at 1.
  destruct (Z.ltb_spec (rank_start W n r0 + 128) 0); [lia|].
  destruct (Z.leb_spec (Z.of_nat (length ranks1)) (rank_start W n r0 + 128));
    [lia|].
  cbn [orb].
  replace (rank_start W n r0 + 128 - rank_start W n r0) with 128 by lia.
  reflexivity.
Qed.

End MpiRanks.

Section MpiInputs.

Variable random_uniform : list Z -> Q.

Lemma interval_points_length (deps : list interval) :
  Forall (fun iv : interval => fst iv <= snd iv) deps ->
  forall acc,
    fold_left (fun deps (iv : interval) => deps + (snd iv - fst iv + 1))
      deps acc
    = acc + Z.of_nat (length (flat_map (fun span : interval =>
                                          range_incl (fst span) (snd span))
                                deps)).
Proof.
  induction 1 as [|iv deps Hiv _ IH]; intros acc; simpl; [lia|].
  rewrite IH, length_app. unfold range_incl at 2. rewrite length_seqZ. lia.
Qed.

Lemma max_deps_points (g : TaskGraph) (dset : Z) (pts : list Z) :
  forall s m,
    foldM (fun max_deps point =>
             do intervals <- dependencies_vector random_uniform g dset point;
             let deps :=
               fold_left (fun deps (iv : interval) =>
                            deps + (snd iv - fst iv + 1)) intervals 0 in
             Ok (Z.max max_deps deps)) pts s = Ok m ->
    s <= m
    /\ forall p deps, p ∈ pts ->
         dependencies_vector random_uniform g dset p = Ok deps ->
         interval_points deps <= m.
Proof.
  induction pts as [|p pts IH]; intros s m.
  - intros [= <-]. split; [lia|]. intros p deps Hp. by apply elem_of_nil in Hp.
  - intros (s1 & Hbody & Hrest)%foldM_cons_ok.
    apply bind_ok in Hbody as (ivs & Hivs & [= <-]).
    apply IH in Hrest as [Hle Hall]. split; [lia|].
    intros q deps [->|Hq]%elem_of_cons Hdeps.
    + rewrite Hivs in Hdeps. injection Hdeps as <-. unfold interval_points.
      lia.
    + by apply (Hall q).
Qed.

Lemma max_deps_sets (g : TaskGraph) (first last : Z) (dsets : list Z) :
  forall s m,
    foldM (fun max_deps dset =>
             foldM (fun max_deps point =>
                      do intervals <- dependencies_vector random_uniform g
                                        dset point;
                      let deps :=
                        fold_left (fun deps (iv : interval) =>
                                     deps + (snd iv - fst iv + 1))
                          intervals 0 in
                      Ok (Z.max max_deps deps))
               (range_incl first last) max_deps) dsets s = Ok m ->
    s <= m
    /\ forall dset p deps, dset ∈ dsets -> first <= p <= last ->
         dependencies_vector random_uniform g dset p = Ok deps ->
         interval_points deps <= m.
Proof.
  induction dsets as [|d dsets IH]; intros s m.
  - intros [= <-]. split; [lia|]. intros d p deps Hd. by apply elem_of_nil in Hd.
  - intros (s1 & Hbody & Hrest)%foldM_cons_ok.
    apply max_deps_points in Hbody as [Hle1 Hall1].
    apply IH in Hrest as [Hle Hall]. split; [lia|].
    intros dset p deps [->|Hd]%elem_of_cons Hp Hdeps.
    + specialize (Hall1 p deps). etrans; [apply Hall1|]; [|done|lia].
      apply elem_of_seqZ. lia.
    + by apply (Hall dset p).
Qed.

Section Receive.

Variables (g : TaskGraph) (m timestep : Z).

Let in_last_row (dep : Z) : Prop :=
  offset_at_timestep g (timestep - 1) <= dep
  < offset_at_timestep g (timestep - 1) + width_at_timestep g (timestep - 1).

Let body (n dep : Z) : result Z :=
  if (dep <? offset_at_timestep g (timestep - 1))
     || (dep >=? offset_at_timestep g (timestep - 1)
                 + width_at_timestep g (timestep - 1))
  then Ok n
  else if (n <? 0) || (m <=? n) then Undefined "index outside point_inputs"
  else Ok (n + 1).

Lemma receive_points (pts : list Z) :
  forall n, 0 <= n -> n + Z.of_nat (length (filter in_last_row pts)) <= m ->
    foldM body pts n = Ok (n + Z.of_nat (length (filter in_last_row pts))).
Proof.
  induction pts as [|d pts IH]; intros n Hn Hm.
  - simpl. f_equal. lia.
  - simpl foldM. unfold body at 1.
    destruct (decide (in_last_row d)) as [Hin|Hout].
    + rewrite filter_cons_True in Hm |- * by done. simpl length in *.
      unfold in_last_row in Hin.
      destruct (Z.ltb_spec d (offset_at_timestep g (timestep - 1))); [lia|].
      destruct (Z.geb_spec d (offset_at_timestep g (timestep - 1)
                              + width_at_timestep g (timestep - 1))); [lia|].
      destruct (Z.ltb_spec n 0); [lia|].
      destruct (Z.leb_spec m n); [lia|]. cbn [orb bind].
      rewrite IH by lia. f_equal. lia.
    + rewrite filter_cons_False in Hm |- * by done.
      unfold in_last_row in Hout.
      assert (Hb : (d <? offset_at_timestep g (timestep - 1))
                   || (d >=? offset_at_timestep g (timestep - 1)
                               + width_at_timestep g (timestep - 1)) = true).
      { destruct (Z.ltb_spec d (offset_at_timestep g (timestep - 1)));
          [done|].
        destruct (Z.geb_spec d (offset_at_timestep g (timestep - 1)
                                + width_at_timestep g (timestep - 1)));
          [done | lia]. }
      rewrite Hb. cbn [bind]. by apply IH.
Qed.

Lemma receive_spans (deps : list interval) :
  forall n, 0 <= n ->
    n + Z.of_nat (length (filter in_last_row
                            (flat_map (fun span : interval =>
                                         range_incl (fst span) (snd span))
                               deps))) <= m ->
    foldM (fun n (iv : interval) =>
             foldM body (range_incl (fst iv) (snd iv)) n) deps n
    = Ok (n + Z.of_nat (length (filter in_last_row
                                  (flat_map (fun span : interval =>
                                               range_incl (fst span) (snd span))
                                     deps)))).
Proof.
  induction deps as [|iv deps IH]; intros n Hn Hm.
  - simpl. f_equal. lia.
  - simpl flat_map in *. rewrite filter_app, length_app in Hm |- *.
    simpl foldM. rewrite receive_points by lia. cbn [bind].
    rewrite IH by lia. f_equal. lia.
Qed.

End Receive.

(** X28: the entries [point_inputs[point_n_inputs]] that the block
    "Receive" of the MPI driver uses are inside the vector of [max_deps]
    entries: for a point of the rank and a dependence set of the graph,
    the block counts the dependencies of the point that lie in the previous
    row (none when the point is outside the row of the timestep), and that
    count is at most [max_deps]. *)
Theorem receive_inputs_fit (g : TaskGraph) (first last m timestep dset p : Z)
    (deps : list interval) :
  1 <= max_width g -> 0 <= radix g -> 0 <= p < max_width g ->
  first <= p <= last -> 0 <= dset < max_dependence_sets g ->
  max_deps random_uniform g first last = Ok m ->
  dependencies_vector random_uniform g dset p = Ok deps ->
  exists n,
    receive_inputs g m timestep p deps = Ok n
    /\ 0 <= n <= m
    /\ n = if in_row g timestep p
           then Z.of_nat
                  (length
                     (filter (fun dep =>
                                offset_at_timestep g (timestep - 1) <= dep
                                < offset_at_timestep g (timestep - 1)
                                  + width_at_timestep g (timestep - 1))
                        (flat_map (fun span : interval =>
                                     range_incl (fst span) (snd span)) deps)))
           else 0.
Proof.
  intros HW HR Hp Hlocal Hdset Hmax Hdeps.
  unfold max_deps in Hmax. apply max_deps_sets in Hmax as [Hm0 Hall].
  pose proof (Hall dset p deps ltac:(apply elem_of_seqZ; lia) Hlocal Hdeps)
    as Hle.
  assert (Hne : Forall (fun iv : interval => fst iv <= snd iv) deps).
  { unfold dependencies_vector in Hdeps.
    apply bind_ok in Hdeps as (cnt & _ & Hdeps).
    apply bind_ok in Hdeps as (l & Hl & Hdeps).
    apply bind_ok in Hdeps as ([] & _ & Hdeps).
    apply bind_ok in Hdeps as ([] & _ & [= <-]).
    by apply (dependencies_nonempty random_uniform g dset p). }
  unfold interval_points in Hle.
  rewrite (interval_points_length deps Hne) in Hle.
  set (ins := filter _ _).
  assert (Hins : Z.of_nat (length ins)
                 <= Z.of_nat (length (flat_map (fun span : interval =>
                                                  range_incl (fst span) (snd span))
                                        deps))).
  { apply inj_le, length_filter. }
  unfold receive_inputs, in_row.
  destruct (Z.geb_spec p (offset_at_timestep g timestep)) as [Hlo|Hlo];
    destruct (Z.leb_spec (offset_at_timestep g timestep) p); try lia;
    cbn [andb]; [|exists 0; repeat split; (done || lia)].
  destruct (p <? _).
  - exists (0 + Z.of_nat (length ins)). split.
    + apply (receive_spans g m timestep deps 0); [lia|]. fold ins. lia.
    + split; [lia|]. lia.
  - exists 0. repeat split; (done || lia).
Qed.

End MpiInputs.

(** ** The model on concrete inputs *)

(** The scenarios of the specification that the code agrees with. *)

Example stencil_deps :
  dependencies sample_uniform (configured STENCIL_1D 4 4 3 0) 0 1
  = Ok [(0, 2)].
Proof. reflexivity. Qed.

Example stencil_output :
  execute_point sample_uniform (configured STENCIL_1D 4 4 3 0) 2 2
    (mkBuffer 16 [(0, 0)]) 16
    [mkBuffer 16 [(1, 1)]; mkBuffer 16 [(1, 2)]; mkBuffer 16 [(1, 3)]] None 0
  = ([], Ok (mkBuffer 16 [(2, 2)])).
Proof. reflexivity. Qed.

Example fft_dependence_sets :
  max_dependence_sets (configured FFT 3 8 3 0) = 3
  /\ dependence_set_at_timestep (configured FFT 3 8 3 0) 1 = Ok 0
  /\ dependence_set_at_timestep (configured FFT 3 8 3 0) 2 = Ok 1
  /\ dependence_set_at_timestep (configured FFT 3 8 3 0) 3 = Ok 2
  /\ dependencies sample_uniform (configured FFT 3 8 3 0) 1 4
     = Ok [(2, 2); (4, 4); (6, 6)].
Proof. repeat split; reflexivity. Qed.

Example tree_deps :
  dependencies sample_uniform (configured TREE 5 8 3 0) 0 3 = Ok [(1, 1)]
  /\ reverse_dependencies sample_uniform (configured TREE 5 8 3 0) 0 1
     = Ok [(2, 3)].
Proof. split; reflexivity. Qed.

Example spread_deps :
  dependencies sample_uniform (configured SPREAD 4 8 3 2) 0 0
  = Ok [(0, 0); (2, 2); (5, 5)]
  /\ dependencies sample_uniform (configured SPREAD 4 8 3 2) 1 0
     = Ok [(0, 0); (3, 3); (6, 6)].
Proof. split; reflexivity. Qed.

Example random_nearest_self_edge :
  dependencies sample_uniform
    (set_fraction_connected 0 (configured RANDOM_NEAREST 4 8 5 1)) 0 3
  = Ok [(3, 3)].
Proof. reflexivity. Qed.


Lemma sample_uniform_range (key : list Z) :
  (0 <= sample_uniform key < 1)%Q.
Proof.
  unfold sample_uniform, Qle, Qlt. simpl.
  assert (0 <= foldr (fun k acc => (31 * acc + k) `mod` 1009) 7 key < 1009).
  { destruct key as [|k key]; simpl; [lia|]. apply Z.mod_pos_bound. lia. }
  lia.
Qed.

Lemma tree_offset_width_witness :
  offset_at_timestep (configured TREE 5 8 3 0) 1 = 0
  /\ width_at_timestep (configured TREE 5 8 3 0) 1 = Z.min 8 (2 ^ Z.min 1 62).
Proof.
  apply (tree_offset_width (configured TREE 5 8 3 0) 1);
    [reflexivity | simpl; lia].
Defined.

Lemma spread_dependencies_witness :
  dependencies sample_uniform (configured SPREAD 4 8 3 2) 1 0
  = Ok (spread_product_first 8 3 1 0).
Proof.
  apply (spread_dependencies sample_uniform (configured SPREAD 4 8 3 2) 1 0);
    [reflexivity | simpl; lia | lia | simpl; lia].
Defined.

Lemma random_nearest_radix_zero_overrun_witness :
  dependencies sample_uniform
    (set_fraction_connected 1 (configured RANDOM_NEAREST 4 1 0 3)) 0 0
  = Ok [(0, 0)]
  /\ num_dependencies
       (set_fraction_connected 1 (configured RANDOM_NEAREST 4 1 0 3)) 0 0
     = Ok 0
  /\ dependencies_vector sample_uniform
       (set_fraction_connected 1 (configured RANDOM_NEAREST 4 1 0 3)) 0 0
     = Undefined "intervals written past the end of the buffer".
Proof.
  apply (random_nearest_radix_zero_overrun sample_uniform).
  intros key. apply sample_uniform_range.
Defined.

Lemma dependencies_symmetric_witness :
  (exists deps rdeps,
     dependencies sample_uniform (configured RANDOM_NEAREST 4 8 5 1) 0 3
     = Ok deps
     /\ reverse_dependencies sample_uniform
          (configured RANDOM_NEAREST 4 8 5 1) 0 4 = Ok rdeps
     /\ (covered deps 4 <-> covered rdeps 3))
  /\ forward_key (configured RANDOM_NEAREST 4 8 5 1) 0 3 4
     = reverse_key (configured RANDOM_NEAREST 4 8 5 1) 0 4 3
  /\ include_forward sample_uniform (configured RANDOM_NEAREST 4 8 5 1) 0 3 4
     = include_reverse sample_uniform (configured RANDOM_NEAREST 4 8 5 1) 0 4 3.
Proof.
  apply (dependencies_symmetric sample_uniform
           (configured RANDOM_NEAREST 4 8 5 1) 0 3 4).
  - repeat split; try (simpl; lia); reflexivity.
  - by vm_compute.
  - by vm_compute.
  - by vm_compute.
Defined.

Lemma stencil_graph_valid :
  valid_graph sample_uniform (configured STENCIL_1D 4 4 3 0).
Proof. repeat split; (simpl; lia) || (vm_compute; reflexivity). Defined.

Lemma report_timing_totals_witness :
  exists tot,
    report_timing sample_uniform sample_iterations sample_iterations
      (mkApp [configured STENCIL_1D 4 4 3 0] 2 0 true) = Ok tot
    /\ total_num_tasks tot
       = spec_total_tasks (mkApp [configured STENCIL_1D 4 4 3 0] 2 0 true)
    /\ total_num_deps tot
       = spec_total_deps sample_uniform
           (mkApp [configured STENCIL_1D 4 4 3 0] 2 0 true).
Proof.
  apply (report_timing_totals sample_uniform sample_iterations
           sample_iterations
           (mkApp [configured STENCIL_1D 4 4 3 0] 2 0 true)).
  simpl. repeat constructor; (simpl; lia) || (vm_compute; reflexivity)
                             || discriminate.
Defined.

(** The further properties at concrete inputs. *)

Lemma rows_inside_graph_witness :
  0 <= offset_at_timestep (configured DOM 4 6 3 0) 3
  /\ 1 <= width_at_timestep (configured DOM 4 6 3 0) 3
  /\ offset_at_timestep (configured DOM 4 6 3 0) 3
     + width_at_timestep (configured DOM 4 6 3 0) 3
     <= max_width (configured DOM 4 6 3 0).
Proof. apply (rows_inside_graph (configured DOM 4 6 3 0) 3); simpl; lia. Defined.

Lemma dependence_set_periodic_witness :
  dependence_set_at_timestep (configured FFT 3 8 3 0)
    (1 + timestep_period (configured FFT 3 8 3 0))
  = dependence_set_at_timestep (configured FFT 3 8 3 0) 1.
Proof.
  apply (dependence_set_periodic (configured FFT 3 8 3 0) 1);
    [lia | by vm_compute].
Defined.

Lemma dependence_set_selected_witness :
  exists dset,
    dependence_set_at_timestep (configured FFT 3 8 3 0) 2 = Ok dset
    /\ 0 <= dset < max_dependence_sets (configured FFT 3 8 3 0).
Proof.
  apply (dependence_set_selected (configured FFT 3 8 3 0) 2);
    [by vm_compute | lia].
Defined.

Lemma dependencies_inside_graph_witness :
  Forall (inside_graph 8) [(0, 0); (3, 3); (6, 6)].
Proof.
  apply (dependencies_inside_graph sample_uniform (configured SPREAD 4 8 3 2)
           1 0 [(0, 0); (3, 3); (6, 6)]);
    [simpl; lia | simpl; lia | lia | by vm_compute | simpl; lia | reflexivity].
Defined.

Lemma reverse_dependencies_inside_graph_witness :
  Forall (inside_graph 8) [(2, 3)].
Proof.
  apply (reverse_dependencies_inside_graph sample_uniform
           (configured TREE 5 8 3 0) 0 1 [(2, 3)]);
    [simpl; lia | simpl; lia | lia | by vm_compute | simpl; lia | reflexivity].
Defined.

Lemma dependency_buffers_suffice_witness :
  dependencies_vector sample_uniform (configured RANDOM_NEAREST 4 8 5 1) 0 3
  = dependencies sample_uniform (configured RANDOM_NEAREST 4 8 5 1) 0 3
  /\ reverse_dependencies_vector sample_uniform
       (configured RANDOM_NEAREST 4 8 5 1) 0 3
     = reverse_dependencies sample_uniform
         (configured RANDOM_NEAREST 4 8 5 1) 0 3.
Proof.
  apply (dependency_buffers_suffice sample_uniform
           (configured RANDOM_NEAREST 4 8 5 1) 0 3);
    [simpl; lia | intros _; simpl; lia].
Defined.

Lemma random_nearest_keeps_self_witness :
  exists deps rdeps,
    dependencies sample_uniform (configured RANDOM_NEAREST 4 8 5 1) 0 3
    = Ok deps
    /\ reverse_dependencies sample_uniform
         (configured RANDOM_NEAREST 4 8 5 1) 0 3 = Ok rdeps
    /\ covered deps 3 /\ covered rdeps 3.
Proof.
  apply (random_nearest_keeps_self sample_uniform
           (configured RANDOM_NEAREST 4 8 5 1) 0 3);
    [reflexivity | simpl; lia | simpl; lia].
Defined.

Lemma random_nearest_unconnected_witness :
  exists deps,
    dependencies sample_uniform
      (set_fraction_connected 0 (configured RANDOM_NEAREST 4 8 5 1)) 0 3
    = Ok deps
    /\ (covered deps 4 <-> 4 = 3).
Proof.
  apply (random_nearest_unconnected sample_uniform
           (set_fraction_connected 0 (configured RANDOM_NEAREST 4 8 5 1))
           0 3 4);
    [reflexivity | simpl; lia | simpl; lia |].
  intros key. exact (proj1 (sample_uniform_range key)).
Defined.

Lemma random_nearest_fully_connected_witness :
  dependencies sample_uniform
    (set_fraction_connected 1 (configured RANDOM_NEAREST 4 8 5 1)) 0 3
  = dependencies sample_uniform
      (set_dependence NEAREST
         (set_fraction_connected 1 (configured RANDOM_NEAREST 4 8 5 1))) 0 3
  /\ reverse_dependencies sample_uniform
       (set_fraction_connected 1 (configured RANDOM_NEAREST 4 8 5 1)) 0 3
     = reverse_dependencies sample_uniform
         (set_dependence NEAREST
            (set_fraction_connected 1 (configured RANDOM_NEAREST 4 8 5 1)))
         0 3.
Proof.
  apply (random_nearest_fully_connected sample_uniform
           (set_fraction_connected 1 (configured RANDOM_NEAREST 4 8 5 1)) 0 3);
    [reflexivity | simpl; lia | simpl; lia |].
  intros key. exact (proj2 (sample_uniform_range key)).
Defined.

Lemma random_nearest_runs_separated_witness :
  separated [(1, 1); (3, 3); (5, 5)].
Proof.
  apply (random_nearest_runs_separated sample_uniform
           (configured RANDOM_NEAREST 4 8 5 1) 0 3 [(1, 1); (3, 3); (5, 5)]);
    [reflexivity | left; reflexivity].
Defined.

Lemma spread_dependencies_distinct_witness :
  Z.of_nat (length [(0, 0); (3, 3); (6, 6)]) = 3
  /\ NoDup (map fst [(0, 0); (3, 3); (6, 6)]).
Proof.
  apply (spread_dependencies_distinct sample_uniform
           (configured SPREAD 4 8 3 2) 1 0 [(0, 0); (3, 3); (6, 6)]);
    [reflexivity | simpl; lia | reflexivity | by vm_compute | simpl; lia
    | reflexivity].
Defined.

Lemma validate_records_reports_first_witness :
  exists what,
    validate_records (configured STENCIL_1D 4 4 3 0) 2 2 2 0
      (mkBuffer 32 [(1, 2); (9, 9)])
    = ([mkCorruption 0 2 2 0 1 (1, 2) (9, 9)], AssertFail what).
Proof.
  apply (validate_records_reports_first (configured STENCIL_1D 4 4 3 0)
           2 2 2 0 (mkBuffer 32 [(1, 2); (9, 9)]) 1 (9, 9));
    [by vm_compute | | reflexivity | by vm_compute].
  intros j Hj. replace j with 0 by lia. reflexivity.
Defined.

Lemma execute_point_validation_exact_witness :
  [] = @nil corruption
  /\ inputs_ready sample_uniform (configured STENCIL_1D 4 4 3 0) 2 2
       [mkBuffer 16 [(1, 1)]; mkBuffer 16 [(1, 2)]; mkBuffer 16 [(1, 3)]]
     = true.
Proof.
  apply (execute_point_validation_exact sample_uniform
           (configured STENCIL_1D 4 4 3 0) 2 2
           [mkBuffer 16 [(1, 1)]; mkBuffer 16 [(1, 2)]; mkBuffer 16 [(1, 3)]]
           []).
  vm_compute. reflexivity.
Defined.

Lemma execute_point_output_witness :
  bytes (mkBuffer 16 [(2, 2)]) = bytes (mkBuffer 16 [(0, 0)])
  /\ length (slots (mkBuffer 16 [(2, 2)]))
     = length (slots (mkBuffer 16 [(0, 0)]))
  /\ forall k : nat,
       slots (mkBuffer 16 [(2, 2)]) !! k
       = if Z.of_nat k <? 16 `quot` sizeof_pair
         then Some (2, 2) else slots (mkBuffer 16 [(0, 0)]) !! k.
Proof.
  apply (execute_point_output sample_uniform (configured STENCIL_1D 4 4 3 0)
           2 2 (mkBuffer 16 [(0, 0)]) (mkBuffer 16 [(2, 2)]) 16
           [mkBuffer 16 [(1, 1)]; mkBuffer 16 [(1, 2)]; mkBuffer 16 [(1, 3)]]
           None 0 []).
  vm_compute. reflexivity.
Defined.

Lemma execute_point_runs_witness :
  exists out,
    execute_point sample_uniform (configured STENCIL_1D 4 4 3 0) 2 2
      (mkBuffer 16 [(0, 0)]) 16
      [mkBuffer 16 [(1, 1)]; mkBuffer 16 [(1, 2)]; mkBuffer 16 [(1, 3)]]
      (Some []) 0 = ([], Ok out)
    /\ payload_ok 2 2 (mkBuffer 16 (slots out)) = true.
Proof.
  apply (execute_point_runs sample_uniform (configured STENCIL_1D 4 4 3 0)
           2 2 (mkBuffer 16 [(0, 0)]) 16
           [mkBuffer 16 [(1, 1)]; mkBuffer 16 [(1, 2)]; mkBuffer 16 [(1, 3)]]
           []).
  - exact stencil_graph_valid.
  - simpl. lia.
  - by vm_compute.
  - vm_compute. reflexivity.
  - by vm_compute.
  - by vm_compute.
  - reflexivity.
  - by vm_compute.
Defined.

Lemma allocate_bytes_fills_rows_witness :
  exists tab,
    allocate_bytes (fun _ _ => []) fresh_dom_graph
    = Ok (set_output_bytes_size (Some tab) fresh_dom_graph)
    /\ forall t i, 0 <= t < 4 -> 0 <= i < 4 ->
         read_cell tab t i
         = if in_row fresh_dom_graph t i then Ok 16
           else Undefined "read of an unwritten cell".
Proof.
  apply (allocate_bytes_fills_rows (fun _ _ => []) fresh_dom_graph);
    [simpl; lia | simpl; lia | reflexivity | left; reflexivity].
Defined.

Lemma report_timing_local_nonlocal_witness :
  exists tot,
    report_timing sample_uniform sample_iterations sample_iterations
      (mkApp [configured STENCIL_1D 4 4 3 0] 2 0 true) = Ok tot
    /\ total_local_deps tot + total_nonlocal_deps tot = total_num_deps tot.
Proof.
  apply (report_timing_local_nonlocal sample_uniform sample_iterations
           sample_iterations (mkApp [configured STENCIL_1D 4 4 3 0] 2 0 true));
    [|simpl; lia].
  simpl. repeat constructor; (simpl; lia) || (vm_compute; reflexivity)
                             || discriminate.
Defined.

Lemma report_timing_divides_by_samples_witness :
  report_timing sample_uniform sample_iterations sample_iterations
    (mkApp [unsampled_graph] 2 0 true) = DivByZero.
Proof.
  apply (report_timing_divides_by_samples sample_uniform sample_iterations
           sample_iterations (mkApp [unsampled_graph] 2 0 true) [] []
           unsampled_graph);
    [reflexivity | constructor | | left; reflexivity | reflexivity].
  repeat split; (simpl; lia) || (vm_compute; reflexivity).
Defined.

Lemma count_flops_uniform_witness :
  count_flops sample_iterations sample_iterations unsampled_graph
  = count_flops_per_task sample_iterations sample_iterations
      unsampled_graph 0 0
    * sumZ (map (width_at_timestep unsampled_graph)
              (range_excl 0 (timesteps unsampled_graph))).
Proof.
  apply (count_flops_uniform sample_iterations sample_iterations
           unsampled_graph); [reflexivity | simpl; lia].
Defined.

Lemma App_ctor_numbers_graphs_witness :
  exists app,
    App_ctor sample_uniform (fun _ _ => []) (fun _ => 0%Q)
      ["task_bench"; "-and"; "-type"; "stencil_1d"] = Ok app
    /\ forall (k : nat) (g : TaskGraph),
         graphs app !! k = Some g -> graph_index g = Z.of_nat k.
Proof.
  eexists. split; [vm_compute; reflexivity|].
  apply (App_ctor_numbers_graphs sample_uniform (fun _ _ => [])
           (fun _ => 0%Q) ["task_bench"; "-and"; "-type"; "stencil_1d"]).
  vm_compute. reflexivity.
Defined.

Lemma App_ctor_graphs_valid_witness :
  exists app,
    App_ctor sample_uniform (fun _ _ => []) (fun _ => 0%Q)
      ["task_bench"; "-and"; "-type"; "stencil_1d"] = Ok app
    /\ Forall (valid_graph sample_uniform) (graphs app).
Proof.
  eexists. split; [vm_compute; reflexivity|].
  apply (App_ctor_graphs_valid sample_uniform (fun _ _ => [])
           (fun _ => 0%Q) ["task_bench"; "-and"; "-type"; "stencil_1d"]).
  vm_compute. reflexivity.
Defined.

Lemma App_ctor_counts_graphs_witness :
  exists app,
    App_ctor sample_uniform (fun _ _ => []) (fun _ => 0%Q)
      ["task_bench"; "-and"; "-type"; "stencil_1d"] = Ok app
    /\ Z.of_nat (length (graphs app))
       = 1 + Z.of_nat (length (filter (fun s => s = "-and")
                                 (drop 1 ["task_bench"; "-and"; "-type";
                                          "stencil_1d"]))).
Proof.
  eexists. split; [vm_compute; reflexivity|].
  apply (App_ctor_counts_graphs sample_uniform (fun _ _ => [])
           (fun _ => 0%Q) ["task_bench"; "-and"; "-type"; "stencil_1d"]);
    [reflexivity | vm_compute; reflexivity].
Defined.

Lemma flag_without_argument_aborts_witness :
  parse_argument (fun _ => 0%Q) ["task_bench"; "-steps"]
    (mkPstate 1 (default_graph 0) (mkApp [] 0 0 true))
  = Abort ("error: Flag requires an argument: " +:+ "-steps").
Proof.
  apply (flag_without_argument_aborts (fun _ => 0%Q) ["task_bench"; "-steps"]
           (mkPstate 1 (default_graph 0) (mkApp [] 0 0 true)) "-steps");
    [apply (list_elem_of_lookup_2 valued_flags 1); reflexivity | reflexivity
    | by vm_compute].
Defined.

Lemma task_arguments_spec_witness :
  (Z.of_nat (length [1; 2; 3]) <= 8 ->
   exists sizes,
     task_arguments sample_uniform sized_graph 2 0 2
     = Ok (mkTaskList (task_tiles (nb_fields sized_graph) 2 2 [1; 2; 3]) sizes
             (2 + Z.of_nat (length [1; 2; 3]))
             (1 + Z.of_nat (length [1; 2; 3])))
     /\ insert_task (task_tiles (nb_fields sized_graph) 2 2 [1; 2; 3])
        = Ok (1 + Z.of_nat (length [1; 2; 3])))
  /\ (9 <= Z.of_nat (length [1; 2; 3]) ->
      task_arguments sample_uniform sized_graph 2 0 2
      = Undefined "write outside payload.output_bytes_size").
Proof.
  apply (task_arguments_spec sample_uniform sized_graph 2 0 2 [1; 2; 3] 16 16);
    [simpl; lia | simpl; lia | by vm_compute | simpl; lia | by vm_compute
    | reflexivity | reflexivity | reflexivity | reflexivity].
Defined.

Lemma parsec_task_arguments_spec_witness :
  (0 = (fun _ col : Z => col `mod` 2) (2 `rem` 4) 2 -> true = true)
  /\ (true = false ->
      parsec_task_arguments sample_uniform (fun _ col => col `mod` 2)
        sized_graph 4 0 2 0 2 = Ok None)
  /\ (true = true ->
      (Z.of_nat (length [1; 2; 3]) <= 9 ->
       exists sizes,
         parsec_task_arguments sample_uniform (fun _ col => col `mod` 2)
           sized_graph 4 0 2 0 2
         = Ok (Some (mkTaskList (task_tiles 4 2 2 [1; 2; 3]) sizes
                       (1 + Z.of_nat (length [1; 2; 3]))
                       (1 + Z.of_nat (length [1; 2; 3]))))
         /\ parsec_insert_task (1 + Z.of_nat (length [1; 2; 3]))
              (task_tiles 4 2 2 [1; 2; 3])
            = Ok (1 + Z.of_nat (length [1; 2; 3])))
      /\ (10 <= Z.of_nat (length [1; 2; 3]) ->
          parsec_task_arguments sample_uniform (fun _ col => col `mod` 2)
            sized_graph 4 0 2 0 2
          = Undefined "write outside payload.output_bytes_size")).
Proof.
  apply (parsec_task_arguments_spec sample_uniform (fun _ col => col `mod` 2)
           sized_graph 4 0 2 0 2 [(1, 3)] [1; 2; 3] 16 true);
    [simpl; lia | simpl; lia | by vm_compute | simpl; lia | lia
    | reflexivity | reflexivity | reflexivity | reflexivity | reflexivity].
Defined.

Lemma assign_ranks_spec_witness :
  exists ranks tags,
    assign_ranks 8 2 = Ok (ranks, tags)
    /\ forall p, 0 <= p < 8 ->
         exists r, 0 <= r < 2
                   /\ rank_start 8 2 r <= p < rank_start 8 2 (r + 1)
                   /\ ranks !! Z.to_nat p = Some r
                   /\ tags !! Z.to_nat p = Some (p - rank_start 8 2 r).
Proof.
  apply (assign_ranks_spec 8 2); [lia | lia |].
  intros r Hr. assert (Hcases : r = 0 \/ r = 1) by lia.
  destruct Hcases as [-> | ->]; by vm_compute.
Defined.

Lemma assign_ranks_overflow_witness :
  assign_ranks 300 2 = AssertFail "(tag_bits_by_point[p] & ~0x7F) == 0".
Proof.
  apply (assign_ranks_overflow 300 2 0); [lia | lia | lia | | by vm_compute].
  intros r Hr. lia.
Defined.

Lemma receive_inputs_fit_witness :
  exists n,
    receive_inputs (configured STENCIL_1D 4 4 3 0) 3 2 2 [(1, 3)] = Ok n
    /\ 0 <= n <= 3
    /\ n = if in_row (configured STENCIL_1D 4 4 3 0) 2 2
           then Z.of_nat
                  (length
                     (filter (fun dep =>
                                offset_at_timestep
                                  (configured STENCIL_1D 4 4 3 0) (2 - 1)
                                <= dep
                                < offset_at_timestep
                                    (configured STENCIL_1D 4 4 3 0) (2 - 1)
                                  + width_at_timestep
                                      (configured STENCIL_1D 4 4 3 0) (2 - 1))
                        (flat_map (fun span : interval =>
                                     range_incl (fst span) (snd span))
                           [(1, 3)])))
           else 0.
Proof.
  apply (receive_inputs_fit sample_uniform (configured STENCIL_1D 4 4 3 0)
           0 3 3 2 0 2 [(1, 3)]);
    [simpl; lia | simpl; lia | simpl; lia | lia | by vm_compute
    | reflexivity | reflexivity].
Defined.

Lemma execute_graph_runs_witness :
  exists mat',
    execute_graph sample_uniform (set_nb_fields 2 sized_graph) None
      (replicate 8 [(0, 0)]) = ([], Ok mat')
    /\ forall x,
         x ∈ row_points (set_nb_fields 2 sized_graph)
               (timesteps (set_nb_fields 2 sized_graph) - 1) ->
         tile_done (set_nb_fields 2 sized_graph) mat'
           (timesteps (set_nb_fields 2 sized_graph) - 1) x.
Proof.
  apply (execute_graph_runs sample_uniform (set_nb_fields 2 sized_graph) None
           (replicate 8 [(0, 0)])).
  - repeat split; (simpl; lia) || (vm_compute; reflexivity).
  - simpl. lia.
  - vm_compute. reflexivity.
  - vm_compute. reflexivity.
  - simpl. lia.
  - reflexivity.
Defined.

Lemma allocate_tiles_spec_witness :
  exists g',
    allocate_bytes (fun _ _ => []) fresh_dom_graph = Ok g'
    /\ (full_rows (set_nb_fields 4 g') = true ->
        allocate_tiles (fun size => replicate (Z.to_nat (size `quot` 16)) (0, 0))
          (set_nb_fields 4 g')
        = Ok (replicate (Z.to_nat (4 * max_width fresh_dom_graph))
                (replicate
                   (Z.to_nat (output_bytes_per_task fresh_dom_graph `quot` 16))
                   (0, 0)))
        /\ tiles_fit (set_nb_fields 4 g')
             (replicate (Z.to_nat (4 * max_width fresh_dom_graph))
                (replicate
                   (Z.to_nat (output_bytes_per_task fresh_dom_graph `quot` 16))
                   (0, 0))) = true)
    /\ (full_rows (set_nb_fields 4 g') = false ->
        allocate_tiles (fun size => replicate (Z.to_nat (size `quot` 16)) (0, 0))
          (set_nb_fields 4 g')
        = Undefined "read of an unwritten cell").
Proof.
  apply (allocate_tiles_spec (fun _ _ => [])
           (fun size => replicate (Z.to_nat (size `quot` 16)) (0, 0))
           fresh_dom_graph 4);
    [simpl; lia | simpl; lia | reflexivity | left; reflexivity
    | by vm_compute | by vm_compute | simpl; lia].
Defined.

Lemma execute_point_round_trip_witness :
  (forall p, p ∈ [1; 2; 3] ->
     payload_ok 0 p (mkBuffer 16 (slots (mkBuffer 16 [(0, p)]))) = true)
  /\ execute_point_validation sample_uniform (configured STENCIL_1D 4 4 3 0)
       (0 + 1) 2
       (map (fun p => mkBuffer 16 (slots (mkBuffer 16 [(0, p)]))) [1; 2; 3])
     = ([], Ok tt)
  /\ (forall fed : list buffer,
        inputs_ready sample_uniform (configured STENCIL_1D 4 4 3 0) (0 + 1) 2
          fed = true ->
        execute_point_validation sample_uniform
          (configured STENCIL_1D 4 4 3 0) (0 + 1) 2 fed = ([], Ok tt)).
Proof.
  apply (execute_point_round_trip sample_uniform
           (configured STENCIL_1D 4 4 3 0) 0 2 [1; 2; 3]
           (fun _ => mkBuffer 16 [(7, 7)]) (fun _ => 16) (fun _ => [])
           (fun _ => None) (fun _ => 0) (fun _ => [])
           (fun p => mkBuffer 16 [(0, p)])).
  - exact stencil_graph_valid.
  - simpl. lia.
  - by vm_compute.
  - vm_compute. reflexivity.
  - intros p Hp. apply list_elem_of_In in Hp. simpl in Hp.
    destruct Hp as [<-|[<-|[<-|[]]]]; vm_compute; reflexivity.
Defined.
